(** * next-task: policy parsing, task discovery and resume resolution

    A shallow embedding of the JavaScript of
    - [lib/sources/policy-questions.js] (policy answers to a policy object),
    - the [/next-task] command (pre-flight [--resume] handling,
      [findWorktreeToResume], [mapStepToPhase]),
    - the [discover-tasks] skill (PR-linked issues, claimed-task exclusion,
      priority filter, scoring and ranking),
    together with the properties of that code.

    Conventions.  A JavaScript string is a [string] whose characters are the
    code units U+0000..U+00FF.  A [Set] of strings is a [gset string].  An
    object literal used as a lookup table is a [gmap] of its own properties
    in front of the properties every object inherits from
    [Object.prototype].  A function that may throw returns an [outcome]. *)

From Stdlib Require Import ZArith QArith Ascii String List Sorted Permutation Lia Bool.
From stdpp Require Import base strings list gmap sets.

Local Open Scope string_scope.
Local Open Scope Z_scope.

(** ** JavaScript strings *)

Module JsString.

Definition code (c : ascii) : N := N_of_ascii c.

Definition inRange (lo hi : N) (c : ascii) : bool :=
  ((lo <=? code c) && (code c <=? hi))%N.

(** [\d] *)
Definition isDigit (c : ascii) : bool := inRange 48 57 c.

(** [\w] *)
Definition isWordChar (c : ascii) : bool :=
  inRange 65 90 c || inRange 97 122 c || isDigit c || (code c =? 95)%N.

(** [\s], and the characters [trim] strips: TAB, LF, VT, FF, CR, space and
    U+00A0. *)
Definition isSpace (c : ascii) : bool :=
  inRange 9 13 c || (code c =? 32)%N || (code c =? 160)%N.

(** [[\x20-\x7E]] *)
Definition isPrintable (c : ascii) : bool := inRange 32 126 c.

(** One character of [toLowerCase]: A-Z, and the upper-case letters
    U+00C0..U+00DE other than the multiplication sign U+00D7. *)
Definition toLowerChar (c : ascii) : ascii :=
  if inRange 65 90 c || (inRange 192 222 c && negb (code c =? 215)%N)
  then ascii_of_N (code c + 32) else c.

Fixpoint toLowerCase (s : string) : string :=
  match s with
  | EmptyString => EmptyString
  | String c s' => String (toLowerChar c) (toLowerCase s')
  end.

(** [s.startsWith(p)] *)
Fixpoint startsWith (s p : string) {struct p} : bool :=
  match p, s with
  | EmptyString, _ => true
  | String a p', String b s' => if Ascii.eqb a b then startsWith s' p' else false
  | String _ _, EmptyString => false
  end.

(** [s.includes(needle)] *)
Fixpoint includes (s needle : string) : bool :=
  startsWith s needle ||
  match s with
  | EmptyString => false
  | String _ s' => includes s' needle
  end.

(** [s.endsWith(x)] *)
Fixpoint endsWith (s x : string) : bool :=
  String.eqb s x ||
  match s with
  | EmptyString => false
  | String _ s' => endsWith s' x
  end.

Fixpoint all (p : ascii -> bool) (s : string) : bool :=
  match s with
  | EmptyString => true
  | String c s' => p c && all p s'
  end.

Fixpoint mapChars (f : ascii -> ascii) (s : string) : string :=
  match s with
  | EmptyString => EmptyString
  | String c s' => String (f c) (mapChars f s')
  end.

(** [s.substring(0, n)] *)
Fixpoint take (n : nat) (s : string) : string :=
  match n, s with
  | S n', String c s' => String c (take n' s')
  | _, _ => EmptyString
  end.

Fixpoint dropWhile (p : ascii -> bool) (s : string) : string :=
  match s with
  | String c s' => if p c then dropWhile p s' else s
  | EmptyString => EmptyString
  end.

Fixpoint rev_append (s acc : string) : string :=
  match s with
  | EmptyString => acc
  | String c s' => rev_append s' (String c acc)
  end.

Definition rev (s : string) : string := rev_append s EmptyString.

(** [s.trim()] *)
Definition trim (s : string) : string :=
  rev (dropWhile isSpace (rev (dropWhile isSpace s))).

(** The decimal digits of a natural number, most significant first. *)
Fixpoint digitsOf (fuel : nat) (n : N) (acc : string) : string :=
  let acc' := String (ascii_of_N (48 + n mod 10)) acc in
  match fuel with
  | O => acc'
  | S fuel' => if (n <? 10)%N then acc' else digitsOf fuel' (n / 10) acc'
  end.

(** [String(n)] for a safe integer [n], one of magnitude at most
    2^53 - 1: the decimal digits of [n].  Larger numbers, which the
    program rounds or writes with an exponent, are outside what this
    function describes. *)
Definition ofZ (z : Z) : string :=
  let mag := Z.to_N (Z.abs z) in
  let ds := digitsOf (N.to_nat (N.log2 mag)) mag EmptyString in
  if z <? 0 then String "-" ds else ds.

(** [Number(s)] for a string of decimal digits whose value is a safe
    integer, at most 2^53 - 1; the rounding of larger values is not
    described. *)
Definition toZ (s : string) : Z :=
  let fix go (acc : Z) (s : string) : Z :=
    match s with
    | EmptyString => acc
    | String c s' => go (10 * acc + (Z.of_N (code c) - 48)) s'
    end in
  go 0 s.

End JsString.

(** ** JavaScript values, objects and exceptions *)

(** What is thrown: [new Error(message)], or the [TypeError] and
    [SyntaxError] of the runtime. *)
Inductive exception : Type :=
| Error (message : string)
| TypeError
| SyntaxError.

(** What a call does: it returns a value or throws. *)
Inductive outcome (A : Type) : Type :=
| Returned (a : A)
| Thrown (e : exception).
Arguments Returned {A} a.
Arguments Thrown {A} e.

#[global] Instance outcome_ret : MRet outcome := fun _ a => Returned a.

#[global] Instance outcome_bind : MBind outcome := fun _ _ k m =>
  match m with
  | Returned a => k a
  | Thrown e => Thrown e
  end.

(** A JSON file on disk: absent, present with text [JSON.parse] rejects,
    or present with a document. *)
Inductive file (A : Type) : Type :=
| Absent
| Malformed
| Document (a : A).
Arguments Absent {A}.
Arguments Malformed {A}.
Arguments Document {A} a.

(** The property names every object inherits from [Object.prototype]; the
    value of each is a function, or for [__proto__] the prototype itself. *)
Definition objectPrototypeKeys : list string :=
  [ "constructor"; "__defineGetter__"; "__defineSetter__"; "hasOwnProperty";
    "__lookupGetter__"; "__lookupSetter__"; "isPrototypeOf";
    "propertyIsEnumerable"; "toString"; "valueOf"; "__proto__";
    "toLocaleString" ].

(** The result of [obj[key]] on an object literal. *)
Inductive property (V : Type) : Type :=
| Own (v : V)
| Inherited (key : string)
| Undefined.
Arguments Own {V} v.
Arguments Inherited {V} key.
Arguments Undefined {V}.

Definition getProperty {V} (obj : gmap string V) (key : string) : property V :=
  match obj !! key with
  | Some v => Own v
  | None =>
      if bool_decide (key ∈ objectPrototypeKeys) then Inherited key else Undefined
  end.

(** A value read from a table of [V]s: one of the table's, or a built-in
    reached through the prototype. *)
Inductive looked (V : Type) : Type :=
| Value (v : V)
| Builtin (key : string).
Arguments Value {V} v.
Arguments Builtin {V} key.

(** [x || d] for a table of strings. *)
Definition orString (p : property string) (d : string) : looked string :=
  match p with
  | Own v => Value (if String.eqb v "" then d else v)
  | Inherited k => Builtin k
  | Undefined => Value d
  end.

(** ** lib/sources/policy-questions.js *)

Module Policy.

(** A source configuration: what [mapSource] builds, the custom handler
    returns and the preference cache stores. *)
Record sourceConfig : Type := SourceConfig {
  source : string;
  projectNumber : option Z;
  owner : option string;
  description : option string;
  tool : option string;
  toolType : option string
}.

Definition plainSource (name : string) : sourceConfig :=
  SourceConfig name None None None None None.

(** The value of [policy.taskSource]. *)
Inductive taskSource : Type :=
| SourceNull
| SourceObject (c : sourceConfig)
| SourceBuiltin (key : string).

Record customDetails : Type := CustomDetails {
  customType : string;
  customName : string;
  customDescription : option string
}.

(** [responses.project]; [projectNumberText] is [String(project.number)]. *)
Record projectDetails : Type := ProjectDetails {
  projectNumberText : string;
  projectOwner : option string
}.

Record responses : Type := Responses {
  responseSource : string;
  responsePriority : string;
  responseStopPoint : string;
  responseCustom : option customDetails;
  responseProject : option projectDetails
}.

Record policy : Type := MkPolicy {
  policyTaskSource : taskSource;
  priorityFilter : looked string;
  stoppingPoint : looked string
}.

Definition sourceMap : gmap string (option sourceConfig) :=
  list_to_map
    [ ("GitHub Issues", Some (plainSource "github"));
      ("GitHub Projects", Some (plainSource "gh-projects"));
      ("GitLab Issues", Some (plainSource "gitlab"));
      ("Local tasks.md", Some (plainSource "local"));
      ("Custom", None);
      ("Other", None) ].

Definition priorityMap : gmap string string :=
  list_to_map
    [ ("All", "all"); ("Bugs", "bugs"); ("Security", "security");
      ("Features", "features") ].

Definition stopPointMap : gmap string string :=
  list_to_map
    [ ("Merged", "merged"); ("PR Created", "pr-created");
      ("Implemented", "implemented"); ("Deployed", "deployed");
      ("Production", "production") ].

Definition mapPriority (selection : string) : looked string :=
  orString (getProperty priorityMap selection) "all".

Definition mapStopPoint (selection : string) : looked string :=
  orString (getProperty stopPointMap selection) "merged".

Definition isUsingCached (selection : string) : bool :=
  JsString.includes selection "(last used)".

Definition needsCustomFollowUp (selection : string) : bool :=
  String.eqb selection "Custom".

Definition needsOtherDescription (selection : string) : bool :=
  String.eqb selection "Other".

Definition needsProjectFollowUp (selection : string) : bool :=
  String.eqb selection "GitHub Projects".

Section WithCollaborators.

(** The two functions of [./custom-handler] that [mapSource] calls. *)
Variable mapTypeSelection : string -> string.
Variable buildCustomConfig : string -> string -> sourceConfig.

(** [cached] is what [sourceCache.getPreference()] returns: the stored
    preference, or [null] when the cache is empty. *)
Definition mapSource (cached : option sourceConfig) (selection : string)
    (custom : option customDetails) : taskSource :=
  if JsString.includes selection "(last used)" then
    match cached with
    | Some c => SourceObject c
    | None => SourceNull
    end
  else
    match String.eqb selection "Custom", custom with
    | true, Some d =>
        let normalizedType := mapTypeSelection (customType d) in
        SourceObject (buildCustomConfig normalizedType (customName d))
    | _, _ =>
        if String.eqb selection "Other" then
          SourceObject
            (SourceConfig "other" None None
               (Some (match custom with
                      | Some d => default "" (customDescription d)
                      | None => ""
                      end))
               None None)
        else
          match getProperty sourceMap selection with
          | Own (Some c) => SourceObject c
          | Own None | Undefined => SourceObject (plainSource "github")
          | Inherited k => SourceBuiltin k
          end
    end.

(** The project-number pattern: a digit 1-9 followed by digits only. *)
Definition isPositiveInteger (s : string) : bool :=
  match s with
  | String c s' => JsString.inRange 49 57 c && JsString.all JsString.isDigit s'
  | EmptyString => false
  end.

(** The owner pattern: the text [@me], or a letter or digit followed by
    letters, digits, [_] and [-]. *)
Definition isOwnerName (s : string) : bool :=
  String.eqb s "@me" ||
  match s with
  | String c s' =>
      (JsString.isWordChar c && negb (JsString.code c =? 95)%N) &&
      JsString.all (fun x => JsString.isWordChar x || (JsString.code x =? 45)%N) s'
  | EmptyString => false
  end.

(** [String(x).replace(/[^\x20-\x7E]/g, '?').substring(0, n)] *)
Definition safeText (n : nat) (s : string) : string :=
  JsString.take n
    (JsString.mapChars (fun c => if JsString.isPrintable c then c else "?"%char) s).

Definition quote : string := String "034"%char EmptyString.

(** The [gh-projects] follow-up: validate and merge the project number
    and owner. *)
Definition mergeProject (c : sourceConfig) (project : option projectDetails)
    : outcome sourceConfig :=
  match project with
  | Some pr =>
      let rawNum := JsString.trim (projectNumberText pr) in
      if negb (isPositiveInteger rawNum) then
        Thrown (Error
          ("Invalid project number: " ++ quote
             ++ safeText 32 (projectNumberText pr) ++ quote
             ++ ". Must be a positive integer."))
      else
        let num := JsString.toZ rawNum in
        let ownerText := default "" (projectOwner pr) in
        let owner' := JsString.trim ownerText in
        if String.eqb owner' "" || negb (isOwnerName owner') then
          Thrown (Error
            ("Invalid project owner: " ++ quote ++ safeText 64 ownerText
               ++ quote ++ " (use @me or an org/user name)"))
        else
          Returned
            (SourceConfig (source c) (Some num) (Some owner')
               (description c) (tool c) (toolType c))
  | None =>
      let noNumber := match projectNumber c with
                      | Some n => n =? 0 | None => true end in
      let noOwner := match owner c with
                     | Some o => String.eqb o "" | None => true end in
      if noNumber || noOwner then
        Thrown (Error
          "GitHub Projects source requires project number and owner. Call getProjectQuestions() first.")
      else Returned c
  end.

(** [parseAndCachePolicy(responses)].  The second component lists the
    arguments of the calls to [sourceCache.savePreference], in order. *)
Definition parseAndCachePolicy (cached : option sourceConfig) (r : responses)
    : outcome policy * list taskSource :=
  let taskSource0 := mapSource cached (responseSource r) (responseCustom r) in
  let priority := mapPriority (responsePriority r) in
  let stop := mapStopPoint (responseStopPoint r) in
  match taskSource0 with
  | SourceNull =>
      (Thrown (Error "Cached source preference not found. Please select a source."), [])
  | SourceBuiltin k =>
      (Returned (MkPolicy (SourceBuiltin k) priority stop), [SourceBuiltin k])
  | SourceObject c =>
      if String.eqb (source c) "gh-projects" then
        match mergeProject c (responseProject r) with
        | Thrown e => (Thrown e, [])
        | Returned c' =>
            let complete :=
              match projectNumber c', owner c' with
              | Some n, Some o => negb (n =? 0) && negb (String.eqb o "")
              | _, _ => false
              end in
            (Returned (MkPolicy (SourceObject c') priority stop),
             if complete then [SourceObject c'] else [])
        end
      else if String.eqb (source c) "other" then
        (Returned (MkPolicy (SourceObject c) priority stop), [])
      else
        (Returned (MkPolicy (SourceObject c) priority stop), [SourceObject c])
  end.

End WithCollaborators.

End Policy.

(** ** The /next-task command: pre-flight and resume *)

Module Resume.

(** An entry of the registry [.claude/tasks.json]. *)
Record claim : Type := Claim {
  claimId : string;
  branch : string;
  worktreePath : string
}.

(** An entry of [steps] in a worktree's [.claude/workflow-status.json]. *)
Record checkpoint : Type := Checkpoint {
  step : string;
  status : string
}.

(** [status.task], [status.git] and [status.workflow] with the properties
    that the handler prints; [None] is a property that is missing. *)
Record taskInfo : Type := TaskInfo {
  taskId : option string;
  taskTitle : option string
}.

Record gitInfo : Type := GitInfo {
  gitBranch : option string
}.

Record workflowInfo : Type := WorkflowInfo {
  lastActivityAt : option string
}.

(** A status file once parsed: a JSON object in which [steps], where
    present, is an array of step objects, and [task], [git] and [workflow],
    where present, are objects.  [None] is a property that is missing or
    [null]: reading a property of it throws a [TypeError]. *)
Record workflowStatus : Type := WorkflowStatus {
  steps : option (list checkpoint);
  statusTask : option taskInfo;
  git : option gitInfo;
  workflow : option workflowInfo
}.

(** The part of the file system the command reads.  A registry file that
    parses is taken to hold an object with a [tasks] array of claims, each
    with its [id], [branch] and [worktreePath] strings; the status files
    are described by [workflowStatus]. *)
Record disk : Type := Disk {
  registry : file (list claim);
  pathExists : string -> bool;
  statusFile : string -> file workflowStatus
}.

Record worktree : Type := Worktree {
  path : string;
  task : option claim
}.

Definition stepToPhase : gmap string string :=
  list_to_map
    [ ("worktree-created", "exploration");
      ("exploration-completed", "planning");
      ("plan-approved", "implementation");
      ("implementation-completed", "pre-review-gates");
      ("deslop-work-completed", "review-loop");
      ("review-approved", "delivery-validation");
      ("delivery-validation-passed", "docs-update");
      ("docs-updated", "ship");
      ("ready-to-ship", "ship") ].

Definition mapStepToPhase (step : string) : looked string :=
  orString (getProperty stepToPhase step) "exploration".

(** [arg] is [None] for [undefined].  [!arg] *)
Definition noArgument (arg : option string) : bool :=
  match arg with
  | Some a => String.eqb a ""
  | None => true
  end.

(** [t.id === arg] *)
Definition idIs (arg : option string) (t : claim) : bool :=
  match arg with
  | Some a => String.eqb (claimId t) a
  | None => false
  end.

(** [t.branch === arg || t.branch.endsWith(arg)]; [endsWith] converts its
    argument to a string, [undefined] to the text "undefined". *)
Definition branchIs (arg : option string) (t : claim) : bool :=
  match arg with
  | Some a => String.eqb (branch t) a || JsString.endsWith (branch t) a
  | None => JsString.endsWith (branch t) "undefined"
  end.

(** [tasks.find(p)] *)
Fixpoint find (p : claim -> bool) (tasks : list claim) : option claim :=
  match tasks with
  | [] => None
  | t :: rest => if p t then Some t else find p rest
  end.

Definition ofClaim (t : claim) : worktree := Worktree (worktreePath t) (Some t).

Definition findWorktreeToResume (d : disk) (arg : option string)
    : outcome (option worktree) :=
  match registry d with
  | Absent => Returned None
  | Malformed => Thrown SyntaxError
  | Document tasks =>
      match noArgument arg, tasks with
      | true, [only] => Returned (Some (ofClaim only))
      | _, _ =>
          match find (idIs arg) tasks with
          | Some byId => Returned (Some (ofClaim byId))
          | None =>
              match find (branchIs arg) tasks with
              | Some byBranch => Returned (Some (ofClaim byBranch))
              | None =>
                  match arg with
                  | Some a =>
                      if negb (String.eqb a "") && pathExists d a
                      then Returned (Some (Worktree a None))
                      else Returned None
                  | None => Returned None
                  end
              end
          end
      end
  end.

(** What the handler does to the world, in order. *)
Inductive effect : Type :=
| LogNoWorktree
| LogNoStatusFile (path : string)
| LogResuming (s : workflowStatus) (wt : worktree) (lastStep : checkpoint)
| Chdir (path : string)
| LogResumePhase (phase : looked string).

(** [steps[steps.length - 1]] *)
Definition lastOf (steps : list checkpoint) : option checkpoint := last steps.

(** The [--resume] branch of the pre-flight: the phase to continue from,
    if any, and the effects performed.  [status.steps.length] and, in the
    template of the first message, [status.task.id], [status.git.branch],
    [lastStep.step] and [status.workflow.lastActivityAt] throw a
    [TypeError] on a missing object, before anything is printed. *)
Definition resume (d : disk) (arg : option string)
    : outcome (option (looked string)) * list effect :=
  match findWorktreeToResume d arg with
  | Thrown e => (Thrown e, [])
  | Returned None => (Returned None, [LogNoWorktree])
  | Returned (Some wt) =>
      match statusFile d (path wt) with
      | Absent => (Returned None, [LogNoStatusFile (path wt)])
      | Malformed => (Thrown SyntaxError, [])
      | Document s =>
          match steps s with
          | None => (Thrown TypeError, [])
          | Some log =>
              match statusTask s, git s, lastOf log, workflow s with
              | Some _, Some _, Some lastStep, Some _ =>
                  let resumePhase := mapStepToPhase (step lastStep) in
                  (Returned (Some resumePhase),
                   [LogResuming s wt lastStep; Chdir (path wt);
                    LogResumePhase resumePhase])
              | _, _, _, _ => (Thrown TypeError, [])
              end
          end
      end
  end.

(** [args[args.indexOf('--resume') + 1]] *)
Fixpoint resumeArgument (args : list string) : option string :=
  match args with
  | [] => None
  | a :: rest =>
      if String.eqb a "--resume" then head rest else resumeArgument rest
  end.

(** The phases in the order the command starts them, then the hand-off. *)
Definition canonicalPhases : list string :=
  [ "policy-selection"; "task-discovery"; "worktree-setup"; "exploration";
    "planning"; "implementation"; "pre-review-gates"; "review-loop";
    "delivery-validation"; "docs-update"; "ship" ].


(** [t] is the first element of [tasks] with the property [P]. *)
Definition firstWith (P : claim -> Prop) (tasks : list claim) (t : claim) : Prop :=
  exists before after,
    tasks = (before ++ t :: after)%list /\ P t /\ Forall (fun x => ~ P x) before.


End Resume.

(** ** Regular expressions

    A pattern is a backtracking matcher in continuation-passing style: it
    consumes a prefix of the text and hands the rest to its continuation; when
    the continuation fails it tries its next way of matching.  The result of a
    whole match is the text of capture group 1 and the text left after the
    match. *)

Module Regex.

Definition result : Type := string * string.
Definition cont : Type := string -> option result.
Definition re : Type := cont -> cont.

(** One character of a class. *)
Definition chr (p : ascii -> bool) : re := fun k s =>
  match s with
  | String c s' => if p c then k s' else None
  | EmptyString => None
  end.

Definition only (x : ascii) : ascii -> bool := Ascii.eqb x.

(** A letter under the [i] flag. *)
Definition isLetter (x : ascii) (c : ascii) : bool :=
  Ascii.eqb c x || ((JsString.code c + 32 =? JsString.code x)%N && JsString.inRange 65 90 c).

Definition seq (a b : re) : re := fun k => a (b k).

Definition eps : re := fun k => k.

(** [a|b] *)
Definition alt (a b : re) : re := fun k s =>
  match a k s with
  | Some r => Some r
  | None => b k s
  end.

(** [a?], greedy. *)
Definition opt (a : re) : re := alt a eps.

(** The letters of a word under the [i] flag. *)
Fixpoint word (w : string) : re :=
  match w with
  | EmptyString => eps
  | String x w' => seq (chr (isLetter x)) (word w')
  end.

(** [[p]+], greedy: as many characters as possible first. *)
Fixpoint plus (p : ascii -> bool) (k : cont) (s : string) : option result :=
  match s with
  | String c s' =>
      if p c then
        match plus p k s' with
        | Some r => Some r
        | None => k s'
        end
      else None
  | EmptyString => None
  end.

(** [([p]+)] as capture group 1, greedy; [seen] is the text captured so
    far and the continuation receives the whole capture. *)
Fixpoint group (p : ascii -> bool) (k : string -> cont) (seen : string)
    (s : string) : option result :=
  match s with
  | String c s' =>
      if p c then
        let seen' := seen ++ String c EmptyString in
        match group p k seen' s' with
        | Some r => Some r
        | None => k seen' s'
        end
      else None
  | EmptyString => None
  end.

(** The end of the pattern. *)
Definition accept (capture : string) : cont := fun s => Some (capture, s).

(** [$] and then the end of the pattern. *)
Definition acceptAtEnd (capture : string) : cont := fun s =>
  match s with
  | EmptyString => Some (capture, s)
  | String _ _ => None
  end.

(** [\b] between the character [prev] before a position and the text
    [s] from it on. *)
Definition wordBoundary (prev : option ascii) (s : string) : bool :=
  xorb (match prev with Some c => JsString.isWordChar c | None => false end)
       (match s with String c _ => JsString.isWordChar c | EmptyString => false end).

(** A pattern tried at one position. *)
Definition pattern : Type := option ascii -> string -> option result.

(** [text.match(pattern)] without the [g] flag: the capture of the leftmost
    match. *)
Fixpoint matchFirst (pat : pattern) (prev : option ascii) (s : string)
    : option string :=
  match pat prev s with
  | Some (capture, _) => Some capture
  | None =>
      match s with
      | EmptyString => None
      | String c s' => matchFirst pat (Some c) s'
      end
  end.

(** [text.matchAll(pattern)] with the [g] flag, for a pattern that matches
    no empty text: the captures of the matches found from left to right,
    each search starting where the previous match ended.  [skip] counts the
    characters of the previous match still to pass. *)
Fixpoint matchAllFrom (pat : pattern) (skip : nat) (prev : option ascii)
    (s : string) : list string :=
  match s with
  | EmptyString => []
  | String c s' =>
      match skip with
      | S n => matchAllFrom pat n (Some c) s'
      | O =>
          match pat prev s with
          | Some (capture, rest) =>
              capture ::
                matchAllFrom pat (String.length s' - String.length rest) (Some c) s'
          | None => matchAllFrom pat 0 (Some c) s'
          end
      end
  end.

Definition matchAll (pat : pattern) (s : string) : list string :=
  matchAllFrom pat 0 None s.

(** For a test [starter prev c] of where a match can start, at a
    character [c] that comes after [prev]: no match can start in [m], which
    comes after [prev]. *)
Fixpoint quiet (starter : option ascii -> ascii -> bool) (prev : option ascii)
    (m : string) : bool :=
  match m with
  | EmptyString => true
  | String c m' => negb (starter prev c) && quiet starter (Some c) m'
  end.

End Regex.

(** ** The discover-tasks skill *)

Module Discover.

Import Regex.

(** The value of [number] or [id] in a task record. *)
Inductive jsval : Type :=
| JUndefined
| JNumber (n : Z)
| JText (s : string).

Definition truthy (v : jsval) : bool :=
  match v with
  | JUndefined => false
  | JNumber n => negb (n =? 0)
  | JText s => negb (String.eqb s "")
  end.

(** [String(v)] *)
Definition toText (v : jsval) : string :=
  match v with
  | JUndefined => "undefined"
  | JNumber n => JsString.ofZ n
  | JText s => s
  end.

(** A label is a string, or an object whose [name] is a non-empty
    string. *)
Inductive label : Type :=
| LabelText (s : string)
| LabelNamed (first : ascii) (rest : string).

(** [l.name || l] *)
Definition labelName (l : label) : string :=
  match l with
  | LabelText s => s
  | LabelNamed c s => String c s
  end.

(** A task record.  [createdAt] is the time [new Date(task.createdAt)]
    denotes, in milliseconds; it is [None] when the field is absent or
    empty, and also when it is text [Date] cannot read (the age is then
    not a number and exceeds nothing). *)
Record task : Type := Task {
  number : jsval;
  id : jsval;
  title : string;
  labels : option (list label);
  createdAt : option Z
}.

(** [{ ...t, score }] *)
Record scored : Type := Scored {
  scoredTask : task;
  score : Z
}.

(** An open pull request as [gh pr list] reports it. *)
Record pullRequest : Type := PullRequest {
  headRefName : option string;
  body : option string;
  prTitle : option string
}.

(** *** Phase 2.5: issues linked to an open pull request *)

(** The branch pattern: [-], digits as group 1, end of text. *)
Definition branchPattern : pattern := fun _ =>
  chr (only "-") (group JsString.isDigit acceptAtEnd "").

Definition isSD (c : ascii) : bool := isLetter "s" c || isLetter "d" c.

(** The closing keywords: close, closes, closed, fix, fixes, fixed,
    resolve, resolves, resolved. *)
Definition keyword : re :=
  alt (seq (word "close") (opt (chr isSD)))
    (alt (seq (word "fix") (opt (seq (word "e") (chr isSD))))
       (seq (word "resolve") (opt (chr isSD)))).

(** What follows the keyword in the body pattern: white space, [#],
    digits as group 1. *)
Definition afterKeyword : cont :=
  plus JsString.isSpace (chr (only "#") (group JsString.isDigit accept "")).

(** The body pattern, under the flags [g] and [i]: a word boundary, a
    keyword, and what follows it. *)
Definition bodyPattern : pattern := fun prev s =>
  if wordBoundary prev s then keyword afterKeyword s else None.

(** The title pattern, under the flag [g]: an opening parenthesis, [#],
    digits as group 1, a closing parenthesis. *)
Definition titlePattern : pattern := fun _ =>
  chr (only "(") (chr (only "#")
    (group JsString.isDigit (fun capture => chr (only ")") (accept capture)) "")).

Definition addAll (ids : list string) (set : gset string) : gset string :=
  foldl (fun acc d => {[ d ]} ∪ acc) set ids.

(** The body of the loop over the pull requests. *)
Definition addLinked (set : gset string) (pr : pullRequest) : gset string :=
  let set1 :=
    match matchFirst branchPattern None (default "" (headRefName pr)) with
    | Some d => {[ d ]} ∪ set
    | None => set
    end in
  let set2 :=
    match body pr with
    | Some b => if String.eqb b "" then set1 else addAll (matchAll bodyPattern b) set1
    | None => set1
    end in
  addAll (matchAll titlePattern (default "" (prTitle pr))) set2.

(** The set built from [/tmp/gh-prs.json]; reading or parsing that throws
    is caught and leaves the empty set. *)
Definition prLinkedIssues (prs : file (list pullRequest)) : gset string :=
  match prs with
  | Document l => foldl addLinked ∅ l
  | Absent | Malformed => ∅
  end.

(** *** What the link heuristics speak of *)

(** A non-empty text of decimal digits. *)
Definition isId (d : string) : Prop :=
  d <> "" /\ JsString.all JsString.isDigit d = true.

Definition closingKeywords : list string :=
  [ "close"; "closes"; "closed"; "fix"; "fixes"; "fixed";
    "resolve"; "resolves"; "resolved" ].

(** [s] does not start with a character of the class [p]. *)
Definition startsOutside (p : ascii -> bool) (s : string) : Prop :=
  match s with
  | String c _ => p c = false
  | EmptyString => True
  end.

(** The last character of [s], or [prev] when [s] is empty. *)
Fixpoint lastChar (prev : option ascii) (s : string) : option ascii :=
  match s with
  | EmptyString => prev
  | String c s' => lastChar (Some c) s'
  end.

(** No word character stands at the end of [pre]. *)
Definition endsOutsideWord (pre : string) : Prop :=
  match lastChar None pre with
  | Some c => JsString.isWordChar c = false
  | None => True
  end.

(** The branch of [pr] ends in [-d]. *)
Definition branchEndsIn (pr : pullRequest) (d : string) : Prop :=
  exists b pre, headRefName pr = Some b /\ b = pre ++ "-" ++ d /\ isId d.

(** The body of [pr] has, at a word boundary, a closing keyword in any
    case, white space, and [#d] with no further digit after it. *)
Definition bodyCloses (pr : pullRequest) (d : string) : Prop :=
  exists b pre kw ws post,
    body pr = Some b /\ b = pre ++ kw ++ ws ++ "#" ++ d ++ post /\
    endsOutsideWord pre /\
    In (JsString.toLowerCase kw) closingKeywords /\
    ws <> "" /\ JsString.all JsString.isSpace ws = true /\
    isId d /\ startsOutside JsString.isDigit post.

(** The title of [pr] contains [(#d)]. *)
Definition titleMentions (pr : pullRequest) (d : string) : Prop :=
  exists t pre post,
    prTitle pr = Some t /\ t = pre ++ "(#" ++ d ++ ")" ++ post /\ isId d.

(** *** Where a match can start *)

(** The letters of the closing keywords. *)
Definition keywordLetters : string := "closedfixrv".

Definition isKeywordLetter (x : ascii) : bool :=
  JsString.includes keywordLetters (String x "").

(** A match of the title pattern starts at an opening parenthesis. *)
Definition titleStarter (_ : option ascii) (c : ascii) : bool := only "(" c.

Definition isWordBefore (prev : option ascii) : bool :=
  match prev with
  | Some c => JsString.isWordChar c
  | None => false
  end.

Definition startsKeyword (c : ascii) : bool :=
  isLetter "c" c || isLetter "f" c || isLetter "r" c.

(** A match of the body pattern starts at a c, f or r that no word
    character precedes. *)
Definition bodyStarter (prev : option ascii) (c : ascii) : bool :=
  negb (isWordBefore prev) && startsKeyword c.

(** *** Phase 3: filter and score *)

(** [String(t.number || t.id)] *)
Definition taskKey (t : task) : string :=
  toText (if truthy (number t) then number t else id t).

(** [new Set(claimedTasks.map(t => t.id))] for the claims of the
    registry. *)
Definition claimedIdsOf (claimedTasks : list Resume.claim) : gset string :=
  list_to_set (map Resume.claimId claimedTasks).

(** A [filter] callback that keeps the tasks whose key is not in [set]. *)
Definition notIn (set : gset string) (t : task) : bool :=
  negb (bool_decide (taskKey t ∈ set)).

Definition LABEL_MAPS : gmap string (list string) :=
  list_to_map
    [ ("bugs", ["bug"; "fix"; "error"; "defect"]);
      ("security", ["security"; "vulnerability"; "cve"]);
      ("features", ["enhancement"; "feature"; "improvement"]) ].

(** [(t.labels || []).map(l => (l.name || l).toLowerCase())] *)
Definition lowerLabels (t : task) : list string :=
  map (fun l => JsString.toLowerCase (labelName l)) (default [] (labels t)).

(** [xs.some(p)] *)
Definition some {A} (p : A -> bool) (xs : list A) : bool := existsb p xs.

Definition matchesTargets (targetLabels : list string) (t : task) : bool :=
  let labels := lowerLabels t in
  some (fun target => some (fun l => JsString.includes l target) labels) targetLabels.

(** When [filter] names a property inherited from [Object.prototype],
    [targetLabels] is not an array and the first call of the callback
    throws. *)
Definition filterByPriority (tasks : list task) (filter : string)
    : outcome (list task) :=
  if String.eqb filter "continue" || String.eqb filter "all" then Returned tasks
  else
    match getProperty LABEL_MAPS filter with
    | Own targetLabels => Returned (List.filter (matchesTargets targetLabels) tasks)
    | Undefined => Returned (List.filter (matchesTargets []) tasks)
    | Inherited _ =>
        match tasks with
        | [] => Returned []
        | _ :: _ => Thrown TypeError
        end
    end.

(** [(now - created) / 86400000], as an exact quotient; for times that are
    integers below 2^53 the double the program computes lies on the same
    side of 30. *)
Definition ageInDays (now created : Z) : Q :=
  (inject_Z (now - created) / inject_Z 86400000)%Q.

(** [a > b] *)
Definition exceeds (a b : Q) : bool := negb (Qle_bool a b).

(** [scoreTask(task)], where [now] is what [Date.now()] returns. *)
Definition scoreTask (now : Z) (t : task) : Z :=
  let score := 0 in
  let labels := lowerLabels t in
  let score :=
    if some (fun l => JsString.includes l "critical" || JsString.includes l "p0") labels
    then score + 100 else score in
  let score :=
    if some (fun l => JsString.includes l "high" || JsString.includes l "p1") labels
    then score + 50 else score in
  let score :=
    if some (fun l => JsString.includes l "security") labels
    then score + 40 else score in
  let score :=
    if some (fun l => JsString.includes l "small" || JsString.includes l "quick") labels
    then score + 20 else score in
  let score :=
    match createdAt t with
    | Some created =>
        if some (String.eqb "bug") labels && exceeds (ageInDays now created) 30
        then score + 10 else score
    | None => score
    end in
  score.

(** [xs.sort(cmp)]: the stable sort of [xs] by [cmp], computed by
    insertion from the right, so that an element stays in front of the
    later elements it does not have to follow. *)
Fixpoint insertSorted {A} (cmp : A -> A -> Z) (x : A) (sorted : list A) : list A :=
  match sorted with
  | [] => [x]
  | y :: ys => if 0 <? cmp x y then y :: insertSorted cmp x ys else x :: sorted
  end.

Definition sort {A} (cmp : A -> A -> Z) (xs : list A) : list A :=
  foldr (insertSorted cmp) [] xs.

(** [(a, b) => b.score - a.score] *)
Definition byScore (a b : scored) : Z := score b - score a.

Definition withScore (now : Z) (t : task) : scored := Scored t (scoreTask now t).

(** Phase 3 as a whole: the tasks left after the three filters, scored and
    sorted.  The message printed for each task skipped is left out. *)
Definition topTasks (now : Z) (tasks : list task)
    (claimedIds prLinked : gset string) (filter : string)
    : outcome (list scored) :=
  let available := List.filter (notIn claimedIds) tasks in
  let filtered := List.filter (notIn prLinked) available in
  prioritized ← filterByPriority filtered filter;
  mret (sort byScore (map (withScore now) prioritized)).

(** [topTasks.slice(0, 5)], the tasks offered to the user. *)
Definition ranked (now : Z) (tasks : list task)
    (claimedIds prLinked : gset string) (filter : string)
    : outcome (list scored) :=
  top ← topTasks now tasks claimedIds prLinked filter;
  mret (take 5 top).

(** *** What the scoring rules speak of *)

(** Some label of [t], in lower case, contains [word]. *)
Definition hasLabelWith (t : task) (word : string) : Prop :=
  exists l, In l (lowerLabels t) /\ exists pre post, l = pre ++ word ++ post.

(** [t] carries the label "bug". *)
Definition bugLabeled (t : task) : Prop := In "bug" (lowerLabels t).

(** [t] has a creation time, more than [days] days before [now]. *)
Definition olderThan (days : Z) (now : Z) (t : task) : Prop :=
  exists created, createdAt t = Some created /\ days * 86400000 < now - created.

(** [n] points when [P] holds. *)
Definition points (n : Z) (P : Prop) `{Decision P} : Z :=
  if decide P then n else 0.

(** The scenario of the specification: a bug report created forty days
    ago and a critical task. *)
Definition oldBug (now : Z) : task :=
  Task JUndefined (JNumber 1) "" (Some [LabelText "bug"])
    (Some (now - 40 * 86400000)).

Definition critical : task :=
  Task JUndefined (JNumber 2) "" (Some [LabelText "critical"]) None.

(** *** What the ranking speaks of *)

(** The elements of a list, each with its position counted from [n]. *)
Fixpoint indexedFrom {A} (n : nat) (l : list A) : list (nat * A) :=
  match l with
  | [] => []
  | x :: l' => (n, x) :: indexedFrom (S n) l'
  end.

(** The task at position [i] of the candidates is ranked before the one
    at position [j]: its score is higher, or the scores are equal and it
    comes first. *)
Definition rankedBefore (now : Z) (tasks : list task) (i j : nat) : Prop :=
  exists a b,
    tasks !! i = Some a /\ tasks !! j = Some b /\
    (scoreTask now b < scoreTask now a \/
     (scoreTask now a = scoreTask now b /\ (i < j)%nat)).

End Discover.

(** ** The discover-tasks skill: presenting and recording the choice *)

Module Present.

Import Discover.

(** [`#${num}: `] *)
Definition labelPrefix (num : jsval) : string := "#" ++ toText num ++ ": ".

(** [truncateLabel(num, title)]; [substring] takes a negative end for 0. *)
Definition truncateLabel (num : jsval) (title : string) : string :=
  let prefix := labelPrefix num in
  let maxLen := 30 - Z.of_nat (String.length prefix) in
  if maxLen <? Z.of_nat (String.length title)
  then prefix ++ JsString.take (Z.to_nat (maxLen - 1)) title ++ "..."
  else prefix ++ title.

(** An entry of [options]. *)
Record choice : Type := Choice {
  choiceLabel : string;
  choiceDescription : string
}.

(** [String(l)] for an element of [labels], as [join] converts it. *)
Definition elementText (l : label) : string :=
  match l with
  | LabelText s => s
  | LabelNamed _ _ => "[object Object]"
  end.

(** [`Score: ${task.score} | ${(task.labels || []).slice(0, 2).join(', ')}`] *)
Definition describe (s : scored) : string :=
  "Score: " ++ JsString.ofZ (score s) ++ " | "
  ++ String.concat ", " (map elementText (take 2 (default [] (labels (scoredTask s))))).

(** [topTasks.slice(0, 5).map(...)] *)
Definition options (topTasks : list scored) : list choice :=
  map (fun s => Choice (truncateLabel (number (scoredTask s)) (title (scoredTask s)))
                  (describe s))
    (take 5 topTasks).

(** The [task] object that Phase 5 writes to the workflow state, for the
    selected task, its [body] and its [url]. *)
Record stateTask : Type := StateTask {
  stateId : string;
  stateSource : Policy.taskSource;
  stateTitle : string;
  stateDescription : string;
  stateLabels : list string;
  stateUrl : option string
}.

Definition selectedState (taskSource : Policy.taskSource) (selectedTask : task)
    (body url : option string) : stateTask :=
  StateTask
    (toText (number selectedTask))
    taskSource
    (title selectedTask)
    (default "" body)
    (map labelName (default [] (labels selectedTask)))
    url.

End Present.

(** ** Decimal text *)

(** The loop of [JsString.toZ], from the value [acc] read so far. *)
Fixpoint valueFrom (acc : Z) (s : string) : Z :=
  match s with
  | EmptyString => acc
  | String c s' => valueFrom (10 * acc + (Z.of_N (JsString.code c) - 48)) s'
  end.

(** ** What the priority filter speaks of *)

(** [t] passes the priority filter [filter]: the filter is "continue" or
    "all", or some label of [t] contains one of the filter's keywords. *)
Definition passesPriority (filter : string) (t : Discover.task) : Prop :=
  filter = "continue" \/ filter = "all" \/
  exists targets target,
    Discover.LABEL_MAPS !! filter = Some targets /\ In target targets /\
    Discover.hasLabelWith t target.







(** ** The command's pre-flight and step recording *)

Module Command.

(** [s.split(sep)] for a separator of one character. *)
Fixpoint split (sep : ascii) (s : string) : list string :=
  match s with
  | EmptyString => [EmptyString]
  | String c s' =>
      if Ascii.eqb c sep then EmptyString :: split sep s'
      else
        match split sep s' with
        | first :: rest => String c first :: rest
        | [] => [String c EmptyString]
        end
  end.

(** [text.split(' ').filter(Boolean)], [text] being what the command was
    called with. *)
Definition arguments (text : string) : list string :=
  List.filter (fun a => negb (String.eqb a "")) (split " " text).

(** The text [a] has no space in it. *)
Definition spaceFree (a : string) : Prop :=
  JsString.all (fun c => negb (Ascii.eqb c " ")) a = true.

(** [words.join(' ')]: a command line for the given words. *)
Fixpoint joinWords (words : list string) : string :=
  match words with
  | [] => ""
  | [w] => w
  | w :: rest => w ++ " " ++ joinWords rest
  end.

(** [args.includes(flag)] *)
Definition hasFlag (args : list string) (flag : string) : bool :=
  existsb (String.eqb flag) args.

(** What the pre-flight decides to do. *)
Inductive action : Type :=
| ShowStatus
| AbortWorkflow
| ResumeFrom (resumeArg : option string)
| StartWorkflow.

Definition preflight (args : list string) : action :=
  if hasFlag args "--status" then ShowStatus
  else if hasFlag args "--abort" then AbortWorkflow
  else if hasFlag args "--resume" then ResumeFrom (Resume.resumeArgument args)
  else StartWorkflow.

Section Recording.

(** The values that an agent records as the result of a step. *)
Variable R : Type.

(** The [n]-th reading of the clock, [new Date().toISOString()]. *)
Variable clock : nat -> string.

(** An entry of [steps] as [recordStep] writes it. *)
Record stepEntry : Type := StepEntry {
  step : string;
  status : string;
  startedAt : string;
  completedAt : option string;
  result : option R
}.

(** [state.workflow] with the two properties that [recordStep] sets. *)
Record workflowState : Type := WorkflowState {
  lastActivityAt : option string;
  currentPhase : option string
}.

(** [state.resume] with the property that [recordStep] sets. *)
Record resumeState : Type := ResumeState {
  resumeFromStep : option string
}.

(** A worktree's [.claude/workflow-status.json] once parsed: a JSON object
    in which [steps], where present, is an array of step objects, and
    [task], [git], [workflow] and [resume], where present, are objects.
    [None] is a property that is missing or [null]. *)
Record statusDocument : Type := StatusDocument {
  steps : option (list stepEntry);
  task : option Resume.taskInfo;
  git : option Resume.gitInfo;
  workflow : option workflowState;
  resume : option resumeState
}.

(** The status file of each directory, and how often the clock was read. *)
Record world : Type := World {
  statusFiles : string -> file statusDocument;
  clockReads : nat
}.

(** [recordStep(stepName, status, result)] called in the directory [dir].
    Nothing is written unless the call reaches its last statement:
    [state.steps.push], the assignments to [state.workflow] and the one to
    [state.resume] throw a [TypeError] when the object is missing. *)
Definition recordStep (dir stepName status : string) (result : option R)
    (w : world) : outcome world :=
  match statusFiles w dir with
  | Absent =>
      Thrown (Error
        "ENOENT: no such file or directory, open '.claude/workflow-status.json'")
  | Malformed => Thrown SyntaxError
  | Document state =>
      match steps state, workflow state, resume state with
      | Some log, Some _, Some _ =>
          let t := clockReads w in
          let completed := String.eqb status "completed" in
          let t' := if completed then S (S t) else S t in
          let entry :=
            StepEntry stepName status (clock t)
              (if completed then Some (clock (S t)) else None) result in
          let state' :=
            StatusDocument (Some (log ++ [entry])%list) (task state)
              (git state)
              (Some (WorkflowState (Some (clock t')) (Some stepName)))
              (Some (ResumeState (Some stepName))) in
          Returned
            (World (fun p => if String.eqb p dir then Document state'
                             else statusFiles w p)
               (S t'))
      | _, _, _ => Thrown TypeError
      end
  end.

(** One successful call of [recordStep], in any directory. *)
Inductive recorded (w w' : world) : Prop :=
| recorded_call (dir stepName status : string) (result : option R) :
    recordStep dir stepName status result w = Returned w' -> recorded w w'.

(** What the [--resume] handler reads of a status file. *)
Definition checkpointOf (e : stepEntry) : Resume.checkpoint :=
  Resume.Checkpoint (step e) (status e).

Definition statusOf (s : statusDocument) : Resume.workflowStatus :=
  Resume.WorkflowStatus
    (match steps s with
     | Some log => Some (map checkpointOf log)
     | None => None
     end)
    (task s) (git s)
    (match workflow s with
     | Some wf => Some (Resume.WorkflowInfo (lastActivityAt wf))
     | None => None
     end).

Definition diskOf (registry : file (list Resume.claim))
    (pathExists : string -> bool) (w : world) : Resume.disk :=
  Resume.Disk registry pathExists
    (fun p => match statusFiles w p with
              | Absent => Absent
              | Malformed => Malformed
              | Document s => Document (statusOf s)
              end).

End Recording.

Arguments StepEntry {R} _ _ _ _ _.
Arguments step {R} _.
Arguments status {R} _.
Arguments startedAt {R} _.
Arguments completedAt {R} _.
Arguments result {R} _.
Arguments StatusDocument {R} _ _ _ _ _.
Arguments steps {R} _.
Arguments task {R} _.
Arguments git {R} _.
Arguments workflow {R} _.
Arguments resume {R} _.
Arguments World {R} _ _.
Arguments statusFiles {R} _ _.
Arguments clockReads {R} _.
Arguments recordStep {R} clock dir stepName status result w.
Arguments recorded {R} clock w w'.
Arguments checkpointOf {R} e.
Arguments statusOf {R} s.
Arguments diskOf {R} registry pathExists w.

End Command.

(** ** next-task/agents/deslop-work.md *)

Module Deslop.

(** [file.split('.').pop()] *)
Definition extension (file : string) : string :=
  default "" (last (Command.split "." file)).

Definition languageMap : gmap string string :=
  list_to_map
    [ ("js", "javascript"); ("ts", "javascript"); ("jsx", "javascript");
      ("tsx", "javascript"); ("mjs", "javascript"); ("cjs", "javascript");
      ("py", "python"); ("rs", "rust"); ("go", "go"); ("rb", "ruby");
      ("java", "java"); ("kt", "kotlin"); ("swift", "swift"); ("cpp", "cpp");
      ("c", "c"); ("cs", "csharp") ].

(** [map[ext] || null]; [None] is [null]. *)
Definition getLanguageFromExtension (ext : string) : option (looked string) :=
  match getProperty languageMap ext with
  | Own v => if String.eqb v "" then None else Some (Value v)
  | Inherited k => Some (Builtin k)
  | Undefined => None
  end.

(** An issue, as Phase 3 records it and [createFixList] reads it;
    [replacement] is [None] where the property is missing. *)
Record issue : Type := Issue {
  issueFile : string;
  line : nat;
  patternName : string;
  severity : string;
  description : string;
  autoFix : Discover.jsval;
  content : string;
  replacement : option string
}.

Record fixEntry : Type := Fix {
  fixFile : string;
  fixLine : nat;
  action : string;
  old : option string;
  new : option string;
  reason : string
}.

Record fixList : Type := FixList {
  fixes : list fixEntry;
  commitMessage : string
}.

(** The fix that one issue adds, if any: the body of the loop. *)
Definition fixOf (i : issue) : option fixEntry :=
  if negb (Discover.truthy (autoFix i)) then None
  else
    match autoFix i with
    | Discover.JText kind =>
        if String.eqb kind "remove" then
          Some (Fix (issueFile i) (line i) "remove-line" None None (description i))
        else if String.eqb kind "replace" then
          Some (Fix (issueFile i) (line i) "replace" (Some (content i))
                  (Some (default "" (replacement i))) (description i))
        else None
    | _ => None
    end.

Definition createFixList (issues : list issue) : fixList :=
  FixList (omap fixOf issues)
    "fix: clean up AI slop (debug statements, TODOs, etc.)".

Section Analysis.

(** The pattern library [lib/patterns/slop-patterns.js]: its regular
    expressions and exclusion lists, the patterns of a language in the
    order of [Object.entries], and the two tests.  The file contents are
    those that [readFile] gives. *)
Variables regex exclusions : Type.

Record slopPattern : Type := SlopPattern {
  pattern : option regex;
  exclude : exclusions;
  patternSeverity : string;
  patternDescription : string;
  patternAutoFix : Discover.jsval
}.

Variable getPatternsForLanguage :
  option (looked string) -> list (string * slopPattern).
Variable isFileExcluded : string -> exclusions -> bool.
Variable test : regex -> string -> bool.
Variable readFile : string -> string.

(** [pattern.pattern && pattern.pattern.test(line)] *)
Definition matches (p : slopPattern) (text : string) : bool :=
  match pattern p with
  | Some re => test re text
  | None => false
  end.

(** The issue recorded for the line [text] at the index [idx]. *)
Definition issueAt (path name : string) (p : slopPattern) (idx : nat)
    (text : string) : issue :=
  Issue path (idx + 1) name (patternSeverity p) (patternDescription p)
    (patternAutoFix p) (JsString.take 100 (JsString.trim text)) None.

(** [lines.forEach((line, idx) => ...)], from the index [idx] on. *)
Fixpoint scan (name : string) (p : slopPattern) (path : string) (idx : nat)
    (lines : list string) : list issue :=
  match lines with
  | [] => []
  | text :: rest =>
      (if matches p text then [issueAt path name p idx text] else [])
      ++ scan name p path (S idx) rest
  end.

(** The body of the loop over the changed files. *)
Definition analyzeFile (path : string) : list issue :=
  let ext := extension path in
  let language := getLanguageFromExtension ext in
  let patterns := getPatternsForLanguage language in
  let lines := Command.split "010" (readFile path) in
  flat_map
    (fun entry : string * slopPattern =>
       if isFileExcluded path (exclude entry.2) then []
       else scan entry.1 entry.2 path 0 lines)
    patterns.

Definition analyze (changedFiles : list string) : list issue :=
  flat_map analyzeFile changedFiles.

End Analysis.

Arguments SlopPattern {regex exclusions} _ _ _ _ _.
Arguments pattern {regex exclusions} _.
Arguments exclude {regex exclusions} _.
Arguments patternSeverity {regex exclusions} _.
Arguments patternDescription {regex exclusions} _.
Arguments patternAutoFix {regex exclusions} _.
Arguments matches {regex exclusions} test p text.
Arguments issueAt {regex exclusions} path name p idx text.
Arguments scan {regex exclusions} test name p path idx lines.
Arguments analyzeFile {regex exclusions} _ _ _ _ path.
Arguments analyze {regex exclusions} _ _ _ _ changedFiles.

End Deslop.

Module DeslopExamples.

Import Deslop.

(** A library with one pattern for JavaScript: a line that contains
    [console.log] is to be removed. *)
Definition consoleLog : slopPattern string unit :=
  SlopPattern (Some "console.log") tt "medium"
    "Console.log statements left in production code" (Discover.JText "remove").

Definition library (language : option (looked string))
    : list (string * slopPattern string unit) :=
  match language with
  | Some (Value "javascript") => [("console_debugging", consoleLog)]
  | _ => []
  end.

Definition sources (path : string) : string :=
  "const a = 1;" ++ String "010" "  console.log(a);".

End DeslopExamples.



(** ** lib/sources/policy-questions.js: the questions *)

Module Questions.

(** The text of a label, in UTF-16 code units: a label can hold
    characters that the strings of the answers above do not. *)
Definition text : Type := list N.

Definition units (s : string) : text :=
  map JsString.code (list_ascii_of_string s).

(** The three code units that the source has between the quotes where an
    ellipsis is meant: U+00E2, U+20AC, U+00A6. *)
Definition ellipsis : text := [226; 8364; 166]%N.

Definition SOURCE_LABELS : gmap string string :=
  list_to_map
    [ ("github", "GitHub"); ("gh-projects", "GitHub Projects");
      ("gitlab", "GitLab"); ("local", "Local"); ("custom", "Custom");
      ("other", "Other") ].

(** [c.toUpperCase()] for one character. *)
Definition toUpperCase (c : ascii) : text :=
  let n := JsString.code c in
  if JsString.inRange 97 122 c then [n - 32]%N
  else if (n =? 181)%N then [924]%N
  else if (n =? 223)%N then [83; 83]%N
  else if JsString.inRange 224 254 c && negb (n =? 247)%N then [n - 32]%N
  else if (n =? 255)%N then [376]%N
  else [n].

(** [s.charAt(0).toUpperCase() + s.slice(1)] *)
Definition capitalize (s : string) : text :=
  match s with
  | EmptyString => []
  | String c rest => (toUpperCase c ++ units rest)%list
  end.

(** The value of [cachedLabel]: a string, or a built-in reached through
    the prototype of [SOURCE_LABELS]. *)
Inductive labelValue : Type :=
| LabelString (t : text)
| LabelBuiltin (key : string).

(** A property in a template: the text "undefined" when it is missing. *)
Definition shown (v : option string) : text := units (default "undefined" v).

Definition cachedLabel (cached : Policy.sourceConfig) : labelValue :=
  if String.eqb (Policy.source cached) "custom" then
    LabelString
      (shown (Policy.tool cached) ++ units " (" ++
       shown (Policy.toolType cached) ++ units ")")%list
  else
    match getProperty SOURCE_LABELS (Policy.source cached) with
    | Own v =>
        LabelString
          (if String.eqb v "" then capitalize (Policy.source cached)
           else units v)
    | Inherited key => LabelBuiltin key
    | Undefined => LabelString (capitalize (Policy.source cached))
    end.

Record choice : Type := Choice {
  label : text;
  description : text
}.

Record question : Type := Question {
  header : string;
  questionText : string;
  options : list choice;
  multiSelect : bool
}.

(** [30 - ' (last used)'.length] *)
Definition maxBaseLen : nat := 30 - String.length " (last used)".

Definition standardSources : list (string * string) :=
  [ ("GitHub Issues", "Use gh CLI to list issues");
    ("GitHub Projects", "Issues from a GitHub Project board");
    ("GitLab Issues", "Use glab CLI to list issues");
    ("Local tasks.md", "Read from PLAN.md, tasks.md, or TODO.md");
    ("Custom", "Specify your tool: CLI, MCP, Skill, or file path");
    ("Other", "Describe your source - agent figures it out") ].

Definition priorities : list (string * string) :=
  [ ("All", "Consider all tasks, pick by score");
    ("Bugs", "Focus on bug fixes");
    ("Security", "Security issues first");
    ("Features", "New feature development") ].

Definition stopPoints : list (string * string) :=
  [ ("Merged", "Until PR is merged to main");
    ("PR Created", "Stop after creating PR");
    ("Implemented", "Stop after local implementation");
    ("Deployed", "Deploy to staging");
    ("Production", "Full production deployment") ].

Definition plain (entry : string * string) : choice :=
  Choice (units entry.1) (units entry.2).

Section WithBuiltins.

(** [String(f)] for the built-in [f] that a key of [Object.prototype]
    names.  The [length] of none of them exceeds 18: they are functions of
    at most two parameters, and an object without [length]. *)
Variable builtinText : string -> text.

Definition rendered (l : labelValue) : text :=
  match l with
  | LabelString t => t
  | LabelBuiltin key => builtinText key
  end.

Definition truncatedLabel (l : labelValue) : text :=
  match l with
  | LabelString t =>
      if (maxBaseLen <? List.length t)%nat
      then (take (maxBaseLen - 1) t ++ ellipsis)%list
      else t
  | LabelBuiltin key => builtinText key
  end.

Definition cachedOption (cached : Policy.sourceConfig) : choice :=
  Choice (truncatedLabel (cachedLabel cached) ++ units " (last used)")%list
    (units "Use your previous choice: " ++ rendered (cachedLabel cached))%list.

Definition sourceOptions (cached : option Policy.sourceConfig) : list choice :=
  (match cached with
   | Some c => [cachedOption c]
   | None => []
   end ++ map plain standardSources)%list.

Definition getPolicyQuestions (cached : option Policy.sourceConfig)
    : list question * option Policy.sourceConfig :=
  ([ Question "Source" "Where should I look for tasks?"
       (sourceOptions cached) false;
     Question "Priority" "What type of tasks to prioritize?"
       (map plain priorities) false;
     Question "Stop Point" "How far should I take this task?"
       (map plain stopPoints) false ],
   cached).

End WithBuiltins.

End Questions.





(** ** Example data *)

Module Examples.

Import Resume.

Definition claimA : claim :=
  Claim "101" "feature/login-101" "../worktrees/login-101".

Definition claimB : claim :=
  Claim "102" "fix/crash-102" "../worktrees/crash-102".

(** A log that records the docs update before the worktree. *)
Definition outOfOrder : list checkpoint :=
  [ Checkpoint "docs-updated" "completed";
    Checkpoint "worktree-created" "completed" ].

Definition statusA : workflowStatus :=
  WorkflowStatus (Some outOfOrder)
    (Some (TaskInfo (Some "101") (Some "Login")))
    (Some (GitInfo (Some "feature/login-101")))
    (Some (WorkflowInfo (Some "2026-01-01T00:00:00.000Z"))).

(** Two active claims; the worktree of the first holds [statusA]. *)
Definition twoClaims : disk :=
  Disk (Document [claimA; claimB]) (fun _ => false)
    (fun p => if String.eqb p "../worktrees/login-101"
              then Document statusA else Absent).

(** No registry file, and a directory at [../worktrees/x]. *)
Definition noRegistry : disk :=
  Disk Absent (fun p => String.eqb p "../worktrees/x") (fun _ => Absent).

End Examples.

Module CommandExamples.

Import Command.

Definition clock (n : nat) : string :=
  "2026-01-01T00:00:0" ++ JsString.ofZ (Z.of_nat n) ++ ".000Z".

Definition emptyLog : statusDocument unit :=
  StatusDocument (Some [])
    (Some (Resume.TaskInfo (Some "101") (Some "Login")))
    (Some (Resume.GitInfo (Some "feature/login-101")))
    (Some (WorkflowState None None)) (Some (ResumeState None)).

(** The worktree of [Examples.claimA] with an empty log. *)
Definition started : world unit :=
  World (fun p => if String.eqb p "../worktrees/login-101"
                  then Document emptyLog else Absent) 0.

(** [started] after [recordStep('plan-approved', 'failed')]. *)
Definition afterFailedPlan : world unit :=
  World
    (fun p =>
       if String.eqb p "../worktrees/login-101"
       then Document
              (StatusDocument
                 (Some [StepEntry "plan-approved" "failed" (clock 0) None None])
                 (Some (Resume.TaskInfo (Some "101") (Some "Login")))
                 (Some (Resume.GitInfo (Some "feature/login-101")))
                 (Some (WorkflowState (Some (clock 1)) (Some "plan-approved")))
                 (Some (ResumeState (Some "plan-approved"))))
       else statusFiles started p)
    2.

End CommandExamples.

Module DiscoverExamples.

Import Discover.

Definition labelled (n : Z) (names : list string) : task :=
  Task (JNumber n) JUndefined "" (Some (map LabelText names)) None.

(** Seven candidates, two more than are offered. *)
Definition sevenTasks : list task :=
  [ labelled 1 ["critical"]; labelled 2 ["high"]; labelled 3 ["security"];
    labelled 4 ["small"]; labelled 5 []; labelled 6 ["critical"; "p1"];
    labelled 7 ["quick"] ].

(** [sevenTasks] scored and sorted. *)
Definition sevenRanked : list scored :=
  [ Scored (labelled 6 ["critical"; "p1"]) 150;
    Scored (labelled 1 ["critical"]) 100;
    Scored (labelled 2 ["high"]) 50;
    Scored (labelled 3 ["security"]) 40;
    Scored (labelled 4 ["small"]) 20;
    Scored (labelled 7 ["quick"]) 20;
    Scored (labelled 5 []) 0 ].

End DiscoverExamples.

(** * Properties *)

(** ** The code on small inputs *)

Section Evaluation.

Import Policy Resume Regex Discover.

Example ofZ_issue_number : JsString.ofZ 1024 = "1024".
Proof. reflexivity. Qed.

Example trim_project_number : JsString.trim " 42	" = "42".
Proof. reflexivity. Qed.

Example mapStopPoint_known : mapStopPoint "PR Created" = Value "pr-created".
Proof. reflexivity. Qed.

Example mapPriority_lower_case_is_unknown : mapPriority "bugs" = Value "all".
Proof. reflexivity. Qed.

Example mapStepToPhase_known : mapStepToPhase "review-approved" = Value "delivery-validation".
Proof. reflexivity. Qed.

Example resumeArgument_after_flag :
  resumeArgument ["--implement"; "--resume"; "123"] = Some "123".
Proof. reflexivity. Qed.

Example branch_suffix : matchFirst branchPattern None "fix/some-thing-123" = Some "123".
Proof. reflexivity. Qed.

Example branch_release : matchFirst branchPattern None "release-2026" = Some "2026".
Proof. reflexivity. Qed.

Example branch_without_number : matchFirst branchPattern None "task-12-wip" = None.
Proof. reflexivity. Qed.

Example body_keywords :
  matchAll bodyPattern "Fixes #12, closes  #3; prefix #9, fix#1 and RESOLVED #77."
  = ["12"; "3"; "77"].
Proof. reflexivity. Qed.

Example title_references : matchAll titlePattern "feat: x (#12) y (#a) (#34)" = ["12"; "34"].
Proof. reflexivity. Qed.

Example sort_is_stable :
  sort (fun a b : Z * string => b.1 - a.1)
    [(1, "a"); (3, "b"); (1, "c"); (3, "d"); (2, "e")]
  = [(3, "b"); (3, "d"); (2, "e"); (1, "a"); (1, "c")].
Proof. reflexivity. Qed.

Example score_critical_security :
  scoreTask 0 (Task (JNumber 7) JUndefined "" (Some [LabelNamed "P" "0"; LabelText "Security"]) None)
  = 140.
Proof. reflexivity. Qed.

End Evaluation.

(** ** Strings *)

Section StringFacts.

Import JsString.

Lemma append_nil_l (s : string) : "" ++ s = s.
Proof. reflexivity. Qed.

Lemma append_cons (c : ascii) (a b : string) :
  String c a ++ b = String c (a ++ b).
Proof. reflexivity. Qed.

Lemma append_nil_r (s : string) : s ++ "" = s.
Proof. induction s as [|c s IH]; [done | by rewrite append_cons, IH]. Qed.

Lemma append_assoc (a b c : string) : (a ++ b) ++ c = a ++ (b ++ c).
Proof.
  induction a as [|x a IH]; [done | by rewrite !append_cons, IH].
Qed.

Lemma startsWith_spec (s p : string) :
  startsWith s p = true <-> exists post, s = p ++ post.
Proof.
  revert s. induction p as [|a p IH]; intros s; simpl.
  - split; [intros _; exists s; reflexivity | done].
  - destruct s as [|b s].
    + split; [done | intros [post H]; discriminate].
    + setoid_rewrite append_cons.
      destruct (Ascii.eqb_spec a b) as [->|Hne].
      * rewrite IH. split; intros [post H]; exists post; congruence.
      * split; [done | intros [post H]; congruence].
Qed.

Lemma includes_spec (s needle : string) :
  includes s needle = true <-> exists pre post, s = pre ++ needle ++ post.
Proof.
  induction s as [|c s IH]; simpl.
  - rewrite orb_false_r, startsWith_spec. split.
    + intros [post ->]. exists "", post. reflexivity.
    + intros (pre & post & H). destruct pre; [by exists post | discriminate].
  - rewrite orb_true_iff, startsWith_spec, IH. split.
    + intros [[post H]|(pre & post & H)].
      * exists "", post. by rewrite H.
      * exists (String c pre), post. by rewrite append_cons, H.
    + intros (pre & post & H). destruct pre as [|x pre].
      * left. by exists post.
      * right. exists pre, post. rewrite append_cons in H. congruence.
Qed.

Lemma endsWith_cons (c : ascii) (s x : string) :
  endsWith (String c s) x = String.eqb (String c s) x || endsWith s x.
Proof. reflexivity. Qed.

Lemma endsWith_spec (s x : string) :
  endsWith s x = true <-> exists pre, s = pre ++ x.
Proof.
  induction s as [|c s IH].
  - change (endsWith "" x) with (String.eqb "" x || false).
    rewrite orb_false_r, String.eqb_eq. split.
    + intros <-. exists "". reflexivity.
    + intros [pre H]. destruct pre; [done | discriminate].
  - rewrite endsWith_cons, orb_true_iff, String.eqb_eq, IH. split.
    + intros [<-|[pre H]]; [exists ""; reflexivity |].
      exists (String c pre). by rewrite append_cons, H.
    + intros [pre H]. destruct pre as [|y pre].
      * by left.
      * right. exists pre. rewrite append_cons in H. congruence.
Qed.

End StringFacts.

(** ** Object literals as tables *)

Section TableFacts.

Lemma getProperty_own {V} (table : gmap string V) (key : string) (v : V) :
  table !! key = Some v -> getProperty table key = Own v.
Proof. unfold getProperty. by intros ->. Qed.

Lemma getProperty_undefined {V} (table : gmap string V) (key : string) :
  table !! key = None -> key ∉ objectPrototypeKeys ->
  getProperty table key = Undefined.
Proof.
  unfold getProperty. intros -> Hkey. by rewrite bool_decide_eq_false_2.
Qed.

Lemma getProperty_inherited {V} (table : gmap string V) (key : string) :
  table !! key = None -> key ∈ objectPrototypeKeys ->
  getProperty table key = Inherited key.
Proof.
  unfold getProperty. intros -> Hkey. by rewrite bool_decide_eq_true_2.
Qed.

(** [table[key] || d] is [d] for a key that is neither in the table nor
    inherited. *)
Lemma orString_default (table : gmap string string) (key d : string) :
  table !! key = None -> key ∉ objectPrototypeKeys ->
  orString (getProperty table key) d = Value d.
Proof. intros Hnone Hkey. by rewrite getProperty_undefined. Qed.

End TableFacts.

(** ** Policy parsing *)

Section PolicyFacts.

Import Policy.

Lemma mapPriority_default (selection : string) :
  priorityMap !! selection = None -> selection ∉ objectPrototypeKeys ->
  mapPriority selection = Value "all".
Proof. apply orString_default. Qed.

Lemma mapStopPoint_default (selection : string) :
  stopPointMap !! selection = None -> selection ∉ objectPrototypeKeys ->
  mapStopPoint selection = Value "merged".
Proof. apply orString_default. Qed.

Lemma mapSource_default mapType build cached (selection : string) custom :
  JsString.includes selection "(last used)" = false ->
  selection <> "Custom" -> selection <> "Other" ->
  sourceMap !! selection = None -> selection ∉ objectPrototypeKeys ->
  mapSource mapType build cached selection custom
  = SourceObject (plainSource "github").
Proof.
  intros Hlast Hcustom Hother Hnone Hkey. unfold mapSource.
  rewrite Hlast.
  destruct (String.eqb_spec selection "Custom") as [?|_]; [done|].
  destruct (String.eqb_spec selection "Other") as [?|_]; [done|].
  by rewrite getProperty_undefined.
Qed.

(** C9 (evaluation of the code where the claim fails).  A selection that
    names a property inherited from [Object.prototype] is not one of the
    known answers, yet none of the three mappings gives its default for
    it: [mapPriority], [mapStopPoint] and [mapSource] each return the
    inherited built-in, and [parseAndCachePolicy] passes it on to
    [savePreference]. *)
Theorem unknown_selection_reaches_prototype mapType build cached custom project :
  priorityMap !! "constructor" = None /\
  stopPointMap !! "constructor" = None /\
  sourceMap !! "constructor" = None /\
  mapPriority "constructor" = Builtin "constructor" /\
  mapStopPoint "constructor" = Builtin "constructor" /\
  mapSource mapType build cached "constructor" custom
    = SourceBuiltin "constructor" /\
  parseAndCachePolicy mapType build cached
      (Responses "constructor" "constructor" "constructor" custom project)
    = (Returned (MkPolicy (SourceBuiltin "constructor")
                   (Builtin "constructor") (Builtin "constructor")),
       [SourceBuiltin "constructor"]).
Proof. repeat split; reflexivity. Qed.

(** C10.  When the source answer is a "(last used)" option and the
    preference cache is empty, [parseAndCachePolicy] throws the error
    "Cached source preference not found. Please select a source.": it
    returns no policy and makes no call to [savePreference]. *)
Theorem last_used_with_empty_cache_throws mapType build (r : responses) :
  (exists pre post, responseSource r = pre ++ "(last used)" ++ post) ->
  parseAndCachePolicy mapType build None r
  = (Thrown (Error "Cached source preference not found. Please select a source."),
     []).
Proof.
  intros Hlast. apply includes_spec in Hlast.
  unfold parseAndCachePolicy, mapSource. by rewrite Hlast.
Qed.

Lemma last_used_with_empty_cache_throws_witness :
  parseAndCachePolicy (fun t => t) (fun _ _ => plainSource "custom") None
    (Responses "GitHub (last used)" "All" "Merged" None None)
  = (Thrown (Error "Cached source preference not found. Please select a source."),
     []).
Proof.
  apply (last_used_with_empty_cache_throws (fun t => t)
           (fun _ _ => plainSource "custom")
           (Responses "GitHub (last used)" "All" "Merged" None None)).
  exists "GitHub ", "". reflexivity.
Defined.

End PolicyFacts.

(** ** Resume *)

Section ResumeFacts.

Import Resume.

(** Every phase in the table is a non-empty text, so [||] keeps it. *)
Lemma stepToPhase_phase (step phase : string) :
  stepToPhase !! step = Some phase ->
  (step, phase) ∈ map_to_list stepToPhase /\ phase <> "".
Proof.
  intros H. split; [by apply elem_of_map_to_list|].
  apply elem_of_list_to_map_2 in H.
  repeat (apply elem_of_cons in H as [H|H]; [by inversion H|]).
  by apply elem_of_nil in H.
Qed.

(** C4 (as amended).  The mapping is a function on every step name.  A step
    name in the table maps to the phase the table gives for it.  A step
    name that is not in the table, and is not the name of a property
    inherited from [Object.prototype], maps to the default phase
    "exploration": no error is raised for it. *)
Theorem mapStepToPhase_table_or_default (step : string) :
  (forall phase, stepToPhase !! step = Some phase ->
     mapStepToPhase step = Value phase) /\
  (stepToPhase !! step = None -> step ∉ objectPrototypeKeys ->
     mapStepToPhase step = Value "exploration").
Proof.
  split.
  - intros phase H. unfold mapStepToPhase.
    rewrite (getProperty_own _ _ _ H). simpl.
    destruct (stepToPhase_phase _ _ H) as [_ Hne].
    by destruct (String.eqb_spec phase "").
  - apply orString_default.
Qed.

Lemma mapStepToPhase_table_or_default_witness :
  mapStepToPhase "plan-approved" = Value "implementation" /\
  mapStepToPhase "no-such-step" = Value "exploration".
Proof.
  split.
  - apply (proj1 (mapStepToPhase_table_or_default "plan-approved")).
    reflexivity.
  - apply (proj2 (mapStepToPhase_table_or_default "no-such-step")).
    + reflexivity.
    + apply (bool_decide_unpack _). vm_compute. exact I.
Defined.

(** C4 (counterexample).  "no-such-step" is not a step name of the table,
    and the mapping answers it with the default phase. *)
Lemma mapStepToPhase_unknown_is_default :
  stepToPhase !! "no-such-step" = None /\
  mapStepToPhase "no-such-step" = Value "exploration".
Proof. split; reflexivity. Qed.

Lemma find_some (p : claim -> bool) (tasks : list claim) (t : claim) :
  firstWith (fun x => p x = true) tasks t -> find p tasks = Some t.
Proof.
  intros (before & after & -> & Ht & Hbefore).
  induction Hbefore as [|x before Hx _ IH]; simpl.
  - by rewrite Ht.
  - by destruct (p x).
Qed.

Lemma find_none (p : claim -> bool) (tasks : list claim) :
  Forall (fun x => p x = false) tasks -> find p tasks = None.
Proof. induction 1 as [|x l Hx _ IH]; simpl; [done | by rewrite Hx]. Qed.

Lemma firstWith_iff (P Q : claim -> Prop) tasks t :
  (forall x, P x <-> Q x) -> firstWith P tasks t -> firstWith Q tasks t.
Proof.
  intros HPQ (before & after & -> & Ht & Hbefore).
  exists before, after. split; [done|]. split; [by apply HPQ|].
  eapply Forall_impl; [exact Hbefore|]. intros x Hx HQ. by apply Hx, HPQ.
Qed.

Lemma branchIs_spec (a : string) (t : claim) :
  branchIs (Some a) t = true <-> exists pre, branch t = pre ++ a.
Proof.
  simpl. rewrite orb_true_iff, String.eqb_eq, endsWith_spec. split.
  - intros [->|H]; [exists ""; reflexivity | done].
  - by right.
Qed.

Lemma not_true_false_Forall (p : claim -> bool) (P : claim -> Prop) tasks :
  (forall x, p x = true <-> P x) ->
  Forall (fun x => ~ P x) tasks -> Forall (fun x => p x = false) tasks.
Proof.
  intros Hp H. eapply Forall_impl; [exact H|]. intros x Hx.
  destruct (p x) eqn:E; [|done]. by apply Hp in E.
Qed.

(** With an argument, the branch for a single active claim is not
    taken. *)
Lemma findWorktreeToResume_with_argument (d : disk) tasks (a : string) :
  registry d = Document tasks -> a <> "" ->
  findWorktreeToResume d (Some a)
  = match find (idIs (Some a)) tasks with
    | Some byId => Returned (Some (ofClaim byId))
    | None =>
        match find (branchIs (Some a)) tasks with
        | Some byBranch => Returned (Some (ofClaim byBranch))
        | None => Returned (if pathExists d a then Some (Worktree a None) else None)
        end
    end.
Proof.
  intros Hreg Ha. unfold findWorktreeToResume. rewrite Hreg.
  assert (noArgument (Some a) = false) as ->.
  { simpl. by destruct (String.eqb_spec a ""). }
  destruct (find (idIs (Some a)) tasks); [done|].
  destruct (find (branchIs (Some a)) tasks); [done|].
  destruct (String.eqb_spec a ""); [done|]. simpl.
  by destruct (pathExists d a).
Qed.

(** C7 (as amended).  For a non-empty argument [a]: when the registry file
    does not exist, resolution returns nothing and tries no interpretation.
    When the registry file holds the claims [tasks], resolution returns the
    first claim whose id is [a]; if there is none, the first claim whose
    branch is [a] or ends in [a]; if there is none either, the path [a]
    when it exists; and otherwise nothing. *)
Theorem resolution_order (d : disk) (a : string) :
  a <> "" ->
  (registry d = Absent -> findWorktreeToResume d (Some a) = Returned None) /\
  (forall tasks, registry d = Document tasks ->
     let byId := fun t => claimId t = a in
     let byBranch := fun t => exists pre, branch t = pre ++ a in
     (forall t, firstWith byId tasks t ->
        findWorktreeToResume d (Some a) = Returned (Some (ofClaim t))) /\
     (Forall (fun t => ~ byId t) tasks ->
      forall t, firstWith byBranch tasks t ->
        findWorktreeToResume d (Some a) = Returned (Some (ofClaim t))) /\
     (Forall (fun t => ~ byId t) tasks ->
      Forall (fun t => ~ byBranch t) tasks ->
      findWorktreeToResume d (Some a)
      = Returned (if pathExists d a then Some (Worktree a None) else None))).
Proof.
  intros Ha. split.
  { intros Hreg. unfold findWorktreeToResume. by rewrite Hreg. }
  intros tasks Hreg byId byBranch.
  assert (forall x, idIs (Some a) x = true <-> byId x) as HidIs.
  { intros x. apply String.eqb_eq. }
  pose proof (branchIs_spec a) as HbranchIs.
  rewrite (findWorktreeToResume_with_argument d tasks a Hreg Ha).
  split; [|split].
  - intros t Ht.
    by rewrite (find_some _ _ t (firstWith_iff _ _ _ _
                  (fun x => iff_sym (HidIs x)) Ht)).
  - intros Hno t Ht.
    rewrite (find_none _ _ (not_true_false_Forall _ _ _ HidIs Hno)).
    by rewrite (find_some _ _ t (firstWith_iff _ _ _ _
                  (fun x => iff_sym (HbranchIs x)) Ht)).
  - intros HnoId HnoBranch.
    rewrite (find_none _ _ (not_true_false_Forall _ _ _ HidIs HnoId)).
    by rewrite (find_none _ _ (not_true_false_Forall _ _ _ HbranchIs HnoBranch)).
Qed.

Lemma resolution_order_witness :
  findWorktreeToResume Examples.twoClaims (Some "101")
  = Returned (Some (ofClaim Examples.claimA)).
Proof.
  assert ("101" <> "") as Ha by discriminate.
  destruct (resolution_order Examples.twoClaims "101" Ha) as [_ H].
  destruct (H [Examples.claimA; Examples.claimB] eq_refl) as [Hid _].
  apply Hid. exists [], [Examples.claimB].
  split; [reflexivity|]. split; [reflexivity | constructor].
Defined.

(** C7 (counterexample).  Without a registry file the argument
    [../worktrees/x] resolves to nothing, although it is a path that
    exists. *)
Lemma existing_path_without_registry :
  registry Examples.noRegistry = Absent /\
  pathExists Examples.noRegistry "../worktrees/x" = true /\
  findWorktreeToResume Examples.noRegistry (Some "../worktrees/x")
  = Returned None.
Proof. repeat split. Qed.

(** C6 (as amended).  With no argument and a registry of more than one
    claim, none of whose branch names ends in the text "undefined",
    resolution returns nothing and selects no claim; the handler raises no
    error, and all it does is print that no worktree was found. *)
Theorem resume_without_argument_many_claims (d : disk) (tasks : list claim) :
  registry d = Document tasks ->
  (1 < length tasks)%nat ->
  Forall (fun t => ~ exists pre, branch t = pre ++ "undefined") tasks ->
  findWorktreeToResume d None = Returned None /\
  resume d None = (Returned None, [LogNoWorktree]).
Proof.
  intros Hreg Hlen Hbranch.
  assert (findWorktreeToResume d None = Returned None) as Hfind.
  { unfold findWorktreeToResume. rewrite Hreg.
    assert (find (idIs None) tasks = None) as ->.
    { apply find_none, Forall_true. done. }
    assert (find (branchIs None) tasks = None) as ->.
    { apply find_none. eapply not_true_false_Forall; [|exact Hbranch].
      intros x. apply endsWith_spec. }
    destruct tasks as [|t [|t' rest]]; simpl in *; [lia | lia | done]. }
  split; [done|]. unfold resume. by rewrite Hfind.
Qed.

Lemma resume_without_argument_many_claims_witness :
  findWorktreeToResume Examples.twoClaims None = Returned None /\
  resume Examples.twoClaims None = (Returned None, [LogNoWorktree]).
Proof.
  apply (resume_without_argument_many_claims Examples.twoClaims
           [Examples.claimA; Examples.claimB]).
  - reflexivity.
  - simpl. lia.
  - repeat constructor; intros Hends; apply endsWith_spec in Hends;
      vm_compute in Hends; discriminate.
Defined.

(** C6 (counterexample).  With two active claims and no argument the
    handler throws nothing: it returns after printing that no worktree was
    found. *)
Lemma two_claims_no_argument_returns :
  registry Examples.twoClaims = Document [Examples.claimA; Examples.claimB] /\
  resume Examples.twoClaims None = (Returned None, [LogNoWorktree]) /\
  (forall e, (resume Examples.twoClaims None).1 <> Thrown e).
Proof. repeat split. intros e. discriminate. Qed.




End ResumeFacts.

(** ** Discovery: filtering and scoring *)

Section DiscoverFacts.

Import Discover.

Lemma some_spec {A} (p : A -> bool) (xs : list A) :
  some p xs = true <-> exists x, In x xs /\ p x = true.
Proof. apply existsb_exists. Qed.

Lemma some_includes (labels : list string) (word : string) :
  some (fun l => JsString.includes l word) labels = true
  <-> exists l, In l labels /\ exists pre post, l = pre ++ word ++ post.
Proof.
  rewrite some_spec. split; intros (l & Hl & H); exists l; split; try done;
    by apply includes_spec.
Qed.

#[global] Instance hasLabelWith_dec (t : task) (word : string) :
  Decision (hasLabelWith t word).
Proof.
  refine (cast_if (decide (some (fun l => JsString.includes l word)
                             (lowerLabels t) = true)));
    unfold hasLabelWith; by rewrite <- some_includes.
Defined.

#[global] Instance bugLabeled_dec (t : task) : Decision (bugLabeled t).
Proof. unfold bugLabeled. apply In_dec, string_dec. Defined.

Lemma exceeds_days (now created days : Z) :
  exceeds (ageInDays now created) (inject_Z days) = true
  <-> days * 86400000 < now - created.
Proof.
  unfold exceeds, ageInDays. rewrite negb_true_iff.
  rewrite <- not_true_iff_false, Qle_bool_iff.
  unfold Qle, Qdiv, Qmult, Qinv, inject_Z. simpl. lia.
Qed.

#[global] Instance olderThan_dec (days now : Z) (t : task) :
  Decision (olderThan days now t).
Proof.
  unfold olderThan. destruct (createdAt t) as [created|].
  - destruct (decide (days * 86400000 < now - created)) as [H|H].
    + left. by exists created.
    + right. intros (c & [= <-] & Hc). done.
  - right. by intros (c & ? & _).
Defined.

Lemma some_either (labels : list string) (a b : string) :
  some (fun l => JsString.includes l a || JsString.includes l b) labels
  = some (fun l => JsString.includes l a) labels
    || some (fun l => JsString.includes l b) labels.
Proof.
  induction labels as [|l labels IH]; simpl; [done|].
  rewrite IH. repeat destruct (JsString.includes _ _); simpl; try done;
    by rewrite ?orb_true_r.
Qed.

(** An [if (b) score += n] step, for a test [b] that decides [P]. *)
Lemma add_points (z n : Z) (P : Prop) `{Decision P} (b : bool) :
  (b = true <-> P) -> (if b then z + n else z) = z + points n P.
Proof.
  intros Hb. unfold points. destruct (decide P) as [HP|HP], b; try lia.
  - apply Hb in HP. done.
  - destruct HP. by apply Hb.
Qed.

Lemma some_bug (labels : list string) :
  some (String.eqb "bug") labels = true <-> In "bug" labels.
Proof.
  rewrite some_spec. split.
  - intros (l & Hl & H). apply String.eqb_eq in H. by subst.
  - intros H. exists "bug". by rewrite String.eqb_refl.
Qed.

(** The score as a sum of the five rules. *)
Lemma scoreTask_rules (now : Z) (t : task) :
  scoreTask now t
  = points 100 (hasLabelWith t "critical" \/ hasLabelWith t "p0")
    + points 50 (hasLabelWith t "high" \/ hasLabelWith t "p1")
    + points 40 (hasLabelWith t "security")
    + points 20 (hasLabelWith t "small" \/ hasLabelWith t "quick")
    + points 10 (bugLabeled t /\ olderThan 30 now t).
Proof.
  unfold scoreTask. cbv zeta.
  rewrite !some_either.
  rewrite (add_points 0 100 (hasLabelWith t "critical" \/ hasLabelWith t "p0"))
    by (rewrite orb_true_iff, !some_includes; done).
  rewrite (add_points _ 50 (hasLabelWith t "high" \/ hasLabelWith t "p1"))
    by (rewrite orb_true_iff, !some_includes; done).
  rewrite (add_points _ 40 (hasLabelWith t "security"))
    by (rewrite some_includes; done).
  rewrite (add_points _ 20 (hasLabelWith t "small" \/ hasLabelWith t "quick"))
    by (rewrite orb_true_iff, !some_includes; done).
  assert (forall z : Z,
    match createdAt t with
    | Some created =>
        if some (String.eqb "bug") (lowerLabels t)
           && exceeds (ageInDays now created) 30
        then z + 10 else z
    | None => z
    end = z + points 10 (bugLabeled t /\ olderThan 30 now t)) as Hage.
  { intros z. unfold points, olderThan, bugLabeled.
    assert (forall c, exceeds (ageInDays now c) 30 = true
                      <-> 30 * 86400000 < now - c) as Hdays.
    { intros c. apply (exceeds_days now c 30). }
    destruct (decide _) as [[Hbug (c & Hc & Hold)]|Hno].
    - rewrite Hc. apply some_bug in Hbug. rewrite Hbug.
      apply Hdays in Hold. by rewrite Hold.
    - destruct (createdAt t) as [c|]; [|lia].
      destruct (some _ _ && _) eqn:E; [|lia].
      destruct Hno. apply andb_true_iff in E as [Hbug Hold].
      split; [by apply some_bug|]. exists c. split; [done|].
      by apply Hdays. }
  rewrite Hage. lia.
Qed.

(** *** Sorting *)

Section Sorting.

Context {A : Type} (cmp : A -> A -> Z).

Lemma insertSorted_perm (x : A) (l : list A) :
  Permutation (insertSorted cmp x l) (x :: l).
Proof.
  induction l as [|y l IH]; simpl; [done|].
  destruct (0 <? cmp x y); [|done].
  rewrite IH. apply perm_swap.
Qed.

Lemma sort_cons (x : A) (l : list A) :
  sort cmp (x :: l) = insertSorted cmp x (sort cmp l).
Proof. reflexivity. Qed.

Lemma sort_perm (l : list A) : Permutation (sort cmp l) l.
Proof.
  induction l as [|x l IH]; [done|].
  rewrite sort_cons, insertSorted_perm. by constructor.
Qed.

End Sorting.

Lemma insertSorted_map {A B} (cmp : A -> A -> Z) (f : B -> A) (x : B) (l : list B) :
  insertSorted cmp (f x) (map f l)
  = map f (insertSorted (fun a b => cmp (f a) (f b)) x l).
Proof.
  induction l as [|y l IH]; simpl; [done|].
  destruct (0 <? cmp (f x) (f y)); simpl; [by rewrite IH | done].
Qed.

Lemma sort_map {A B} (cmp : A -> A -> Z) (f : B -> A) (l : list B) :
  sort cmp (map f l) = map f (sort (fun a b => cmp (f a) (f b)) l).
Proof.
  induction l as [|x l IH]; [done|].
  rewrite map_cons, !sort_cons, IH. apply insertSorted_map.
Qed.

(** Sorting by a key, highest first, in terms of the positions the
    elements come from. *)
Section SortingByKey.

Context {A : Type} (key : A -> Z) (pos : A -> nat).

Let cmp (a b : A) : Z := key b - key a.

Let before (a b : A) : Prop :=
  key b < key a \/ (key a = key b /\ (pos a < pos b)%nat).

Lemma insertSorted_before (x : A) (l : list A) :
  StronglySorted before l ->
  Forall (fun y => (pos x < pos y)%nat) l ->
  StronglySorted before (insertSorted cmp x l).
Proof.
  induction 1 as [|y l Hl IH Hy]; intros Hpos; simpl.
  - repeat constructor.
  - apply Forall_cons in Hpos as [Hxy Hpos]. unfold cmp at 1.
    destruct (Z.ltb_spec 0 (key y - key x)) as [Hlt|Hge].
    + constructor; [by apply IH|].
      rewrite (insertSorted_perm cmp x l). constructor; [|done].
      left. lia.
    + constructor; [by constructor|].
      constructor.
      * destruct (decide (key x = key y)); [right | left]; lia.
      * apply Forall_forall. intros z Hz.
        rewrite Forall_forall in Hy, Hpos.
        specialize (Hy z Hz). specialize (Hpos z Hz).
        destruct Hy as [?|[? ?]];
          destruct (decide (key x = key z)); (right; lia) || (left; lia).
Qed.

Lemma sort_before (l : list A) :
  StronglySorted (fun a b => (pos a < pos b)%nat) l ->
  StronglySorted before (sort cmp l).
Proof.
  induction 1 as [|x l Hl IH Hx]; [constructor|].
  rewrite sort_cons. apply insertSorted_before; [done|].
  by rewrite (sort_perm cmp l).
Qed.

End SortingByKey.

Lemma StronglySorted_take {A} (R : A -> A -> Prop) (n : nat) (l : list A) :
  StronglySorted R l -> StronglySorted R (take n l).
Proof.
  intros H. revert n. induction H as [|x l Hl IH Hx]; intros [|n]; simpl;
    try constructor; [apply IH|].
  by apply Forall_take.
Qed.

Lemma StronglySorted_filter {A} (R : A -> A -> Prop) (q : A -> bool) (l : list A) :
  StronglySorted R l -> StronglySorted R (List.filter q l).
Proof.
  induction 1 as [|x l Hl IH Hx]; simpl; [constructor|].
  destruct (q x); [|done]. constructor; [done|].
  apply List.Forall_forall. intros y Hy. apply filter_In in Hy as [Hy _].
  rewrite List.Forall_forall in Hx. by apply Hx.
Qed.

Lemma indexedFrom_snd {A} (n : nat) (l : list A) :
  map snd (indexedFrom n l) = l.
Proof. revert n. induction l as [|x l IH]; intros n; simpl; [done | by rewrite IH]. Qed.

Lemma indexedFrom_lookup {A} (n : nat) (l : list A) :
  Forall (fun p => (n <= p.1)%nat /\ l !! (p.1 - n)%nat = Some p.2)
    (indexedFrom n l).
Proof.
  revert n. induction l as [|x l IH]; intros n; simpl; constructor.
  - simpl. by rewrite Nat.sub_diag.
  - eapply Forall_impl; [apply (IH (S n))|]. intros [i y] [Hle Hy]; simpl in *.
    split; [lia|]. by replace (i - n)%nat with (S (i - S n)) by lia.
Qed.

Lemma indexedFrom_sorted {A} (n : nat) (l : list A) :
  StronglySorted (fun a b : nat * A => (a.1 < b.1)%nat) (indexedFrom n l).
Proof.
  revert n. induction l as [|x l IH]; intros n; simpl; constructor; [done|].
  eapply Forall_impl; [apply (indexedFrom_lookup (S n) l)|].
  intros [i y] [Hle _]; simpl in *. lia.
Qed.

Lemma filter_snd {A B} (q : B -> bool) (l : list (A * B)) :
  List.filter q (map snd l) = map snd (List.filter (fun p => q p.2) l).
Proof.
  induction l as [|[a b] l IH]; simpl; [done|].
  destruct (q b); simpl; by rewrite IH.
Qed.

(** *** The pipeline *)

Lemma filter_all {A} (l : list A) : List.filter (fun _ => true) l = l.
Proof. induction l as [|x l IH]; simpl; [done | by rewrite IH]. Qed.

Lemma filter_twice {A} (p q : A -> bool) (l : list A) :
  List.filter q (List.filter p l) = List.filter (fun x => p x && q x) l.
Proof.
  induction l as [|x l IH]; simpl; [done|].
  destruct (p x); simpl; [|done]. destruct (q x); by rewrite IH.
Qed.

Lemma filterByPriority_filter (tasks : list task) (filter : string) kept :
  filterByPriority tasks filter = Returned kept ->
  exists q, kept = List.filter q tasks.
Proof.
  unfold filterByPriority. destruct (_ || _).
  - intros [= <-]. exists (fun _ => true). by rewrite filter_all.
  - destruct (getProperty LABEL_MAPS filter) as [targets|key|].
    + intros [= <-]. by eexists.
    + destruct tasks; [|done]. intros [= <-]. by exists (fun _ => true).
    + intros [= <-]. by eexists.
Qed.

Lemma filterByPriority_returns (tasks : list task) (filter : string) :
  filter ∉ objectPrototypeKeys ->
  exists kept, filterByPriority tasks filter = Returned kept.
Proof.
  intros Hkey. unfold filterByPriority. destruct (_ || _); [by eexists|].
  unfold getProperty. destruct (LABEL_MAPS !! filter); [by eexists|].
  rewrite bool_decide_eq_false_2 by done. by eexists.
Qed.

Lemma notIn_spec (set : gset string) (t : task) :
  notIn set t = true <-> taskKey t ∉ set.
Proof.
  unfold notIn. rewrite negb_true_iff, bool_decide_eq_false. done.
Qed.

Lemma filter_notIn_empty (l : list task) : List.filter (notIn ∅) l = l.
Proof.
  induction l as [|t l IH]; simpl; [done|].
  rewrite (proj2 (notIn_spec ∅ t)) by apply not_elem_of_empty.
  by rewrite IH.
Qed.

(** What [topTasks] returns: the candidates that pass one filter, which
    admits no claimed and no PR-linked task, scored and sorted. *)
Lemma topTasks_shape now tasks (claimedIds prLinked : gset string) filter top :
  topTasks now tasks claimedIds prLinked filter = Returned top ->
  exists q,
    (forall t, q t = true -> (taskKey t ∉ claimedIds) /\ (taskKey t ∉ prLinked)) /\
    top = sort byScore (map (withScore now) (List.filter q tasks)).
Proof.
  unfold topTasks, mbind, outcome_bind, mret, outcome_ret.
  destruct (filterByPriority _ filter) as [kept|e] eqn:E; [|done].
  intros [= <-]. apply filterByPriority_filter in E as [q ->].
  rewrite !filter_twice. eexists. split; [|reflexivity].
  intros t Ht. simpl in Ht. rewrite !andb_true_iff in Ht.
  rewrite <- !notIn_spec. tauto.
Qed.

Lemma ranked_take now tasks (claimedIds prLinked : gset string) filter out :
  ranked now tasks claimedIds prLinked filter = Returned out ->
  exists top,
    topTasks now tasks claimedIds prLinked filter = Returned top /\
    out = take 5 top.
Proof.
  unfold ranked, mbind, outcome_bind, mret, outcome_ret.
  destruct (topTasks _ _ _ _ _) as [top|e]; [|done].
  intros [= <-]. by exists top.
Qed.

Lemma ranked_returns now tasks (claimedIds prLinked : gset string) filter :
  filter ∉ objectPrototypeKeys ->
  exists out, ranked now tasks claimedIds prLinked filter = Returned out.
Proof.
  intros Hkey. unfold ranked, topTasks, mbind, outcome_bind, mret, outcome_ret.
  destruct (filterByPriority_returns
              (List.filter (notIn prLinked) (List.filter (notIn claimedIds) tasks))
              filter Hkey) as [kept ->].
  by eexists.
Qed.

(** C1.  Whatever the candidates, the claimed ids, the PR-linked ids and
    the priority filter are, no task offered by the ranking has its key
    [String(t.number || t.id)] among the claimed ids; and the ranking does
    return for every filter that is not the name of a property inherited
    from [Object.prototype]. *)
Theorem ranked_excludes_claimed now tasks (claimedIds prLinked : gset string) filter :
  (filter ∉ objectPrototypeKeys ->
   exists out, ranked now tasks claimedIds prLinked filter = Returned out) /\
  (forall out, ranked now tasks claimedIds prLinked filter = Returned out ->
   forall s, s ∈ out -> taskKey (scoredTask s) ∉ claimedIds).
Proof.
  split; [apply ranked_returns|].
  intros out Hout s Hs.
  apply ranked_take in Hout as (top & Htop & ->).
  apply topTasks_shape in Htop as (q & Hq & ->).
  apply (subseteq_take 5), list_elem_of_In in Hs.
  apply (Permutation_in _ (sort_perm _ _)), in_map_iff in Hs as (t & <- & Ht).
  apply filter_In in Ht as [_ Ht]. by apply Hq.
Qed.

Lemma ranked_excludes_claimed_witness :
  taskKey critical ∉ ({[ "1" ]} : gset string).
Proof.
  assert (ranked 0 [oldBug 0; critical] {[ "1" ]} ∅ "all"
          = Returned [Scored critical 100]) as Hranked.
  { vm_compute. reflexivity. }
  apply (proj2 (ranked_excludes_claimed 0 [oldBug 0; critical] {[ "1" ]} ∅ "all")
           [Scored critical 100] Hranked (Scored critical 100)).
  apply list_elem_of_here.
Defined.

Lemma scenario_scores (now : Z) :
  scoreTask now (oldBug now) = 10 /\ scoreTask now critical = 100.
Proof.
  split; [|reflexivity].
  assert (exceeds (ageInDays now (now - 40 * 86400000)) 30 = true) as Hage.
  { apply (exceeds_days now (now - 40 * 86400000) 30). lia. }
  unfold scoreTask.
  change (createdAt (oldBug now)) with (Some (now - 40 * 86400000)).
  change (lowerLabels (oldBug now)) with ["bug"].
  cbv beta iota zeta. rewrite Hage. reflexivity.
Qed.

(** C2.  For every task the score is the sum of 100 when a label contains
    "critical" or "p0", 50 when a label contains "high" or "p1", 40 when a
    label contains "security", 20 when a label contains "small" or "quick",
    and 10 when the task has the label "bug" and was created more than 30
    days ago, the labels being read in lower case.  For the two candidates
    of the scenario, nothing claimed or linked and the filter "all", the
    ranking is the critical task with score 100 and then the forty days old
    bug with score 10. *)
Theorem scoring_rules :
  (forall now t,
     scoreTask now t
     = points 100 (hasLabelWith t "critical" \/ hasLabelWith t "p0")
       + points 50 (hasLabelWith t "high" \/ hasLabelWith t "p1")
       + points 40 (hasLabelWith t "security")
       + points 20 (hasLabelWith t "small" \/ hasLabelWith t "quick")
       + points 10 (bugLabeled t /\ olderThan 30 now t)) /\
  (forall now,
     ranked now [oldBug now; critical] ∅ ∅ "all"
     = Returned [Scored critical 100; Scored (oldBug now) 10]).
Proof.
  split; [apply scoreTask_rules|].
  intros now. destruct (scenario_scores now) as [Hbug Hcritical].
  unfold ranked, topTasks. rewrite !filter_notIn_empty.
  change (filterByPriority [oldBug now; critical] "all")
    with (Returned [oldBug now; critical]).
  unfold mbind, outcome_bind, mret, outcome_ret.
  change (sort byScore (map (withScore now) [oldBug now; critical]))
    with (insertSorted byScore (withScore now (oldBug now))
            [withScore now critical]).
  unfold insertSorted, byScore, withScore. cbn [score].
  rewrite Hbug, Hcritical. reflexivity.
Qed.

(** *** The order of the ranking *)

#[global] Instance rankedBefore_strict now tasks :
  StrictOrder (rankedBefore now tasks).
Proof.
  split.
  - intros i (a & b & Ha & Hb & H). assert (a = b) by congruence. subst. lia.
  - intros i j k (a & b & Ha & Hb & Hab) (b' & c & Hb' & Hc & Hbc).
    assert (b' = b) by congruence. subst.
    exists a, c. repeat split; try done. lia.
Qed.

Lemma rankedBefore_total now (tasks : list task) (i j : nat) :
  (i < length tasks)%nat -> (j < length tasks)%nat -> i <> j ->
  rankedBefore now tasks i j \/ rankedBefore now tasks j i.
Proof.
  intros Hi Hj Hne.
  destruct (lookup_lt_is_Some_2 tasks i Hi) as [a Ha].
  destruct (lookup_lt_is_Some_2 tasks j Hj) as [b Hb].
  destruct (Z.lt_trichotomy (scoreTask now a) (scoreTask now b)) as [?|[?|?]].
  - right. exists b, a. tauto.
  - destruct (Nat.lt_trichotomy i j) as [?|[?|?]]; [|done|].
    + left. exists a, b. tauto.
    + right. exists b, a. split; [done|]. split; [done|]. right. lia.
  - left. exists a, b. tauto.
Qed.

(** The positions of a list of tracked candidates are in ranking order
    when the candidates are sorted by score and position. *)
Lemma tracked_rankedBefore now (tasks : list task) (l : list (nat * task)) :
  Forall (fun p => tasks !! p.1 = Some p.2) l ->
  StronglySorted
    (fun a b => scoreTask now b.2 < scoreTask now a.2 \/
                (scoreTask now a.2 = scoreTask now b.2 /\ (a.1 < b.1)%nat)) l ->
  StronglySorted (rankedBefore now tasks) (map fst l).
Proof.
  intros Hl Hsorted. induction Hsorted as [|p l Hs IH Hp]; simpl; [constructor|].
  apply Forall_cons in Hl as [Hp' Hl]. constructor; [by apply IH|].
  apply List.Forall_forall. intros j Hj.
  apply in_map_iff in Hj as (r & <- & Hr).
  rewrite List.Forall_forall in Hp, Hl.
  exists p.2, r.2. split; [done|]. split; [by apply Hl|]. by apply Hp.
Qed.

Lemma tracked_positions now (tasks : list task) (l : list (nat * task)) :
  Forall (fun p => tasks !! p.1 = Some p.2) l ->
  Forall2 (fun i s => tasks !! i = Some (scoredTask s) /\
                      score s = scoreTask now (scoredTask s))
    (map fst l) (map (fun p => withScore now p.2) l).
Proof. induction 1; simpl; constructor; done. Qed.

(** C3.  The tasks offered are at most five.  They come from distinct
    positions of the candidate list and stand in ranking order: of any two
    of them the earlier one has the higher score, or the same score and
    the earlier position among the candidates.  That order is a strict
    total order on the positions of the candidates. *)
Theorem ranking_order now tasks (claimedIds prLinked : gset string) filter out :
  ranked now tasks claimedIds prLinked filter = Returned out ->
  (length out <= 5)%nat /\
  (exists positions,
     Forall2 (fun i s => tasks !! i = Some (scoredTask s) /\
                         score s = scoreTask now (scoredTask s))
       positions out /\
     StronglySorted (rankedBefore now tasks) positions) /\
  StrictOrder (rankedBefore now tasks) /\
  (forall i j, (i < length tasks)%nat -> (j < length tasks)%nat -> i <> j ->
     rankedBefore now tasks i j \/ rankedBefore now tasks j i).
Proof.
  intros Hout.
  apply ranked_take in Hout as (top & Htop & ->).
  apply topTasks_shape in Htop as (q & _ & ->).
  split; [rewrite length_take; lia|].
  split; [|split; [apply _ | apply rankedBefore_total]].
  set (tracked := List.filter (fun p : nat * task => q p.2) (indexedFrom 0 tasks)).
  assert (List.filter q tasks = map snd tracked) as ->.
  { unfold tracked. by rewrite <- filter_snd, indexedFrom_snd. }
  rewrite map_map.
  rewrite (sort_map byScore (fun p : nat * task => withScore now p.2)).
  rewrite firstn_map.
  set (key := fun p : nat * task => scoreTask now p.2).
  set (sorted := sort _ tracked).
  assert (Forall (fun p => tasks !! p.1 = Some p.2) tracked) as Htracked.
  { apply List.Forall_forall. intros p Hp. apply filter_In in Hp as [Hp _].
    pose proof (indexedFrom_lookup 0 tasks) as H.
    rewrite List.Forall_forall in H. destruct (H p Hp) as [_ Hlook].
    by rewrite Nat.sub_0_r in Hlook. }
  assert (Forall (fun p => tasks !! p.1 = Some p.2) sorted) as Hsorted.
  { unfold sorted. by rewrite sort_perm. }
  assert (StronglySorted
            (fun a b => key b < key a \/ (key a = key b /\ (a.1 < b.1)%nat))
            sorted) as Horder.
  { apply (sort_before key fst).
    apply StronglySorted_filter, indexedFrom_sorted. }
  exists (map fst (take 5 sorted)). split.
  - apply tracked_positions. by apply Forall_take.
  - apply tracked_rankedBefore; [by apply Forall_take|].
    by apply StronglySorted_take.
Qed.

Lemma ranking_order_witness :
  (length [Scored critical 100; Scored (oldBug 0) 10] <= 5)%nat /\
  (exists positions,
     Forall2 (fun i s => [oldBug 0; critical] !! i = Some (scoredTask s) /\
                         score s = scoreTask 0 (scoredTask s))
       positions [Scored critical 100; Scored (oldBug 0) 10] /\
     StronglySorted (rankedBefore 0 [oldBug 0; critical]) positions) /\
  StrictOrder (rankedBefore 0 [oldBug 0; critical]) /\
  (forall i j, (i < 2)%nat -> (j < 2)%nat -> i <> j ->
     rankedBefore 0 [oldBug 0; critical] i j \/
     rankedBefore 0 [oldBug 0; critical] j i).
Proof.
  apply (ranking_order 0 [oldBug 0; critical] ∅ ∅ "all").
  vm_compute. reflexivity.
Defined.

End DiscoverFacts.


(** ** Regular expressions *)

Section RegexFacts.

Import JsString Regex Discover.

Lemma all_app (p : ascii -> bool) (a b : string) :
  all p (a ++ b) = all p a && all p b.
Proof.
  induction a as [|c a IH]; [done|].
  rewrite append_cons. simpl. rewrite IH. by destruct (p c).
Qed.

Lemma length_append (a b : string) :
  String.length (a ++ b) = (String.length a + String.length b)%nat.
Proof. induction a as [|c a IH]; [done|]. rewrite append_cons. simpl. by rewrite IH. Qed.

Lemma lastChar_app (prev : option ascii) (a b : string) :
  lastChar prev (a ++ b) = lastChar (lastChar prev a) b.
Proof. revert prev. induction a as [|c a IH]; intros prev; [done|]. rewrite append_cons. apply IH. Qed.

(** Two ways of cutting the same text: the shorter first part is a prefix
    of the longer one. *)
Lemma append_cut (a b m rest : string) :
  a ++ b = m ++ rest -> (String.length a < String.length m)%nat ->
  exists inner, inner <> "" /\ m = a ++ inner /\ b = inner ++ rest.
Proof.
  revert m. induction a as [|c a IH]; intros m H Hlen.
  - exists m. rewrite append_nil_l in H. repeat split; [|done].
    intros ->. simpl in Hlen. lia.
  - destruct m as [|c' m]; [simpl in Hlen; lia|].
    rewrite !append_cons in H. injection H as -> H.
    destruct (IH m H) as (inner & Hne & -> & ->); [simpl in Hlen; lia|].
    by exists inner.
Qed.

Lemma chr_spec (p : ascii -> bool) (k : cont) (s : string) (r : result) :
  chr p k s = Some r <-> exists c x, s = String c x /\ p c = true /\ k x = Some r.
Proof.
  destruct s as [|c x]; simpl.
  - split; [done | by intros (? & ? & ? & _)].
  - destruct (p c) eqn:E.
    + split; [by exists c, x | by intros (? & ? & [= <- <-] & _ & ?)].
    + split; [done | intros (? & ? & [= <- <-] & ? & _); congruence].
Qed.

(** [[p]+] before a continuation that fails in front of a character of
    [p]: some non-empty run of [p], then the continuation. *)
Lemma plus_spec (p : ascii -> bool) (k : cont) :
  (forall c x, p c = true -> k (String c x) = None) ->
  forall s r,
    plus p k s = Some r
    <-> exists run rest,
          s = run ++ rest /\ run <> "" /\ all p run = true /\ k rest = Some r.
Proof.
  intros Hk. induction s as [|c s IH]; intros r; simpl.
  - split; [done|]. intros (run & rest & H & Hne & _).
    destruct run; [done | discriminate].
  - destruct (p c) eqn:Hc.
    + split.
      * destruct (plus p k s) as [r'|].
        -- intros [= ->].
           destruct (proj1 (IH r) eq_refl) as (run & rest & -> & _ & Hall & Hr).
           exists (String c run), rest. rewrite append_cons. simpl.
           by rewrite Hc, Hall.
        -- intros Hr. exists (String c ""), s. simpl. by rewrite Hc.
      * intros (run & rest & H & Hne & Hall & Hr).
        destruct run as [|c' run]; [done|].
        rewrite append_cons in H. injection H as <- ->.
        simpl in Hall. rewrite Hc in Hall. simpl in Hall.
        destruct run as [|c2 run].
        -- rewrite append_nil_l in *. destruct (plus p k rest) as [r'|]; [|done].
           destruct (proj1 (IH r') eq_refl)
             as (run' & rest' & -> & Hne' & Hall' & _).
           destruct run' as [|c3 run']; [done|].
           rewrite append_cons in Hr. simpl in Hall'.
           destruct (p c3) eqn:H3; [|done]. by rewrite Hk in Hr.
        -- assert (plus p k (String c2 run ++ rest) = Some r) as ->; [|done].
           apply IH. by exists (String c2 run), rest.
    + split; [done|]. intros (run & rest & H & Hne & Hall & _).
      destruct run as [|c' run]; [done|].
      rewrite append_cons in H. injection H as <- ->.
      simpl in Hall. by rewrite Hc in Hall.
Qed.

(** [([p]+)] before a continuation that fails in front of a character of
    [p]: the capture is some non-empty run of [p]. *)
Lemma group_spec (p : ascii -> bool) (k : string -> cont) :
  (forall capture c x, p c = true -> k capture (String c x) = None) ->
  forall s seen r,
    group p k seen s = Some r
    <-> exists run rest,
          s = run ++ rest /\ run <> "" /\ all p run = true /\
          k (seen ++ run) rest = Some r.
Proof.
  intros Hk. induction s as [|c s IH]; intros seen r; simpl.
  - split; [done|]. intros (run & rest & H & Hne & _).
    destruct run; [done | discriminate].
  - destruct (p c) eqn:Hc.
    + specialize (IH (seen ++ String c "")). split.
      * destruct (group p k _ s) as [r'|].
        -- intros [= ->].
           destruct (proj1 (IH r) eq_refl) as (run & rest & -> & _ & Hall & Hr).
           exists (String c run), rest. rewrite append_cons. simpl.
           rewrite Hc, Hall. rewrite append_assoc in Hr. done.
        -- intros Hr. exists (String c ""), s. simpl. by rewrite Hc.
      * intros (run & rest & H & Hne & Hall & Hr).
        destruct run as [|c' run]; [done|].
        rewrite append_cons in H. injection H as <- ->.
        simpl in Hall. rewrite Hc in Hall. simpl in Hall.
        destruct run as [|c2 run].
        -- rewrite append_nil_l in *.
           destruct (group p k _ rest) as [r'|]; [|done].
           destruct (proj1 (IH r') eq_refl)
             as (run' & rest' & -> & Hne' & Hall' & _).
           destruct run' as [|c3 run']; [done|].
           rewrite append_cons in Hr. simpl in Hall'.
           destruct (p c3) eqn:H3; [|done]. by rewrite Hk in Hr.
        -- assert (group p k (seen ++ String c "") (String c2 run ++ rest)
                   = Some r) as ->; [|done].
           apply IH. exists (String c2 run), rest.
           rewrite append_assoc. done.
    + split; [done|]. intros (run & rest & H & Hne & Hall & _).
      destruct run as [|c' run]; [done|].
      rewrite append_cons in H. injection H as <- ->.
      simpl in Hall. by rewrite Hc in Hall.
Qed.

(** [([p]+)] at the end of the pattern: the capture is the longest run of
    [p]. *)
Lemma group_accept_spec (p : ascii -> bool) :
  forall s seen capture rest,
    group p accept seen s = Some (capture, rest)
    <-> exists run,
          s = run ++ rest /\ run <> "" /\ all p run = true /\
          startsOutside p rest /\ capture = seen ++ run.
Proof.
  induction s as [|c s IH]; intros seen capture rest; simpl.
  - split; [done|]. intros (run & H & Hne & _).
    destruct run; [done | discriminate].
  - destruct (p c) eqn:Hc.
    + specialize (IH (seen ++ String c "")). split.
      * destruct (group p accept _ s) as [[capture' rest']|] eqn:E.
        -- intros [= -> ->].
           destruct (proj1 (IH capture rest) eq_refl)
             as (run & -> & _ & Hall & Hout & ->).
           exists (String c run). rewrite append_cons. simpl.
           rewrite Hc, Hall, append_assoc. done.
        -- intros [= <- <-]. exists (String c ""). simpl. rewrite Hc.
           repeat split; try done.
           destruct s as [|c2 s]; simpl in *; [done|].
           destruct (p c2); [|done]. by destruct (group p accept _ s).
      * intros (run & H & Hne & Hall & Hout & ->).
        destruct run as [|c' run]; [done|].
        rewrite append_cons in H. injection H as <- ->.
        simpl in Hall. rewrite Hc in Hall. simpl in Hall.
        destruct run as [|c2 run].
        -- rewrite append_nil_l in *.
           assert (group p accept (seen ++ String c "") rest = None) as ->; [|done].
           destruct rest as [|c3 rest]; simpl in *; [done | by rewrite Hout].
        -- assert (group p accept (seen ++ String c "") (String c2 run ++ rest)
                   = Some (seen ++ String c (String c2 run), rest)) as ->; [|done].
           apply IH. exists (String c2 run). by rewrite append_assoc.
    + split; [done|]. intros (run & H & Hne & Hall & _).
      destruct run as [|c' run]; [done|].
      rewrite append_cons in H. injection H as <- ->.
      simpl in Hall. by rewrite Hc in Hall.
Qed.

(** *** Characters *)

Ltac each_char c := destruct c as [[] [] [] [] [] [] [] []].

Lemma digit_not_paren (c : ascii) : isDigit c = true -> only ")" c = false.
Proof. each_char c; done. Qed.

Lemma digit_not_dash (c : ascii) : isDigit c = true -> only "-" c = false.
Proof. each_char c; done. Qed.

Lemma space_not_hash (c : ascii) : isSpace c = true -> only "#" c = false.
Proof. each_char c; done. Qed.

Lemma space_not_word (c : ascii) : isSpace c = true -> isWordChar c = false.
Proof. each_char c; done. Qed.

Lemma digit_is_word (c : ascii) : isDigit c = true -> isWordChar c = true.
Proof. each_char c; done. Qed.

(** *** The branch pattern *)

Lemma branchPattern_spec (prev : option ascii) (s d rest : string) :
  branchPattern prev s = Some (d, rest)
  <-> s = "-" ++ d /\ isId d /\ rest = "".
Proof.
  unfold branchPattern. rewrite chr_spec. split.
  - intros (c & x & -> & Hc & H).
    apply group_spec in H as (run & rest' & -> & Hne & Hall & H); [|done].
    destruct rest'; [|done]. injection H as <- <-.
    apply Ascii.eqb_eq in Hc as <-. by rewrite append_nil_r.
  - intros (-> & [Hne Hall] & ->). exists "-"%char, d. repeat split.
    apply group_spec; [done|]. exists d, "". by rewrite append_nil_r.
Qed.

Lemma digits_have_no_dash (a b : string) : all isDigit (a ++ "-" ++ b) = false.
Proof.
  rewrite all_app. change (all isDigit ("-" ++ b)) with false.
  apply andb_false_r.
Qed.

(** The leftmost match of the branch pattern captures [d] exactly when
    the text ends in [-d]. *)
Lemma matchFirst_branch (s d : string) (prev : option ascii) :
  matchFirst branchPattern prev s = Some d
  <-> exists pre, s = pre ++ "-" ++ d /\ isId d.
Proof.
  revert prev. induction s as [|c s IH]; intros prev.
  - simpl. split; [done|]. intros (pre & H & _). destruct pre; discriminate.
  - change (matchFirst branchPattern prev (String c s))
      with (match branchPattern prev (String c s) with
            | Some (capture, _) => Some capture
            | None => matchFirst branchPattern (Some c) s
            end).
    destruct (branchPattern prev (String c s)) as [[d0 rest]|] eqn:E.
    + apply branchPattern_spec in E as (E & [Hne Hall] & ->).
      rewrite append_cons, append_nil_l in E. injection E as -> ->.
      split.
      * intros [= ->]. exists "". by rewrite append_nil_l.
      * intros (pre & H & _). destruct pre as [|x pre].
        -- rewrite append_nil_l, append_cons, append_nil_l in H. congruence.
        -- rewrite append_cons in H. injection H as _ ->.
           by rewrite digits_have_no_dash in Hall.
    + rewrite IH. split.
      * intros (pre & -> & Hd). exists (String c pre). by rewrite append_cons.
      * intros (pre & H & Hd). destruct pre as [|x pre].
        -- rewrite append_nil_l in H.
           assert (branchPattern prev (String c s) = Some (d, "")) as E'.
           { apply branchPattern_spec. by rewrite H. }
           congruence.
        -- rewrite append_cons in H. injection H as _ ->. by exists pre.
Qed.

(** *** The title pattern *)

Lemma paren_after_digits (capture : string) (c : ascii) (x : string) :
  isDigit c = true -> chr (only ")") (accept capture) (String c x) = None.
Proof. intros Hc. unfold chr. by rewrite digit_not_paren. Qed.

Lemma titlePattern_spec (prev : option ascii) (s d rest : string) :
  titlePattern prev s = Some (d, rest)
  <-> s = "(#" ++ d ++ ")" ++ rest /\ isId d.
Proof.
  unfold titlePattern. rewrite chr_spec. split.
  - intros (c & x & -> & Hc & H). apply Ascii.eqb_eq in Hc as <-.
    apply chr_spec in H as (c & y & -> & Hc & H). apply Ascii.eqb_eq in Hc as <-.
    apply group_spec in H as (run & rest' & -> & Hne & Hall & H).
    2:{ apply paren_after_digits. }
    apply chr_spec in H as (c & z & -> & Hc & H). apply Ascii.eqb_eq in Hc as <-.
    injection H as <- <-. done.
  - intros (-> & [Hne Hall]). exists "("%char, ("#" ++ d ++ ")" ++ rest).
    repeat split. apply chr_spec. exists "#"%char, (d ++ ")" ++ rest).
    repeat split. apply group_spec.
    { apply paren_after_digits. }
    exists d, (")" ++ rest). repeat split; try done.
Qed.

(** *** The body pattern *)

Lemma isLetter_eqb (x c : ascii) :
  isKeywordLetter x = true -> isLetter x c = Ascii.eqb (toLowerChar c) x.
Proof. each_char x; try discriminate; intros _; each_char c; reflexivity. Qed.

Lemma isLetter_lower (x c : ascii) :
  isKeywordLetter x = true -> isLetter x c = true <-> toLowerChar c = x.
Proof. intros Hx. rewrite (isLetter_eqb x c Hx). apply Ascii.eqb_eq. Qed.

Lemma isSD_lower (c : ascii) :
  isSD c = true <-> toLowerChar c = "s"%char \/ toLowerChar c = "d"%char.
Proof.
  unfold isSD. rewrite orb_true_iff, !isLetter_lower by reflexivity. done.
Qed.

Lemma letter_is_word (x c : ascii) :
  isKeywordLetter x = true -> toLowerChar c = x -> isWordChar c = true.
Proof. each_char x; try discriminate; intros _; each_char c; done. Qed.

Lemma toLowerCase_app (a b : string) :
  toLowerCase (a ++ b) = toLowerCase a ++ toLowerCase b.
Proof.
  induction a as [|c a IH]; [done|]. rewrite append_cons. simpl.
  by rewrite IH, append_cons.
Qed.

Lemma alt_spec (a b : re) (k : cont) (s : string) (r : result) :
  alt a b k s = Some r
  <-> a k s = Some r \/ (a k s = None /\ b k s = Some r).
Proof.
  unfold alt. destruct (a k s) as [r'|].
  - split; [by left | by intros [?|[? _]]].
  - split; [by right | by intros [?|[_ ?]]].
Qed.

Lemma word_spec (w : string) (k : cont) :
  all isKeywordLetter w = true ->
  forall s r,
    word w k s = Some r
    <-> exists u rest, s = u ++ rest /\ toLowerCase u = w /\ k rest = Some r.
Proof.
  induction w as [|x w IH]; intros Hw s r.
  - simpl. unfold eps. split.
    + intros H. by exists "", s.
    + intros (u & rest & -> & Hu & H). by destruct u.
  - simpl in Hw. apply andb_true_iff in Hw as [Hx Hw].
    change (word (String x w) k s) with (chr (isLetter x) (word w k) s).
    rewrite chr_spec. split.
    + intros (c & y & -> & Hc & H). apply (IH Hw) in H as (u & rest & -> & <- & H).
      exists (String c u), rest. rewrite append_cons. simpl.
      apply (isLetter_lower x c Hx) in Hc. by rewrite Hc.
    + intros (u & rest & -> & Hu & H). destruct u as [|c u]; [done|].
      simpl in Hu. injection Hu as Hc Hu.
      exists c, (u ++ rest). rewrite append_cons. repeat split.
      * by apply (isLetter_lower x c Hx).
      * apply (IH Hw). by exists u, rest.
Qed.

Section Keyword.

(** What follows the keyword starts with white space. *)
Variable K : cont.
Hypothesis K_space :
  forall s r, K s = Some r -> exists c x, s = String c x /\ isSpace c = true.

Lemma keyword_sound (s : string) (r : result) :
  keyword K s = Some r ->
  exists kw rest,
    s = kw ++ rest /\ In (toLowerCase kw) closingKeywords /\ K rest = Some r.
Proof.
  assert (forall w, all isKeywordLetter w = true ->
            In w closingKeywords ->
            In (w ++ "s") closingKeywords -> In (w ++ "d") closingKeywords ->
            forall s r, word w (opt (chr isSD) K) s = Some r ->
            exists kw rest,
              s = kw ++ rest /\ In (toLowerCase kw) closingKeywords /\
              K rest = Some r) as Hsd.
  { clear s r. intros w Hw H0 Hs Hd s r H.
    apply (word_spec w _ Hw) in H as (u & rest & -> & <- & H).
    apply alt_spec in H as [H|[_ H]].
    - apply chr_spec in H as (c & x & -> & Hc & H).
      exists (u ++ String c ""), x. rewrite append_assoc. repeat split; [|done].
      rewrite toLowerCase_app. simpl.
      apply isSD_lower in Hc as [-> | ->]; done.
    - by exists u, rest. }
  unfold keyword. intros H.
  apply alt_spec in H as [H|[_ H]].
  { apply (Hsd "close"); try done; simpl; tauto. }
  apply alt_spec in H as [H|[_ H]].
  2:{ apply (Hsd "resolve"); try done; simpl; tauto. }
  unfold seq in H.
  apply (word_spec "fix") in H as (u & rest & -> & Hu & H); [|done].
  unfold opt in H. apply alt_spec in H as [H|[_ H]].
  - cbv beta in H.
    apply (word_spec "e") in H as (e & rest' & -> & He & H); [|done].
    apply chr_spec in H as (c & x & -> & Hc & H).
    exists (u ++ e ++ String c ""), x. rewrite !append_assoc. repeat split; [|done].
    rewrite !toLowerCase_app, Hu, He. simpl.
    apply isSD_lower in Hc as [-> | ->]; simpl; tauto.
  - exists u, rest. rewrite Hu. simpl. tauto.
Qed.

Lemma space_not_sd (c : ascii) : isSpace c = true -> isSD c = false.
Proof. each_char c; done. Qed.

Lemma space_not_e (c : ascii) : isSpace c = true -> isLetter "e" c = false.
Proof. each_char c; done. Qed.

Lemma isSD_eqb (c : ascii) :
  isSD c = Ascii.eqb (toLowerChar c) "s" || Ascii.eqb (toLowerChar c) "d".
Proof. unfold isSD. by rewrite !isLetter_eqb. Qed.

(** Turns [toLowerCase kw = w], for a literal [w], into the characters of
    [kw] and what each is in lower case. *)
Ltac peel H :=
  repeat match type of H with
         | toLowerCase ?kw = String _ _ =>
             let a := fresh "a" in
             let Ha := fresh "Ha" in
             destruct kw as [|a kw]; [discriminate H|];
             simpl in H; injection H as Ha H
         | toLowerCase ?kw = EmptyString =>
             destruct kw; [clear H | discriminate H]
         end.

(** Runs the keyword matcher on characters known in lower case, in front
    of the white space [c0]. *)
Ltac run_keyword c0 Hc0 :=
  rewrite ?append_cons, ?append_nil_l;
  cbv [keyword alt seq opt eps word chr];
  rewrite ?(space_not_sd c0 Hc0), ?(space_not_e c0 Hc0), ?isSD_eqb;
  rewrite ?isLetter_eqb by reflexivity;
  repeat match goal with H : toLowerChar _ = _ |- _ => rewrite H; clear H end;
  cbn.

Lemma keyword_complete (kw rest : string) (r : result) :
  In (toLowerCase kw) closingKeywords -> K rest = Some r ->
  keyword K (kw ++ rest) = Some r.
Proof.
  intros Hkw Hr.
  destruct (K_space rest r Hr) as (c0 & x0 & -> & Hc0).
  simpl in Hkw.
  destruct Hkw as [H|[H|[H|[H|[H|[H|[H|[H|[H|[]]]]]]]]]]; symmetry in H; peel H;
    run_keyword c0 Hc0; by rewrite Hr.
Qed.

Lemma keyword_spec (s : string) (r : result) :
  keyword K s = Some r
  <-> exists kw rest,
        s = kw ++ rest /\ In (toLowerCase kw) closingKeywords /\ K rest = Some r.
Proof.
  split; [apply keyword_sound|].
  intros (kw & rest & -> & Hkw & Hr). by apply keyword_complete.
Qed.

End Keyword.

Lemma hash_after_spaces (c : ascii) (x : string) :
  isSpace c = true -> chr (only "#") (group isDigit accept "") (String c x) = None.
Proof. intros Hc. unfold chr. by rewrite space_not_hash. Qed.

Lemma afterKeyword_spec (s d rest : string) :
  afterKeyword s = Some (d, rest)
  <-> exists ws,
        s = ws ++ "#" ++ d ++ rest /\ ws <> "" /\ all isSpace ws = true /\
        isId d /\ startsOutside isDigit rest.
Proof.
  unfold afterKeyword. rewrite (plus_spec _ _ hash_after_spaces). split.
  - intros (ws & x & -> & Hne & Hws & H).
    apply chr_spec in H as (c & y & -> & Hc & H). apply Ascii.eqb_eq in Hc as <-.
    apply group_accept_spec in H as (run & -> & Hrun & Hall & Hout & ->).
    exists ws. by rewrite append_nil_l.
  - intros (ws & -> & Hne & Hws & [Hd Hall] & Hout).
    exists ws, ("#" ++ d ++ rest). repeat split; try done.
    apply chr_spec. exists "#"%char, (d ++ rest). repeat split.
    apply group_accept_spec. by exists d.
Qed.

Lemma afterKeyword_space (s : string) (r : result) :
  afterKeyword s = Some r -> exists c x, s = String c x /\ isSpace c = true.
Proof.
  destruct r as [d rest]. intros H.
  apply afterKeyword_spec in H as (ws & -> & Hne & Hws & _).
  destruct ws as [|c ws]; [done|]. simpl in Hws.
  apply andb_true_iff in Hws as [Hc _]. exists c, (ws ++ "#" ++ d ++ rest).
  by rewrite append_cons.
Qed.

Lemma bodyPattern_spec (prev : option ascii) (s d rest : string) :
  bodyPattern prev s = Some (d, rest)
  <-> wordBoundary prev s = true /\
      exists kw ws,
        s = kw ++ ws ++ "#" ++ d ++ rest /\
        In (toLowerCase kw) closingKeywords /\
        ws <> "" /\ all isSpace ws = true /\
        isId d /\ startsOutside isDigit rest.
Proof.
  unfold bodyPattern.
  destruct (wordBoundary prev s); [|split; [done | by intros [? _]]].
  rewrite (keyword_spec afterKeyword afterKeyword_space). split.
  - intros (kw & x & -> & Hkw & H).
    apply afterKeyword_spec in H as (ws & -> & H). split; [done|].
    by exists kw, ws.
  - intros (_ & kw & ws & -> & Hkw & H). exists kw, (ws ++ "#" ++ d ++ rest).
    repeat split; try done. apply afterKeyword_spec. by exists ws.
Qed.

(** *** All matches of a pattern *)

Section MatchAll.

Variable pat : pattern.

(** [starter prev c] holds wherever a match can start: at a character [c]
    that comes after [prev]. *)
Variable starter : option ascii -> ascii -> bool.

Local Abbreviation quiet := (Regex.quiet starter).

Hypothesis pat_nil : forall prev, pat prev "" = None.

Hypothesis pat_starter :
  forall prev c x r, pat prev (String c x) = Some r -> starter prev c = true.

Hypothesis pat_quiet :
  forall prev c x capture rest,
    pat prev (String c x) = Some (capture, rest) ->
    exists m, x = m ++ rest /\ quiet (Some c) m = true.

Lemma quiet_inert (m rest : string) :
  forall prev, quiet prev m = true ->
  forall a b, m = a ++ b -> b <> "" -> pat (lastChar prev a) (b ++ rest) = None.
Proof.
  induction m as [|c m IH]; intros prev Hq a b Hm Hb.
  - destruct a, b; done.
  - simpl in Hq. apply andb_true_iff in Hq as [Hc Hq].
    destruct a as [|c' a].
    + rewrite append_nil_l in Hm. subst b. rewrite append_cons. simpl.
      destruct (pat prev (String c (m ++ rest))) as [r|] eqn:E; [|done].
      apply pat_starter in E. by rewrite E in Hc.
    + rewrite append_cons in Hm. injection Hm as <- ->.
      by apply (IH (Some c) Hq a b).
Qed.

Lemma matchAllFrom_spec (d : string) :
  forall s skip prev,
    (forall a b, s = a ++ b -> (String.length a < skip)%nat ->
       pat (lastChar prev a) b = None) ->
    In d (matchAllFrom pat skip prev s)
    <-> exists a b rest, s = a ++ b /\ pat (lastChar prev a) b = Some (d, rest).
Proof.
  induction s as [|c s IH]; intros skip prev Hskip.
  - simpl. split; [done|]. intros (a & b & rest & H & Hpat).
    destruct a, b; try done. simpl in Hpat. by rewrite pat_nil in Hpat.
  - assert ((exists a b rest,
               String c s = a ++ b /\ pat (lastChar prev a) b = Some (d, rest))
            <-> (exists rest, pat prev (String c s) = Some (d, rest)) \/
                (exists a b rest,
                   s = a ++ b /\ pat (lastChar (Some c) a) b = Some (d, rest)))
      as ->.
    { split.
      - intros (a & b & rest & H & Hpat). destruct a as [|c' a].
        + rewrite append_nil_l in H. subst b. left. by exists rest.
        + rewrite append_cons in H. injection H as <- ->. right. by exists a, b, rest.
      - intros [[rest Hpat]|(a & b & rest & -> & Hpat)].
        + by exists "", (String c s), rest.
        + exists (String c a), b, rest. by rewrite append_cons. }
    destruct skip as [|n].
    + simpl. destruct (pat prev (String c s)) as [[capture rest']|] eqn:E.
      * simpl. rewrite IH.
        -- split; (intros [H|H]; [left | by right]).
           ++ exists rest'. by subst.
           ++ destruct H as [rest H]. congruence.
        -- intros a b Hs Hlen.
           destruct (pat_quiet _ _ _ _ _ E) as (m & Hm & Hq).
           rewrite Hm, length_append in Hlen.
           destruct (append_cut a b m rest') as (inner & Hne & -> & ->);
             [congruence | lia |].
           by apply (quiet_inert _ rest' (Some c) Hq a inner).
      * rewrite IH; [|intros a b _ Hlen; lia].
        split; [by right | by intros [[rest H]|H]].
    + simpl. rewrite IH.
      * split; [by right|]. intros [[rest H]|H]; [|done].
        assert (pat prev (String c s) = None) as Hnone.
        { apply (Hskip "" (String c s)); [done | simpl; lia]. }
        congruence.
      * intros a b -> Hlen. apply (Hskip (String c a) b); [done | simpl; lia].
Qed.

Lemma matchAll_spec (d s : string) :
  In d (matchAll pat s)
  <-> exists a b rest, s = a ++ b /\ pat (lastChar None a) b = Some (d, rest).
Proof. apply matchAllFrom_spec. intros a b _ Hlen. lia. Qed.

Lemma quiet_app (prev : option ascii) (a b : string) :
  quiet prev (a ++ b) = quiet prev a && quiet (lastChar prev a) b.
Proof.
  revert prev. induction a as [|c a IH]; intros prev; [done|].
  rewrite append_cons. simpl. rewrite IH. by destruct (starter prev c).
Qed.

End MatchAll.

(** **** The matches of the title pattern *)


Lemma digit_not_open (c : ascii) : isDigit c = true -> only "(" c = false.
Proof. each_char c; done. Qed.

Lemma quiet_digits (prev : option ascii) (d : string) :
  all isDigit d = true -> quiet titleStarter prev d = true.
Proof.
  revert prev. induction d as [|c d IH]; intros prev; simpl; [done|].
  intros [Hc Hd]%andb_true_iff. unfold titleStarter at 1.
  by rewrite digit_not_open, IH.
Qed.

Lemma matchAll_title (d t : string) :
  In d (matchAll titlePattern t)
  <-> exists pre post, t = pre ++ "(#" ++ d ++ ")" ++ post /\ isId d.
Proof.
  rewrite (matchAll_spec titlePattern titleStarter).
  - split.
    + intros (a & b & rest & -> & H). apply titlePattern_spec in H as [-> Hd].
      by exists a, rest.
    + intros (pre & post & -> & Hd). exists pre, ("(#" ++ d ++ ")" ++ post), post.
      split; [done|]. by apply titlePattern_spec.
  - done.
  - intros prev c x r H. unfold titlePattern in H.
    apply chr_spec in H as (c' & x' & [= <- <-] & Hc & _). done.
  - intros prev c x capture rest H.
    apply titlePattern_spec in H as [H [_ Hd]].
    rewrite !append_cons, append_nil_l in H. injection H as _ ->.
    exists ("#" ++ capture ++ ")"). split.
    + rewrite !append_assoc. reflexivity.
    + rewrite append_cons, append_nil_l. simpl.
      rewrite quiet_app, quiet_digits by done. done.
Qed.

(** **** The matches of the body pattern *)

Lemma space_not_starter (c : ascii) : isSpace c = true -> startsKeyword c = false.
Proof. each_char c; done. Qed.

Lemma digit_not_starter (c : ascii) : isDigit c = true -> startsKeyword c = false.
Proof. each_char c; done. Qed.

Lemma quiet_word (prev : option ascii) (m : string) :
  isWordBefore prev = true -> all isWordChar m = true ->
  quiet bodyStarter prev m = true.
Proof.
  revert prev. induction m as [|c m IH]; intros prev Hprev; simpl; [done|].
  intros [Hc Hm]%andb_true_iff. unfold bodyStarter at 1. rewrite Hprev. simpl.
  by apply IH.
Qed.

Lemma quiet_class (p : ascii -> bool) (prev : option ascii) (m : string) :
  (forall c, p c = true -> startsKeyword c = false) ->
  all p m = true -> quiet bodyStarter prev m = true.
Proof.
  intros Hp. revert prev. induction m as [|c m IH]; intros prev; simpl; [done|].
  intros [Hc Hm]%andb_true_iff. unfold bodyStarter at 1.
  rewrite (Hp c Hc), andb_false_r. simpl. by apply IH.
Qed.

(** A keyword is made of word characters and starts with c, f or r. *)
Lemma keyword_shape (kw : string) :
  In (toLowerCase kw) closingKeywords ->
  all isWordChar kw = true /\
  exists c tail, kw = String c tail /\ startsKeyword c = true.
Proof.
  intros Hkw.
  assert (all isKeywordLetter (toLowerCase kw) = true) as Hletters.
  { simpl in Hkw.
    destruct Hkw as [H|[H|[H|[H|[H|[H|[H|[H|[H|[]]]]]]]]]]; by rewrite <- H. }
  split.
  - clear Hkw. induction kw as [|c kw IH]; [done|]. simpl in *.
    apply andb_true_iff in Hletters as [Hc Hkw].
    by rewrite (letter_is_word _ c Hc eq_refl), IH.
  - destruct kw as [|c tail].
    { simpl in Hkw. intuition discriminate. }
    exists c, tail. split; [done|]. unfold startsKeyword.
    rewrite !isLetter_eqb by done. simpl in Hkw.
    destruct Hkw as [H|[H|[H|[H|[H|[H|[H|[H|[H|[]]]]]]]]]];
      injection H as H _; by rewrite <- H.
Qed.

Lemma bodyPattern_starter (prev : option ascii) (c : ascii) (x : string) r :
  bodyPattern prev (String c x) = Some r -> bodyStarter prev c = true.
Proof.
  destruct r as [d rest]. intros H.
  apply bodyPattern_spec in H as (Hb & kw & ws & H & Hkw & _).
  apply keyword_shape in Hkw as (Hword & c' & tail & -> & Hc').
  rewrite append_cons in H. injection H as <- _.
  simpl in Hword. apply andb_true_iff in Hword as [Hc _].
  unfold bodyStarter. rewrite Hc', andb_true_r.
  unfold wordBoundary in Hb. rewrite Hc in Hb. unfold isWordBefore.
  by destruct prev as [p|]; [destruct (isWordChar p)|].
Qed.

Lemma wordBoundary_keyword (prev : option ascii) (kw rest : string) :
  In (toLowerCase kw) closingKeywords ->
  wordBoundary prev (kw ++ rest) = negb (isWordBefore prev).
Proof.
  intros Hkw. apply keyword_shape in Hkw as (Hword & c & tail & -> & _).
  simpl in Hword. apply andb_true_iff in Hword as [Hc _].
  rewrite append_cons. unfold wordBoundary, isWordBefore. rewrite Hc.
  by destruct prev as [p|]; [destruct (isWordChar p)|].
Qed.

Lemma matchAll_body (d b : string) :
  In d (matchAll bodyPattern b)
  <-> exists pre kw ws post,
        b = pre ++ kw ++ ws ++ "#" ++ d ++ post /\
        endsOutsideWord pre /\
        In (toLowerCase kw) closingKeywords /\
        ws <> "" /\ all isSpace ws = true /\
        isId d /\ startsOutside isDigit post.
Proof.
  assert (forall pre, endsOutsideWord pre
                      <-> negb (isWordBefore (lastChar None pre)) = true) as Hends.
  { intros pre. unfold endsOutsideWord, isWordBefore.
    destruct (lastChar None pre) as [p|]; [|done].
    by destruct (isWordChar p). }
  rewrite (matchAll_spec bodyPattern bodyStarter).
  - split.
    + intros (a & x & rest & -> & H).
      apply bodyPattern_spec in H as (Hb & kw & ws & -> & Hkw & H).
      rewrite (wordBoundary_keyword _ _ _ Hkw) in Hb.
      exists a, kw, ws, rest. by rewrite Hends.
    + intros (pre & kw & ws & post & -> & Hpre & Hkw & H).
      exists pre, (kw ++ ws ++ "#" ++ d ++ post), post. split; [done|].
      apply bodyPattern_spec. split; [|by exists kw, ws].
      rewrite (wordBoundary_keyword _ _ _ Hkw). by apply Hends.
  - intros prev. unfold bodyPattern. by destruct (wordBoundary prev "").
  - apply bodyPattern_starter.
  - intros prev c x capture rest H.
    apply bodyPattern_spec in H as (_ & kw & ws & H & Hkw & _ & Hws & [_ Hd] & _).
    apply keyword_shape in Hkw as (Hword & c' & tail & -> & _).
    rewrite append_cons in H. injection H as <- ->.
    simpl in Hword. apply andb_true_iff in Hword as [Hc Htail].
    exists (tail ++ ws ++ "#" ++ capture). split.
    + by rewrite !append_assoc.
    + rewrite quiet_app, (quiet_word (Some c) tail Hc Htail). simpl.
      rewrite quiet_app, (quiet_class isSpace _ ws space_not_starter Hws). simpl.
      rewrite append_nil_l.
      rewrite (quiet_class isDigit _ capture digit_not_starter Hd).
      unfold bodyStarter, startsKeyword. by rewrite andb_false_r.
Qed.

End RegexFacts.

(** ** Discovery: issues linked to an open pull request *)

Section LinkFacts.

Import JsString Regex Discover.

Lemma addAll_spec (ids : list string) (set : gset string) (d : string) :
  d ∈ addAll ids set <-> In d ids \/ d ∈ set.
Proof.
  unfold addAll. revert set. induction ids as [|x ids IH]; intros set; simpl.
  - split; [by right | by intros [[]|?]].
  - rewrite IH, elem_of_union, elem_of_singleton. split.
    + intros [?|[->|?]]; auto.
    + intros [[->|?]|?]; auto.
Qed.

Lemma branch_link (pr : pullRequest) (d : string) :
  matchFirst branchPattern None (default "" (headRefName pr)) = Some d
  <-> branchEndsIn pr d.
Proof.
  rewrite matchFirst_branch. unfold branchEndsIn. split.
  - intros (pre & H & Hd). destruct (headRefName pr) as [b|]; simpl in H.
    + by exists b, pre.
    + destruct pre; discriminate.
  - intros (b & pre & -> & -> & Hd). by exists pre.
Qed.

Lemma body_link (pr : pullRequest) (set : gset string) (d : string) :
  d ∈ match body pr with
      | Some b =>
          if String.eqb b "" then set else addAll (matchAll bodyPattern b) set
      | None => set
      end
  <-> bodyCloses pr d \/ d ∈ set.
Proof.
  unfold bodyCloses. destruct (body pr) as [b|].
  - destruct (String.eqb_spec b "") as [->|Hb].
    + split; [by right|]. intros [(b & pre & kw & ws & post & [= <-] & H & _)|?]; [|done].
      destruct pre; [|discriminate].
      destruct kw; [|discriminate]. destruct ws; [|discriminate]. discriminate.
    + rewrite addAll_spec, matchAll_body. split.
      * intros [(pre & kw & ws & post & H)|?]; [left | by right].
        by exists b, pre, kw, ws, post.
      * intros [(b' & pre & kw & ws & post & [= <-] & H)|?]; [left | by right].
        by exists pre, kw, ws, post.
  - split; [by right|]. by intros [(b & ? & ? & ? & ? & ? & _)|?].
Qed.

Lemma title_link (pr : pullRequest) (d : string) :
  In d (matchAll titlePattern (default "" (prTitle pr))) <-> titleMentions pr d.
Proof.
  rewrite matchAll_title. unfold titleMentions. split.
  - intros (pre & post & H & Hd). destruct (prTitle pr) as [t|]; simpl in H.
    + by exists t, pre, post.
    + destruct pre; discriminate.
  - intros (t & pre & post & -> & -> & Hd). by exists pre, post.
Qed.

Lemma addLinked_spec (set : gset string) (pr : pullRequest) (d : string) :
  d ∈ addLinked set pr
  <-> d ∈ set \/ branchEndsIn pr d \/ bodyCloses pr d \/ titleMentions pr d.
Proof.
  unfold addLinked. rewrite addAll_spec, title_link, body_link.
  rewrite <- branch_link.
  destruct (matchFirst branchPattern None (default "" (headRefName pr)))
    as [d0|].
  - rewrite elem_of_union, elem_of_singleton. split.
    + intros [?|[?|[->|?]]]; auto.
    + intros [?|[[= ->]|[?|?]]]; auto.
  - split.
    + intros [?|[?|?]]; auto.
    + intros [?|[?|[?|?]]]; auto. done.
Qed.

Lemma foldl_addLinked (prs : list pullRequest) (set : gset string) (d : string) :
  d ∈ foldl addLinked set prs
  <-> d ∈ set \/
      exists pr, In pr prs /\
        (branchEndsIn pr d \/ bodyCloses pr d \/ titleMentions pr d).
Proof.
  revert set. induction prs as [|pr prs IH]; intros set; simpl.
  - split; [by left | by intros [?|(? & [] & _)]].
  - rewrite IH, addLinked_spec. split.
    + intros [[?|H]|(pr' & Hin & H)]; [by left | right..].
      * exists pr. by split; [left|].
      * exists pr'. by split; [right|].
    + intros [?|(pr' & [<-|Hin] & H)]; [by left; left | by left; right |].
      right. by exists pr'.
Qed.

(** C8.  For every list of open pull requests, the set of PR-linked ids
    holds exactly the non-empty digit texts [d] for which some pull request
    has a branch name ending in [-d], or a body that contains, at a word
    boundary, a closing keyword (close, closes, closed, fix, fixes, fixed,
    resolve, resolves, resolved, in any case), white space and [#d] with no
    digit after it, or a title that contains [(#d)].  When the list of pull
    requests cannot be read or parsed, the set is empty and the filter on it
    keeps every task. *)
Theorem prLinkedIssues_exact :
  (forall prs d,
     d ∈ prLinkedIssues (Document prs)
     <-> exists pr, In pr prs /\
           (branchEndsIn pr d \/ bodyCloses pr d \/ titleMentions pr d)) /\
  prLinkedIssues Absent = ∅ /\
  prLinkedIssues Malformed = ∅ /\
  (forall tasks,
     List.filter (notIn (prLinkedIssues Absent)) tasks = tasks /\
     List.filter (notIn (prLinkedIssues Malformed)) tasks = tasks).
Proof.
  split; [|repeat split; apply filter_notIn_empty].
  intros prs d. simpl. rewrite foldl_addLinked. split.
  - intros [H|H]; [|done]. by apply not_elem_of_empty in H.
  - by right.
Qed.

End LinkFacts.

(** ** Presenting and recording the choice *)

Section PresentFacts.

Import JsString Discover Present.

Lemma length_take_string (n : nat) (s : string) :
  String.length (JsString.take n s) = Nat.min n (String.length s).
Proof.
  revert s. induction n as [|n IH]; intros [|c s]; simpl; try done.
  by rewrite IH.
Qed.

Lemma take_prefix (n : nat) (s : string) :
  exists rest, s = JsString.take n s ++ rest.
Proof.
  revert s. induction n as [|n IH]; intros s.
  - exists s. by destruct s.
  - destruct s as [|c s]; [by exists ""|].
    destruct (IH s) as [rest Hrest]. exists rest. simpl.
    by rewrite append_cons, <- Hrest.
Qed.

(** X1.  A title that fits is shown whole and the label has at most 30
    characters.  A title that does not fit is cut to a label of exactly 32
    characters, the prefix, the beginning of the title and three dots, as
    long as the prefix itself is shorter than 30. *)
Theorem truncateLabel_length (num : jsval) (title : string) :
  let prefix := labelPrefix num in
  ((String.length prefix + String.length title <= 30)%nat ->
     truncateLabel num title = prefix ++ title /\
     (String.length (truncateLabel num title) <= 30)%nat) /\
  ((30 < String.length prefix + String.length title)%nat ->
   (String.length prefix < 30)%nat ->
     String.length (truncateLabel num title) = 32%nat /\
     exists kept rest,
       title = kept ++ rest /\
       truncateLabel num title = prefix ++ kept ++ "...").
Proof.
  intros prefix. unfold truncateLabel. fold prefix. cbv zeta. split.
  - intros Hfit.
    destruct (Z.ltb_spec (30 - Z.of_nat (String.length prefix))
                (Z.of_nat (String.length title))) as [H|H]; [lia|].
    split; [done|]. rewrite length_append. lia.
  - intros Hlong Hprefix.
    destruct (Z.ltb_spec (30 - Z.of_nat (String.length prefix))
                (Z.of_nat (String.length title))) as [H|H]; [|lia].
    split.
    + rewrite !length_append, length_take_string.
      change (String.length "...") with 3%nat. lia.
    + destruct (take_prefix
                  (Z.to_nat (30 - Z.of_nat (String.length prefix) - 1)) title)
        as [rest Hrest].
      by eexists _, rest.
Qed.

Lemma truncateLabel_length_witness :
  String.length
    (truncateLabel (JNumber 123) "Add retry logic to the upload worker")
  = 32%nat.
Proof.
  apply (proj2 (truncateLabel_length (JNumber 123)
                  "Add retry logic to the upload worker")).
  - apply Nat.ltb_lt. vm_compute. reflexivity.
  - apply Nat.ltb_lt. vm_compute. reflexivity.
Defined.

End PresentFacts.

(** ** Numbers as text *)

Section NumberFacts.

Import JsString Discover Present.

Lemma toZ_valueFrom (s : string) : toZ s = valueFrom 0 s.
Proof. reflexivity. Qed.

Lemma valueFrom_app (acc : Z) (a b : string) :
  valueFrom acc (a ++ b) = valueFrom (valueFrom acc a) b.
Proof.
  revert acc. induction a as [|c a IH]; intros acc; [done|].
  rewrite append_cons. simpl. apply IH.
Qed.

Lemma digitsOf_acc (fuel : nat) (n : N) (acc : string) :
  digitsOf fuel n acc = digitsOf fuel n "" ++ acc.
Proof.
  revert n acc. induction fuel as [|fuel IH]; intros n acc; simpl; [done|].
  destruct (n <? 10)%N; [done|].
  rewrite (IH _ (String _ acc)), (IH _ (String _ "")).
  by rewrite append_assoc.
Qed.

Lemma code_digit (r : N) : (r < 10)%N -> code (ascii_of_N (48 + r)) = (48 + r)%N.
Proof. intros H. unfold code. apply N_ascii_embedding. lia. Qed.

Lemma digitsOf_value (fuel : nat) :
  forall n : N, (n < 2 ^ (N.of_nat fuel + 1))%N ->
  valueFrom 0 (digitsOf fuel n "") = Z.of_N n.
Proof.
  induction fuel as [|fuel IH]; intros n Hn.
  - simpl in *. rewrite code_digit by (apply N.mod_lt; lia).
    assert (n mod 10 = n)%N as -> by (apply N.mod_small; lia). lia.
  - simpl. destruct (N.ltb_spec n 10) as [Hsmall|Hbig].
    + simpl. rewrite code_digit by (apply N.mod_lt; lia).
      assert (n mod 10 = n)%N as -> by (apply N.mod_small; lia). lia.
    + rewrite digitsOf_acc, valueFrom_app, IH.
      * simpl. rewrite code_digit by (apply N.mod_lt; lia).
        pose proof (N.div_mod n 10). lia.
      * replace (N.of_nat (S fuel) + 1)%N with (N.succ (N.of_nat fuel + 1))%N in Hn
          by lia.
        rewrite N.pow_succ_r' in Hn.
        apply N.Div0.div_lt_upper_bound. lia.
Qed.

(** [toZ] reads back the digits that [ofZ] writes. *)
Lemma toZ_ofZ (n : Z) : 0 <= n -> toZ (ofZ n) = n.
Proof.
  intros Hn. unfold ofZ. destruct (Z.ltb_spec n 0) as [?|_]; [lia|].
  rewrite toZ_valueFrom, digitsOf_value; [lia|].
  destruct (Z.to_N (Z.abs n)) as [|p] eqn:E; [done|].
  rewrite N2Nat.id. replace (N.log2 (N.pos p) + 1)%N with (N.succ (N.log2 (N.pos p))) by lia.
  apply N.log2_spec. lia.
Qed.

Lemma digitsOf_first (fuel : nat) (n : N) (acc : string) :
  exists r rest, (r < 10)%N /\ digitsOf fuel n acc = String (ascii_of_N (48 + r)) rest.
Proof.
  revert n acc. induction fuel as [|fuel IH]; intros n acc; simpl.
  - exists (n mod 10)%N, acc. split; [apply N.mod_lt; lia | done].
  - destruct (n <? 10)%N; [|apply IH].
    exists (n mod 10)%N, acc. split; [apply N.mod_lt; lia | done].
Qed.

Lemma digit_is_not_minus (r : N) : (r < 10)%N -> ascii_of_N (48 + r) <> "-"%char.
Proof.
  intros Hr H. apply (f_equal code) in H. rewrite code_digit in H by done.
  change (code "-") with 45%N in H. lia.
Qed.

(** The text of the magnitude of [n]. *)
Lemma ofZ_magnitude (n : Z) :
  exists ds, toZ ds = Z.abs n /\
             ofZ n = (if n <? 0 then String "-" ds else ds) /\
             exists r rest, (r < 10)%N /\ ds = String (ascii_of_N (48 + r)) rest.
Proof.
  pose proof (toZ_ofZ (Z.abs n) (Z.abs_nonneg n)) as Habs.
  unfold ofZ in *. rewrite Z.abs_idemp in Habs.
  destruct (Z.ltb_spec (Z.abs n) 0) as [?|_]; [lia|].
  eexists. split; [exact Habs|]. split; [done|]. apply digitsOf_first.
Qed.

(** [ofZ] gives different integers different texts. *)
Lemma ofZ_injective (n m : Z) : ofZ n = ofZ m -> n = m.
Proof.
  destruct (ofZ_magnitude n) as (dn & Hn & -> & Hfn).
  destruct (ofZ_magnitude m) as (dm & Hm & -> & Hfm).
  destruct (Z.ltb_spec n 0) as [Hn0|Hn0], (Z.ltb_spec m 0) as [Hm0|Hm0]; intros H.
  - injection H as H. rewrite H in Hn. lia.
  - destruct Hfm as (r & rest & Hr & ->). injection H as H _. symmetry in H.
    by apply digit_is_not_minus in H.
  - destruct Hfn as (r & rest & Hr & ->). injection H as H _.
    by apply digit_is_not_minus in H.
  - rewrite H in Hn. lia.
Qed.

(** X2.  Two tasks that carry different issue numbers, safe integers other
    than 0, have different keys: a claim or an open pull request for one
    issue never hides another. *)
Theorem taskKey_numbers (t u : task) (n m : Z) :
  number t = JNumber n -> number u = JNumber m -> n <> 0 -> m <> 0 ->
  Z.abs n <= 9007199254740991 -> Z.abs m <= 9007199254740991 ->
  n <> m -> taskKey t <> taskKey u.
Proof.
  intros Ht Hu Hn Hm _ _ Hnm. unfold taskKey. rewrite Ht, Hu. simpl.
  destruct (Z.eqb_spec n 0), (Z.eqb_spec m 0); try done. simpl.
  intros H. by apply Hnm, ofZ_injective.
Qed.

Lemma taskKey_numbers_witness :
  taskKey (Task (JNumber 12) JUndefined "a" None None)
  <> taskKey (Task (JNumber 123) (JText "12") "b" None None).
Proof.
  apply (taskKey_numbers (Task (JNumber 12) JUndefined "a" None None)
           (Task (JNumber 123) (JText "12") "b" None None) 12 123);
    try reflexivity; lia.
Defined.

Lemma offered_not_claimed now tasks (claimedIds prLinked : gset string) filter out s :
  ranked now tasks claimedIds prLinked filter = Returned out ->
  In s out -> taskKey (scoredTask s) ∉ claimedIds.
Proof.
  intros Hout Hs.
  apply ranked_take in Hout as (top & Htop & ->).
  apply topTasks_shape in Htop as (q & Hq & ->).
  apply list_elem_of_In, (subseteq_take 5), list_elem_of_In in Hs.
  apply (Permutation_in _ (sort_perm _ _)), in_map_iff in Hs as (t & <- & Ht).
  apply filter_In in Ht as [_ Ht]. by apply Hq.
Qed.

(** X3.  The id that Phase 5 stores for a selected task that carries an
    issue number is the key Phase 3 filters on: once that id is among the
    claimed ids, discovery never offers the task again. *)
Theorem selected_task_is_excluded taskSource (t : task) body url
    now tasks (claimedIds prLinked : gset string) filter out :
  truthy (number t) = true ->
  stateId (selectedState taskSource t body url) ∈ claimedIds ->
  ranked now tasks claimedIds prLinked filter = Returned out ->
  stateId (selectedState taskSource t body url) = taskKey t /\
  forall s, In s out -> scoredTask s <> t.
Proof.
  intros Hnum Hid Hout.
  assert (stateId (selectedState taskSource t body url) = taskKey t) as Hkey.
  { unfold taskKey. by rewrite Hnum. }
  split; [done|]. intros s Hs He.
  apply (offered_not_claimed _ _ _ _ _ _ _ Hout Hs). by rewrite He, <- Hkey.
Qed.

Lemma selected_task_is_excluded_witness :
  stateId (selectedState Policy.SourceNull
             (Task (JNumber 7) JUndefined "a" None None) None None)
  = taskKey (Task (JNumber 7) JUndefined "a" None None) /\
  forall s,
    In s [Scored (Task (JNumber 8) JUndefined "b" None None) 0] ->
    scoredTask s <> Task (JNumber 7) JUndefined "a" None None.
Proof.
  apply (selected_task_is_excluded Policy.SourceNull
           (Task (JNumber 7) JUndefined "a" None None) None None
           0
           [Task (JNumber 7) JUndefined "a" None None;
            Task (JNumber 8) JUndefined "b" None None]
           {[ "7" ]} ∅ "all"
           [Scored (Task (JNumber 8) JUndefined "b" None None) 0]).
  - reflexivity.
  - apply elem_of_singleton. reflexivity.
  - vm_compute. reflexivity.
Defined.

End NumberFacts.

(** ** Discovery: what the filters keep and what the ranking offers *)

Section PipelineFacts.

Import JsString Discover.

Lemma matchesTargets_spec (targets : list string) (t : task) :
  matchesTargets targets t = true
  <-> exists target, In target targets /\ hasLabelWith t target.
Proof.
  unfold matchesTargets, hasLabelWith. rewrite some_spec.
  split; intros (target & Hin & H); exists target; split; try done;
    by apply some_includes.
Qed.

Lemma filter_sublist {A} (q : A -> bool) (l : list A) :
  List.filter q l `sublist_of` l.
Proof.
  induction l as [|x l IH]; simpl; [constructor|].
  destruct (q x); by constructor.
Qed.

Lemma category_is_not_all (filter : string) (targets : list string) :
  LABEL_MAPS !! filter = Some targets ->
  String.eqb filter "continue" || String.eqb filter "all" = false.
Proof.
  intros H. apply elem_of_list_to_map_2 in H.
  repeat (apply elem_of_cons in H as [H|H]; [by inversion H|]).
  by apply elem_of_nil in H.
Qed.

(** X5.  For a filter that names a category of [LABEL_MAPS], the tasks kept
    are, in their order, exactly the tasks with a label that contains one
    of the category's keywords. *)
Theorem filterByPriority_category (tasks : list task) (filter : string)
    (targets : list string) :
  LABEL_MAPS !! filter = Some targets ->
  exists kept,
    filterByPriority tasks filter = Returned kept /\
    kept `sublist_of` tasks /\
    forall t, In t kept
              <-> In t tasks /\
                  exists target, In target targets /\ hasLabelWith t target.
Proof.
  intros H. unfold filterByPriority.
  rewrite (category_is_not_all _ _ H), (getProperty_own _ _ _ H).
  eexists. split; [reflexivity|]. split; [apply filter_sublist|].
  intros t. by rewrite filter_In, matchesTargets_spec.
Qed.

Lemma filterByPriority_category_witness :
  exists kept,
    filterByPriority [oldBug 0; critical] "bugs" = Returned kept /\
    kept `sublist_of` [oldBug 0; critical] /\
    forall t, In t kept
              <-> In t [oldBug 0; critical] /\
                  exists target,
                    In target ["bug"; "fix"; "error"; "defect"] /\
                    hasLabelWith t target.
Proof.
  apply (filterByPriority_category [oldBug 0; critical] "bugs"
           ["bug"; "fix"; "error"; "defect"]).
  reflexivity.
Defined.

(** X6.  A filter that is none of "continue", "all", a category of
    [LABEL_MAPS] or an inherited property name keeps no task at all. *)
Theorem filterByPriority_unknown (tasks : list task) (filter : string) :
  filter <> "continue" -> filter <> "all" ->
  LABEL_MAPS !! filter = None -> filter ∉ objectPrototypeKeys ->
  filterByPriority tasks filter = Returned [].
Proof.
  intros Hc Ha Hnone Hkey. unfold filterByPriority.
  destruct (String.eqb_spec filter "continue"); [done|].
  destruct (String.eqb_spec filter "all"); [done|]. simpl.
  rewrite (getProperty_undefined _ _ Hnone Hkey). f_equal.
  induction tasks as [|t tasks IH]; [done|]. simpl.
  unfold matchesTargets at 1. simpl. exact IH.
Qed.

Lemma filterByPriority_unknown_witness :
  filterByPriority [oldBug 0; critical] "bug" = Returned [].
Proof.
  apply (filterByPriority_unknown [oldBug 0; critical] "bug");
    try discriminate; [reflexivity|].
  apply (bool_decide_unpack _). vm_compute. exact I.
Defined.

(** X7.  A score lies between 0 and 220. *)
Theorem scoreTask_bounds (now : Z) (t : task) : 0 <= scoreTask now t <= 220.
Proof.
  rewrite scoreTask_rules. unfold points.
  repeat destruct (decide _); lia.
Qed.

(** X8.  Every PR-linked id is a non-empty text of digits, so the filter on
    them keeps every task whose key is anything else; and when the file of
    pull requests is missing or cannot be parsed no id is linked and the
    filter keeps every task. *)
Theorem prLinkedIssues_digits (prs : file (list pullRequest)) :
  (forall d, d ∈ prLinkedIssues prs -> isId d) /\
  (forall t, ~ isId (taskKey t) -> notIn (prLinkedIssues prs) t = true) /\
  (prs = Absent \/ prs = Malformed ->
   prLinkedIssues prs = ∅ /\
   forall tasks, List.filter (notIn (prLinkedIssues prs)) tasks = tasks).
Proof.
  assert (forall d, d ∈ prLinkedIssues prs -> isId d) as Hid.
  { intros d. destruct prs as [| |l]; simpl; try by intros ?%not_elem_of_empty.
    rewrite foldl_addLinked.
    intros [?%not_elem_of_empty|(pr & _ & [H|[H|H]])]; [done|..].
    - by destruct H as (? & ? & _ & _ & ?).
    - by destruct H as (? & ? & ? & ? & ? & _ & _ & _ & _ & _ & _ & ? & _).
    - by destruct H as (? & ? & ? & _ & _ & ?). }
  split; [done|]. split.
  - intros t Ht. apply notIn_spec. intros H. by apply Ht, Hid.
  - intros [-> | ->]; (split; [done|]); intros tasks; apply filter_notIn_empty.
Qed.

Lemma prLinkedIssues_digits_witness :
  notIn (prLinkedIssues (Document [PullRequest (Some "fix-3") None None]))
    (Task JUndefined (JText "TODO-3") "" None None)
  = true /\
  List.filter (notIn (prLinkedIssues Malformed))
    [Task (JNumber 3) JUndefined "" None None]
  = [Task (JNumber 3) JUndefined "" None None].
Proof.
  split.
  - apply (proj1 (proj2 (prLinkedIssues_digits
                           (Document [PullRequest (Some "fix-3") None None])))).
    intros [_ H]. vm_compute in H. discriminate.
  - apply (proj2 (proj2 (prLinkedIssues_digits Malformed))). by right.
Defined.

(** X9.  The ids linked by two lists of pull requests together are the ids
    linked by either. *)
Theorem prLinkedIssues_app (a b : list pullRequest) :
  prLinkedIssues (Document (a ++ b)%list)
  = prLinkedIssues (Document a) ∪ prLinkedIssues (Document b).
Proof.
  apply set_eq. intros d. rewrite elem_of_union. simpl.
  rewrite !foldl_addLinked. split.
  - intros [?%not_elem_of_empty|(pr & Hin & H)]; [done|].
    apply in_app_or in Hin as [Hin|Hin]; [left | right]; right; by exists pr.
  - intros [[?%not_elem_of_empty|(pr & Hin & H)]|[?%not_elem_of_empty|(pr & Hin & H)]];
      try done; right; exists pr; (split; [|done]); apply in_or_app; auto.
Qed.

End PipelineFacts.

Section RankingFacts.

Import Discover.

Lemma filterByPriority_passes (tasks : list task) (filter : string) :
  filter ∉ objectPrototypeKeys ->
  exists kept,
    filterByPriority tasks filter = Returned kept /\
    kept `sublist_of` tasks /\
    forall t, In t kept <-> In t tasks /\ passesPriority filter t.
Proof.
  intros Hkey. unfold filterByPriority, passesPriority.
  destruct (String.eqb_spec filter "continue") as [->|Hc].
  { exists tasks. repeat split; try done; tauto. }
  destruct (String.eqb_spec filter "all") as [->|Ha].
  { exists tasks. repeat split; try done; tauto. }
  simpl. destruct (LABEL_MAPS !! filter) as [targets|] eqn:E.
  - rewrite (getProperty_own _ _ _ E). eexists.
    split; [reflexivity|]. split; [apply filter_sublist|].
    intros t. rewrite filter_In, matchesTargets_spec. split.
    + intros [Hin (target & Ht & Hl)]. split; [done|]. right; right.
      by exists targets, target.
    + intros [Hin [?|[?|(targets' & target & [= <-] & Ht & Hl)]]]; try done.
      split; [done|]. by exists target.
  - rewrite (getProperty_undefined _ _ E Hkey). exists [].
    split.
    + f_equal. induction tasks as [|t tasks IH]; [done|]. simpl.
      unfold matchesTargets at 1. simpl. exact IH.
    + split; [apply sublist_nil_l|]. intros t. split; [done|].
      by intros [_ [?|[?|(? & ? & ? & _)]]].
Qed.

(** X10.  For every priority filter that is not an inherited property name,
    [topTasks] holds, each with its score, exactly the candidates that are
    not claimed, not linked to an open pull request and pass the priority
    filter: no such candidate is lost and none is added. *)
Theorem topTasks_complete now tasks (claimedIds prLinked : gset string) filter :
  filter ∉ objectPrototypeKeys ->
  exists top kept,
    topTasks now tasks claimedIds prLinked filter = Returned top /\
    Permutation top (map (withScore now) kept) /\
    kept `sublist_of` tasks /\
    forall t, In t kept
              <-> In t tasks /\ (taskKey t ∉ claimedIds) /\
                  (taskKey t ∉ prLinked) /\ passesPriority filter t.
Proof.
  intros Hkey. unfold topTasks.
  destruct (filterByPriority_passes
              (List.filter (notIn prLinked) (List.filter (notIn claimedIds) tasks))
              filter Hkey) as (kept & -> & Hsub & Hkept).
  exists (sort byScore (map (withScore now) kept)), kept.
  split; [done|]. split; [apply sort_perm|]. split.
  - etrans; [exact Hsub|]. etrans; apply filter_sublist.
  - intros t. rewrite Hkept, !filter_In, !notIn_spec. tauto.
Qed.

Lemma topTasks_complete_witness :
  exists top kept,
    topTasks 0 [oldBug 0; critical] ∅ ∅ "security" = Returned top /\
    Permutation top (map (withScore 0) kept) /\
    kept `sublist_of` [oldBug 0; critical] /\
    forall t, In t kept
              <-> In t [oldBug 0; critical] /\
                  (taskKey t ∉ (∅ : gset string)) /\
                  (taskKey t ∉ (∅ : gset string)) /\
                  passesPriority "security" t.
Proof.
  apply (topTasks_complete 0 [oldBug 0; critical] ∅ ∅ "security").
  apply (bool_decide_unpack _). vm_compute. exact I.
Defined.

Lemma insertSorted_descending (x : scored) (l : list scored) :
  StronglySorted (fun a b => score b <= score a) l ->
  StronglySorted (fun a b => score b <= score a) (insertSorted byScore x l).
Proof.
  induction 1 as [|y l Hl IH Hy]; simpl; [repeat constructor|].
  unfold byScore at 1. destruct (Z.ltb_spec 0 (score y - score x)).
  - constructor; [done|]. rewrite (insertSorted_perm byScore x l).
    constructor; [lia | done].
  - constructor; [by constructor|]. constructor; [lia|].
    eapply Forall_impl; [exact Hy|]. simpl. intros z Hz. lia.
Qed.

Lemma sort_descending (l : list scored) :
  StronglySorted (fun a b => score b <= score a) (sort byScore l).
Proof.
  induction l as [|x l IH]; [constructor|].
  rewrite sort_cons. by apply insertSorted_descending.
Qed.

Lemma StronglySorted_across {A} (R : A -> A -> Prop) (l1 l2 : list A) :
  StronglySorted R (l1 ++ l2)%list ->
  forall x y, In x l1 -> In y l2 -> R x y.
Proof.
  induction l1 as [|a l1 IH]; intros H x y Hx Hy; [done|].
  apply StronglySorted_inv in H as [H Ha]. destruct Hx as [<-|Hx].
  - rewrite List.Forall_forall in Ha. apply Ha, in_or_app. by right.
  - by apply IH.
Qed.

(** X11.  The tasks offered are the first five of [topTasks], or all of
    them when there are fewer, and no task left out has a higher score than
    a task offered. *)
Theorem ranked_are_best now tasks (claimedIds prLinked : gset string) filter top :
  topTasks now tasks claimedIds prLinked filter = Returned top ->
  ranked now tasks claimedIds prLinked filter = Returned (take 5 top) /\
  List.length (take 5 top) = Nat.min 5 (List.length top) /\
  forall s s', In s (take 5 top) -> In s' (drop 5 top) -> score s' <= score s.
Proof.
  intros Htop. split; [unfold ranked; by rewrite Htop|].
  split; [apply length_firstn|].
  unfold topTasks, mbind, outcome_bind, mret, outcome_ret in Htop.
  destruct (filterByPriority _ filter) as [kept|e]; [|done].
  injection Htop as <-.
  intros s s' Hs Hs'.
  apply (StronglySorted_across (fun a b => score b <= score a)
           (take 5 (sort byScore (map (withScore now) kept)))
           (drop 5 (sort byScore (map (withScore now) kept)))); [|done..].
  rewrite take_drop. apply sort_descending.
Qed.

Lemma ranked_are_best_witness :
  ranked 0 DiscoverExamples.sevenTasks ∅ ∅ "all"
  = Returned (take 5 DiscoverExamples.sevenRanked) /\
  List.length (take 5 DiscoverExamples.sevenRanked)
  = Nat.min 5 (List.length DiscoverExamples.sevenRanked) /\
  forall s s',
    In s (take 5 DiscoverExamples.sevenRanked) ->
    In s' (drop 5 DiscoverExamples.sevenRanked) ->
    score s' <= score s.
Proof.
  apply (ranked_are_best 0 DiscoverExamples.sevenTasks ∅ ∅ "all").
  vm_compute. reflexivity.
Defined.

Lemma topTasks_members now tasks (claimedIds prLinked : gset string) filter :
  filter ∉ objectPrototypeKeys ->
  exists top,
    topTasks now tasks claimedIds prLinked filter = Returned top /\
    forall t, In (withScore now t) top
              <-> In t tasks /\ (taskKey t ∉ claimedIds) /\
                  (taskKey t ∉ prLinked) /\ passesPriority filter t.
Proof.
  intros Hkey. unfold topTasks.
  destruct (filterByPriority_passes
              (List.filter (notIn prLinked) (List.filter (notIn claimedIds) tasks))
              filter Hkey) as (kept & -> & _ & Hkept).
  eexists. split; [reflexivity|]. intros t.
  assert (In (withScore now t) (sort byScore (map (withScore now) kept))
          <-> In t kept) as ->.
  { split.
    - intros H. apply (Permutation_in _ (sort_perm _ _)), in_map_iff in H
        as (t' & [= <-] & Ht). done.
    - intros H. apply (Permutation_in _ (Permutation_sym (sort_perm _ _))).
      by apply in_map. }
  rewrite Hkept, !filter_In, !notIn_spec. tauto.
Qed.

(** X4.  For a selected task without an issue number, Phase 5 stores the
    text "undefined" as its id, which is not the key that Phase 3 filters
    on unless the task's [id] is that very text.  Claiming the stored id
    therefore does not take the task out of discovery: a task that
    [topTasks] held before the claim it still holds after it. *)
Theorem selected_without_number taskSource (t : task) body url
    now tasks (claimedIds prLinked : gset string) filter top :
  number t = JUndefined -> taskKey t <> "undefined" ->
  filter ∉ objectPrototypeKeys ->
  topTasks now tasks claimedIds prLinked filter = Returned top ->
  In (withScore now t) top ->
  Present.stateId (Present.selectedState taskSource t body url) = "undefined" /\
  exists top',
    topTasks now tasks
      (claimedIds ∪ {[ Present.stateId (Present.selectedState taskSource t body url) ]})
      prLinked filter
    = Returned top' /\
    In (withScore now t) top'.
Proof.
  intros Hnum Hkey Hfilter Htop Hin.
  assert (Present.stateId (Present.selectedState taskSource t body url)
          = "undefined") as Hid.
  { unfold Present.selectedState. simpl. by rewrite Hnum. }
  split; [done|]. rewrite Hid.
  destruct (topTasks_members now tasks claimedIds prLinked filter Hfilter)
    as (top0 & Htop0 & Hmem).
  rewrite Htop in Htop0. injection Htop0 as <-.
  destruct (topTasks_members now tasks (claimedIds ∪ {[ "undefined" ]})
              prLinked filter Hfilter) as (top' & Htop' & Hmem').
  exists top'. split; [done|].
  apply Hmem'. apply Hmem in Hin as (? & ? & ? & ?).
  split; [done|]. split; [|done].
  rewrite elem_of_union, elem_of_singleton. tauto.
Qed.

Lemma selected_without_number_witness :
  Present.stateId
    (Present.selectedState Policy.SourceNull
       (Task JUndefined (JText "TODO-3") "Write the docs" None None) None None)
  = "undefined" /\
  exists top',
    topTasks 0 [Task JUndefined (JText "TODO-3") "Write the docs" None None]
      (∅ ∪ {[ Present.stateId
                (Present.selectedState Policy.SourceNull
                   (Task JUndefined (JText "TODO-3") "Write the docs" None None)
                   None None) ]})
      ∅ "all"
    = Returned top' /\
    In (withScore 0 (Task JUndefined (JText "TODO-3") "Write the docs" None None))
       top'.
Proof.
  apply (selected_without_number Policy.SourceNull
           (Task JUndefined (JText "TODO-3") "Write the docs" None None)
           None None 0
           [Task JUndefined (JText "TODO-3") "Write the docs" None None]
           ∅ ∅ "all"
           [Scored (Task JUndefined (JText "TODO-3") "Write the docs" None None) 0]).
  - reflexivity.
  - intros H. vm_compute in H. discriminate.
  - apply (bool_decide_unpack _). vm_compute. exact I.
  - vm_compute. reflexivity.
  - by left.
Defined.

End RankingFacts.

(** ** Resume: what is resolved and what is done *)

Section ResumeMoreFacts.

Import Resume.

Lemma find_in (p : claim -> bool) (tasks : list claim) (t : claim) :
  find p tasks = Some t -> In t tasks /\ p t = true.
Proof.
  induction tasks as [|x tasks IH]; simpl; [done|].
  destruct (p x) eqn:E.
  - intros [= <-]. by split; [left|].
  - intros H. destruct (IH H). by split; [right|].
Qed.

(** X12.  Whatever the argument, a worktree that resolution returns is
    that of a claim of the registry, or else the argument itself, a
    non-empty path that exists, with no task.  On a registry file that is
    not JSON resolution throws a [SyntaxError], and without a registry file
    it returns [null], whatever the argument. *)
Theorem findWorktreeToResume_sound (d : disk) (arg : option string) :
  (forall wt, findWorktreeToResume d arg = Returned (Some wt) ->
     exists tasks, registry d = Document tasks /\
       ((exists t, In t tasks /\ wt = ofClaim t) \/
        (exists a, arg = Some a /\ a <> "" /\ pathExists d a = true /\
                   wt = Worktree a None))) /\
  (registry d = Malformed -> findWorktreeToResume d arg = Thrown SyntaxError) /\
  (registry d = Absent -> findWorktreeToResume d arg = Returned None).
Proof.
  unfold findWorktreeToResume. destruct (registry d) as [| |tasks] eqn:Hreg.
  - by repeat split.
  - by repeat split.
  - assert (forall wt,
      match find (idIs arg) tasks with
      | Some byId => Returned (Some (ofClaim byId))
      | None =>
          match find (branchIs arg) tasks with
          | Some byBranch => Returned (Some (ofClaim byBranch))
          | None =>
              match arg with
              | Some a =>
                  if negb (String.eqb a "") && pathExists d a
                  then Returned (Some (Worktree a None))
                  else Returned None
              | None => Returned None
              end
          end
      end = Returned (Some wt) ->
      (exists t, In t tasks /\ wt = ofClaim t) \/
      (exists a, arg = Some a /\ a <> "" /\ pathExists d a = true /\
                 wt = Worktree a None)) as Hsearch.
    { intros wt. destruct (find (idIs arg) tasks) as [t|] eqn:Eid.
      { intros [= <-]. left. exists t. by destruct (find_in _ _ _ Eid). }
      destruct (find (branchIs arg) tasks) as [t|] eqn:Ebr.
      { intros [= <-]. left. exists t. by destruct (find_in _ _ _ Ebr). }
      destruct arg as [a|]; [|done].
      destruct (String.eqb_spec a ""); simpl; [done|].
      destruct (pathExists d a) eqn:Ep; [|done].
      intros [= <-]. right. by exists a. }
    split; [|by split].
    intros wt H. exists tasks. split; [done|].
    destruct (noArgument arg); [|by apply Hsearch].
    destruct tasks as [|only [|second rest]]; try by apply Hsearch.
    injection H as <-. left. exists only. by split; [left|].
Qed.

Lemma findWorktreeToResume_sound_witness :
  exists tasks, registry Examples.twoClaims = Document tasks /\
    ((exists t, In t tasks /\ ofClaim Examples.claimB = ofClaim t) \/
     (exists a, Some "crash-102" = Some a /\ a <> "" /\
                pathExists Examples.twoClaims a = true /\
                ofClaim Examples.claimB = Worktree a None)).
Proof.
  apply (proj1 (findWorktreeToResume_sound Examples.twoClaims (Some "crash-102"))).
  reflexivity.
Defined.



(** X14.  The phase to resume from is always one of the phases after the
    worktree setup, never "policy-selection", "task-discovery" or
    "worktree-setup"; the only other answers are the built-ins reached by a
    step named like an inherited property. *)
Theorem mapStepToPhase_range (step : string) :
  (forall phase, mapStepToPhase step = Value phase ->
     In phase (drop 3 canonicalPhases)) /\
  (forall key, mapStepToPhase step = Builtin key ->
     key = step /\ step ∈ objectPrototypeKeys).
Proof.
  unfold mapStepToPhase, getProperty.
  destruct (stepToPhase !! step) as [v|] eqn:E.
  - split; [|done]. intros phase [= <-].
    destruct (stepToPhase_phase _ _ E) as [_ Hne].
    destruct (String.eqb_spec v ""); [done|].
    apply elem_of_list_to_map_2 in E.
    repeat (apply elem_of_cons in E as [E|E];
            [injection E as _ ->; simpl; tauto|]).
    by apply elem_of_nil in E.
  - destruct (bool_decide (step ∈ objectPrototypeKeys)) eqn:B.
    + split; [done|]. intros key [= <-]. split; [done|].
      by apply bool_decide_eq_true in B.
    + split; [|done]. intros phase [= <-]. simpl. tauto.
Qed.

Lemma mapStepToPhase_range_witness :
  In "ship" (drop 3 canonicalPhases).
Proof.
  apply (proj1 (mapStepToPhase_range "docs-updated") "ship"). reflexivity.
Defined.

End ResumeMoreFacts.

(** ** Policy parsing: the preference cache and the project follow-up *)

Section PolicyMoreFacts.

Import JsString Policy.

Lemma all_impl (p q : ascii -> bool) (s : string) :
  (forall c, p c = true -> q c = true) -> all p s = true -> all q s = true.
Proof.
  intros Hpq. induction s as [|c s IH]; [done|]. simpl.
  intros [Hc Hs]%andb_prop. by rewrite (Hpq _ Hc), IH.
Qed.

Lemma all_take (p : ascii -> bool) (n : nat) (s : string) :
  all p s = true -> all p (take n s) = true.
Proof.
  revert s. induction n as [|n IH]; intros [|c s]; simpl; try done.
  intros [Hc Hs]%andb_prop. by rewrite Hc, IH.
Qed.

Lemma safeText_printable (n : nat) (s : string) :
  all isPrintable (safeText n s) = true /\
  String.length (safeText n s) = Nat.min n (String.length s).
Proof.
  unfold safeText. split.
  - apply all_take. induction s as [|c s IH]; [done|]. simpl.
    rewrite IH. by destruct (isPrintable c) eqn:E; rewrite ?E.
  - rewrite length_take_string. f_equal.
    induction s as [|c s IH]; [done|]. simpl. by rewrite IH.
Qed.

Lemma digit_code (c : ascii) :
  isDigit c = true -> (48 <= code c <= 57)%N.
Proof. unfold isDigit, inRange. intros [?%N.leb_le ?%N.leb_le]%andb_prop. lia. Qed.

Lemma valueFrom_ge (acc : Z) (s : string) :
  0 <= acc -> all isDigit s = true -> acc <= valueFrom acc s.
Proof.
  revert acc. induction s as [|c s IH]; intros acc Hacc; simpl; [lia|].
  intros [Hc%digit_code Hs]%andb_prop.
  etrans; [|apply IH; [lia | done]]. lia.
Qed.

(** The number that an accepted project number stands for is at least 1. *)
Lemma isPositiveInteger_value (s : string) :
  isPositiveInteger s = true -> 1 <= toZ s.
Proof.
  destruct s as [|c s]; [done|]. rewrite toZ_valueFrom. simpl.
  unfold inRange. intros [[Hlo%N.leb_le _]%andb_prop Hs]%andb_prop.
  etrans; [|apply valueFrom_ge; [lia | done]]. lia.
Qed.

Lemma mergeProject_complete (c c' : sourceConfig) project :
  mergeProject c project = Returned c' ->
  source c' = source c /\
  exists n o, projectNumber c' = Some n /\ n <> 0 /\
              owner c' = Some o /\ o <> "" /\
              (forall pr, project = Some pr ->
                 1 <= n /\ o = trim (default "" (projectOwner pr)) /\
                 isOwnerName o = true).
Proof.
  unfold mergeProject. destruct project as [pr|].
  - destruct (isPositiveInteger (trim (projectNumberText pr))) eqn:Hnum;
      simpl; [|done].
    destruct (String.eqb_spec (trim (default "" (projectOwner pr))) "")
      as [|Hne]; simpl; [done|].
    destruct (isOwnerName (trim (default "" (projectOwner pr)))) eqn:Hown;
      simpl; [|done].
    intros [= <-]. simpl. split; [done|].
    apply isPositiveInteger_value in Hnum.
    eexists _, _. split; [done|]. split; [lia|]. split; [done|].
    split; [done|]. intros pr' [= <-]. by split.
  - destruct (projectNumber c) as [n|] eqn:Hn; simpl; [|done].
    destruct (Z.eqb_spec n 0) as [|Hn0]; simpl; [done|].
    destruct (owner c) as [o|] eqn:Ho; simpl; [|done].
    destruct (String.eqb_spec o "") as [|Ho0]; simpl; [done|].
    intros [= <-]. split; [done|]. by exists n, o.
Qed.

(** X15.  [parseAndCachePolicy] saves a preference at most once, and only
    the source of the policy it returns: nothing is saved when it throws,
    nothing when the source is the ad-hoc "other", and the returned source
    in every other case. *)
Theorem parseAndCachePolicy_saves mapType build cached (r : responses) :
  let result := parseAndCachePolicy mapType build cached r in
  (forall e, result.1 = Thrown e -> result.2 = []) /\
  (forall p, result.1 = Returned p ->
     policyTaskSource p <> SourceNull /\
     result.2 =
       match policyTaskSource p with
       | SourceObject c =>
           if String.eqb (source c) "other" then [] else [SourceObject c]
       | saved => [saved]
       end).
Proof.
  unfold parseAndCachePolicy.
  destruct (mapSource mapType build cached (responseSource r) (responseCustom r))
    as [|c|k]; simpl.
  - by split.
  - destruct (String.eqb_spec (source c) "gh-projects") as [Hgh|Hgh].
    + destruct (mergeProject c (responseProject r)) as [c'|e] eqn:Hmerge;
        simpl; [|by split].
      split; [done|]. intros p [= <-]. simpl. split; [done|].
      apply mergeProject_complete
        in Hmerge as (Hsrc & n & o & -> & Hn & -> & Ho & _).
      rewrite Hsrc, Hgh.
      destruct (Z.eqb_spec n 0); [done|].
      by destruct (String.eqb_spec o "").
    + destruct (String.eqb (source c) "other") eqn:Hother; simpl.
      * split; [done|]. intros p [= <-]. simpl. by rewrite Hother.
      * split; [done|]. intros p [= <-]. simpl. by rewrite Hother.
  - split; [done|]. by intros p [= <-].
Qed.

Lemma parseAndCachePolicy_saves_witness :
  (parseAndCachePolicy (fun t => t) (fun _ _ => plainSource "custom") None
     (Responses "Other" "All" "Merged" None None)).2 = [].
Proof.
  exact (proj2
           (proj2 (parseAndCachePolicy_saves (fun t => t)
                     (fun _ _ => plainSource "custom") None
                     (Responses "Other" "All" "Merged" None None))
              (MkPolicy
                 (SourceObject
                    (SourceConfig "other" None None (Some "") None None))
                 (Value "all") (Value "merged"))
              eq_refl)).
Defined.

(** X16.  A policy for GitHub Projects that [parseAndCachePolicy] returns
    always carries a project number other than 0 and a non-empty owner, and
    that source is saved.  When the follow-up answers were given, the number
    is at least 1 and the owner is the trimmed answer, [@me] or a name of
    letters, digits, [_] and [-] that starts with a letter or digit. *)
Theorem gh_projects_policy_is_complete mapType build cached (r : responses)
    (p : policy) (c : sourceConfig) saved :
  parseAndCachePolicy mapType build cached r = (Returned p, saved) ->
  policyTaskSource p = SourceObject c -> source c = "gh-projects" ->
  saved = [SourceObject c] /\
  exists n o, projectNumber c = Some n /\ n <> 0 /\
              owner c = Some o /\ o <> "" /\
              (forall pr, responseProject r = Some pr ->
                 1 <= n /\ o = trim (default "" (projectOwner pr)) /\
                 isOwnerName o = true).
Proof.
  unfold parseAndCachePolicy.
  destruct (mapSource mapType build cached (responseSource r) (responseCustom r))
    as [|c0|k]; [done| |by intros [= <- _] [=]].
  destruct (String.eqb_spec (source c0) "gh-projects") as [Hgh|Hgh].
  - destruct (mergeProject c0 (responseProject r)) as [c'|e] eqn:Hmerge;
      [|done].
    intros [= <- <-] [= ->] _.
    apply mergeProject_complete in Hmerge as (Hsrc & n & o & Hn & Hn0 & Ho & Ho0 & Hpr).
    split; [|by exists n, o].
    rewrite Hn, Ho. destruct (Z.eqb_spec n 0); [done|].
    by destruct (String.eqb_spec o "").
  - destruct (String.eqb (source c0) "other");
      by intros [= <- _] [= ->] ?.
Qed.

Lemma gh_projects_policy_is_complete_witness :
  exists n o, Some 42 = Some n /\ n <> 0 /\ Some "my-org" = Some o /\ o <> "" /\
    (forall pr, Some (ProjectDetails " 42" (Some "my-org ")) = Some pr ->
       1 <= n /\ o = trim (default "" (projectOwner pr)) /\
       isOwnerName o = true).
Proof.
  apply (gh_projects_policy_is_complete (fun t => t)
           (fun _ _ => plainSource "custom") None
           (Responses "GitHub Projects" "All" "Merged" None
              (Some (ProjectDetails " 42" (Some "my-org "))))
           (MkPolicy
              (SourceObject
                 (SourceConfig "gh-projects" (Some 42) (Some "my-org")
                    None None None))
              (Value "all") (Value "merged"))
           (SourceConfig "gh-projects" (Some 42) (Some "my-org") None None None)
           [SourceObject
              (SourceConfig "gh-projects" (Some 42) (Some "my-org")
                 None None None)]);
    reflexivity.
Defined.

(** X17.  Every error of the project follow-up is an [Error] whose message
    is printable ASCII of at most 119 characters, whatever the answers
    contain: the text quoted from an answer is cut to 32 or 64 characters
    and its other characters are replaced. *)
Theorem project_errors_are_printable (c : sourceConfig) project (e : exception) :
  mergeProject c project = Thrown e ->
  exists msg, e = Error msg /\ all isPrintable msg = true /\
              (String.length msg <= 119)%nat.
Proof.
  unfold mergeProject. destruct project as [pr|].
  - destruct (negb (isPositiveInteger (trim (projectNumberText pr)))).
    + intros [= <-]. eexists. split; [done|].
      destruct (safeText_printable 32 (projectNumberText pr)) as [Hp Hl].
      rewrite !all_app, !length_append, Hp, Hl. split; [done|].
      change (String.length "Invalid project number: ") with 24%nat.
      change (String.length quote) with 1%nat.
      change (String.length ". Must be a positive integer.") with 29%nat.
      lia.
    + destruct (String.eqb _ "" || negb (isOwnerName _)); [|done].
      intros [= <-]. eexists. split; [done|].
      destruct (safeText_printable 64 (default "" (projectOwner pr))) as [Hp Hl].
      rewrite !all_app, !length_append, Hp, Hl. split; [done|].
      change (String.length "Invalid project owner: ") with 23%nat.
      change (String.length quote) with 1%nat.
      change (String.length " (use @me or an org/user name)") with 30%nat.
      lia.
  - destruct (_ || _); [|done].
    intros [= <-]. eexists. split; [done|]. split; [done|].
    apply Nat.leb_le. vm_compute. reflexivity.
Qed.

Lemma project_errors_are_printable_witness :
  exists msg,
    Error "GitHub Projects source requires project number and owner. Call getProjectQuestions() first."
    = Error msg /\ all isPrintable msg = true /\ (String.length msg <= 119)%nat.
Proof.
  apply (project_errors_are_printable (plainSource "gh-projects") None).
  reflexivity.
Defined.

Lemma all_rev_append (p : ascii -> bool) (s acc : string) :
  all p (rev_append s acc) = all p s && all p acc.
Proof.
  revert acc. induction s as [|c s IH]; intros acc; [done|]. simpl.
  rewrite IH. simpl. by destruct (p c), (all p s).
Qed.

Lemma rev_append_rev_append (s a b : string) :
  rev_append (rev_append s a) b = rev_append a (s ++ b).
Proof.
  revert a. induction s as [|c s IH]; intros a.
  - by rewrite append_nil_l.
  - simpl. rewrite IH. simpl. by rewrite append_cons.
Qed.

Lemma dropWhile_first (s : string) :
  all (fun c => negb (isSpace c)) s = true -> dropWhile isSpace s = s.
Proof.
  destruct s as [|c s]; [done|]. simpl. by destruct (isSpace c).
Qed.

(** [trim] leaves a text without white space as it is. *)
Lemma trim_nonspace (s : string) :
  all (fun c => negb (isSpace c)) s = true -> trim s = s.
Proof.
  intros H. unfold trim. rewrite (dropWhile_first s H).
  rewrite dropWhile_first.
  - unfold rev. by rewrite rev_append_rev_append, append_nil_r.
  - unfold rev. by rewrite all_rev_append, H.
Qed.

Lemma digit_not_space (c : ascii) : isDigit c = true -> negb (isSpace c) = true.
Proof.
  intros H%digit_code. unfold isSpace, inRange.
  destruct (N.leb_spec (code c) 13), (N.eqb_spec (code c) 32),
    (N.eqb_spec (code c) 160); try lia.
Qed.

Lemma all_digitsOf (fuel : nat) (n : N) (acc : string) :
  all isDigit acc = true -> all isDigit (digitsOf fuel n acc) = true.
Proof.
  assert (forall m, isDigit (ascii_of_N (48 + m mod 10)) = true) as Hdigit.
  { intros m. unfold isDigit, inRange.
    assert (m mod 10 < 10)%N as Hr by (apply N.mod_lt; lia).
    rewrite code_digit by done. revert Hr. generalize (m mod 10)%N.
    intros d Hd. apply andb_true_intro. split; apply N.leb_le; lia. }
  assert (forall m s, all isDigit s = true ->
            all isDigit (String (ascii_of_N (48 + m mod 10)) s) = true) as Hcons.
  { intros m s Hs. change (isDigit (ascii_of_N (48 + m mod 10)) && all isDigit s = true).
    by rewrite Hdigit. }
  revert n acc. induction fuel as [|fuel IH]; intros n acc Hacc.
  - by apply Hcons.
  - change (all isDigit
              (if (n <? 10)%N then String (ascii_of_N (48 + n mod 10)) acc
               else digitsOf fuel (n / 10) (String (ascii_of_N (48 + n mod 10)) acc))
            = true).
    destruct (n <? 10)%N; [by apply Hcons|]. by apply IH, Hcons.
Qed.

Lemma digitsOf_leading (fuel : nat) :
  forall (n : N) (acc : string),
    (1 <= n < 2 ^ (N.of_nat fuel + 1))%N ->
    exists r rest, (1 <= r < 10)%N /\
      digitsOf fuel n acc = String (ascii_of_N (48 + r)) rest.
Proof.
  induction fuel as [|fuel IH]; intros n acc Hn; simpl.
  - exists (n mod 10)%N, acc. split; [|done].
    simpl in Hn. rewrite N.mod_small; lia.
  - destruct (N.ltb_spec n 10) as [Hsmall|Hbig].
    + exists (n mod 10)%N, acc. split; [|done]. rewrite N.mod_small; lia.
    + apply IH. split.
      * apply N.div_le_lower_bound; lia.
      * replace (N.of_nat (S fuel) + 1)%N with (N.succ (N.of_nat fuel + 1))%N
          in Hn by lia.
        rewrite N.pow_succ_r' in Hn.
        apply N.Div0.div_lt_upper_bound. lia.
Qed.

Lemma isPositiveInteger_ofZ (n : Z) : 1 <= n -> isPositiveInteger (ofZ n) = true.
Proof.
  intros Hn. unfold ofZ. destruct (Z.ltb_spec n 0) as [?|_]; [lia|].
  pose proof (all_digitsOf (N.to_nat (N.log2 (Z.to_N (Z.abs n))))
                (Z.to_N (Z.abs n)) "" eq_refl) as Hall.
  destruct (digitsOf_leading (N.to_nat (N.log2 (Z.to_N (Z.abs n))))
              (Z.to_N (Z.abs n)) "") as (d & rest & Hd & Heq).
  { split; [lia|]. rewrite N2Nat.id.
    replace (N.log2 (Z.to_N (Z.abs n)) + 1)%N
      with (N.succ (N.log2 (Z.to_N (Z.abs n)))) by lia.
    apply N.log2_spec. lia. }
  rewrite Heq in *. simpl in *.
  apply andb_prop in Hall as [_ ->]. rewrite andb_true_r.
  unfold inRange. rewrite code_digit by lia.
  apply andb_true_intro. split; apply N.leb_le; lia.
Qed.

Lemma isOwnerName_nonspace (o : string) :
  isOwnerName o = true -> o <> "" /\ all (fun c => negb (isSpace c)) o = true.
Proof.
  unfold isOwnerName. intros [->%String.eqb_eq|H]%orb_prop; [done|].
  destruct o as [|c o]; [done|]. split; [done|].
  apply andb_prop in H as [[Hc _]%andb_prop Ho]. simpl.
  apply andb_true_intro. split.
  - destruct (isSpace c) eqn:E; [|done].
    apply space_not_word in E. congruence.
  - revert Ho. apply all_impl. intros x [Hx|Hx%N.eqb_eq]%orb_prop.
    + destruct (isSpace x) eqn:E; [|done].
      apply space_not_word in E. congruence.
    + unfold isSpace, inRange. by rewrite Hx.
Qed.

(** X18.  A project number from 1 up to the largest safe integer, given as
    a number, and an owner of the accepted form are taken over as they are:
    the follow-up stores that very number and owner and leaves the rest of
    the source configuration alone. *)
Theorem project_answers_round_trip (c : sourceConfig) (n : Z) (o : string) :
  1 <= n <= 9007199254740991 -> isOwnerName o = true ->
  mergeProject c (Some (ProjectDetails (ofZ n) (Some o)))
  = Returned (SourceConfig (source c) (Some n) (Some o)
                (description c) (tool c) (toolType c)).
Proof.
  intros [Hn _] Ho. unfold mergeProject. simpl.
  pose proof (isPositiveInteger_ofZ n Hn) as Hpos.
  assert (trim (ofZ n) = ofZ n) as ->.
  { apply trim_nonspace. destruct (ofZ n) as [|d ds]; [done|].
    simpl in Hpos. apply andb_prop in Hpos as [Hd Hds]. simpl.
    apply andb_true_intro. split.
    - apply digit_not_space. unfold isDigit, inRange in *.
      apply andb_prop in Hd as [Hlo%N.leb_le ->]. rewrite andb_true_r.
      apply N.leb_le. lia.
    - revert Hds. apply all_impl, digit_not_space. }
  rewrite Hpos. simpl.
  destruct (isOwnerName_nonspace o Ho) as [Hne Hns].
  rewrite (trim_nonspace o Hns), Ho.
  destruct (String.eqb_spec o ""); [done|]. simpl.
  by rewrite toZ_ofZ by lia.
Qed.

Lemma project_answers_round_trip_witness :
  mergeProject (plainSource "gh-projects")
    (Some (ProjectDetails (ofZ 42) (Some "@me")))
  = Returned (SourceConfig "gh-projects" (Some 42) (Some "@me") None None None).
Proof.
  apply (project_answers_round_trip (plainSource "gh-projects") 42 "@me").
  - lia.
  - reflexivity.
Defined.

End PolicyMoreFacts.

(** ** The command: arguments, dispatch and the step journal *)

Section CommandFacts.

Import JsString.
Import Command.

Lemma split_first (sep : ascii) (s : string) :
  exists first rest, split sep s = first :: rest.
Proof.
  destruct s as [|c s]; simpl; [by eexists _, _|].
  destruct (Ascii.eqb c sep); [by eexists _, _|].
  destruct (split sep s); by eexists _, _.
Qed.

Lemma split_app (sep : ascii) (a b : string) :
  split sep (a ++ String sep b) = (split sep a ++ split sep b)%list.
Proof.
  induction a as [|c a IH].
  - rewrite append_nil_l. simpl. by rewrite Ascii.eqb_refl.
  - rewrite append_cons. simpl. rewrite IH.
    destruct (Ascii.eqb c sep); [done|].
    by destruct (split_first sep a) as (first & rest & ->).
Qed.

Lemma split_pieces (sep : ascii) (s a : string) :
  In a (split sep s) -> all (fun c => negb (Ascii.eqb c sep)) a = true.
Proof.
  revert a. induction s as [|c s IH]; intros a; simpl.
  - by intros [<-|[]].
  - destruct (Ascii.eqb c sep) eqn:E.
    + intros [<-|H]; [done | by apply IH].
    + destruct (split sep s) as [|first rest].
      * intros [<-|[]]. simpl. by rewrite E.
      * intros [<-|H].
        -- simpl. rewrite E. simpl. apply IH. by left.
        -- apply IH. by right.
Qed.

Lemma split_whole (sep : ascii) (a : string) :
  all (fun c => negb (Ascii.eqb c sep)) a = true -> split sep a = [a].
Proof.
  induction a as [|c a IH]; [done|]. simpl.
  intros [Hc Ha]%andb_prop. apply negb_true_iff in Hc. rewrite Hc.
  by rewrite IH.
Qed.

Lemma arguments_app (a b : string) :
  arguments (a ++ " " ++ b) = (arguments a ++ arguments b)%list.
Proof.
  unfold arguments. change (" " ++ b) with (String " " b).
  by rewrite split_app, List.filter_app.
Qed.

Lemma arguments_word (a : string) :
  a <> "" -> spaceFree a -> arguments a = [a].
Proof.
  intros Hne Ha. unfold arguments. rewrite (split_whole _ _ Ha). simpl.
  by destruct (String.eqb_spec a "").
Qed.

(** X19.  The arguments of the command are the words of its text: each is
    non-empty and has no space in it, and a text made by joining words with
    single spaces gives back exactly those words.  Further spaces change
    nothing: the arguments of two texts joined by a space are those of the
    first followed by those of the second. *)
Theorem arguments_are_the_words :
  (forall text a, In a (arguments text) -> a <> "" /\ spaceFree a) /\
  (forall words,
     Forall (fun w => w <> "" /\ spaceFree w) words ->
     arguments (joinWords words) = words) /\
  (forall a b, arguments (a ++ " " ++ b) = (arguments a ++ arguments b)%list).
Proof.
  split; [|split].
  - intros text a [Hin Hne]%filter_In. split.
    + intros ->. done.
    + by apply (split_pieces _ text).
  - induction 1 as [|w words [Hne Hw] Hwords IH]; [done|].
    destruct words as [|w' words]; [by apply arguments_word|].
    change (joinWords (w :: w' :: words))
      with (w ++ " " ++ joinWords (w' :: words)).
    by rewrite arguments_app, IH, arguments_word.
  - apply arguments_app.
Qed.

Lemma arguments_are_the_words_witness :
  arguments (joinWords ["--resume"; "123"]) = ["--resume"; "123"].
Proof.
  apply (proj1 (proj2 arguments_are_the_words) ["--resume"; "123"]).
  repeat constructor; done.
Defined.

Lemma hasFlag_spec (args : list string) (flag : string) :
  hasFlag args flag = true <-> In flag args.
Proof.
  unfold hasFlag. rewrite existsb_exists. split.
  - by intros (x & Hx & ->%String.eqb_eq).
  - intros H. exists flag. by rewrite String.eqb_refl.
Qed.

Lemma resumeArgument_spec (args : list string) :
  In "--resume" args ->
  exists before after,
    args = (before ++ "--resume" :: after)%list /\
    ~ In "--resume" before /\
    Resume.resumeArgument args = head after.
Proof.
  induction args as [|a args IH]; [done|]. simpl.
  destruct (String.eqb_spec a "--resume") as [->|Hne].
  - intros _. exists [], args. split; [done|]. split; [by intros []|done].
  - intros [?|H]; [done|].
    destruct (IH H) as (before & after & -> & Hb & Hr).
    exists (a :: before), after. split; [done|]. split; [|done].
    by intros [?|?].
Qed.

(** X20.  The pre-flight resumes exactly when the arguments contain
    [--resume] and neither [--status] nor [--abort], wherever these stand;
    the value it resolves is then the argument that follows the first
    [--resume], whatever that is, and [undefined] when nothing follows. *)
Theorem preflight_resumes (args : list string) (a : option string) :
  preflight args = ResumeFrom a <->
  ~ In "--status" args /\ ~ In "--abort" args /\
  exists before after,
    args = (before ++ "--resume" :: after)%list /\
    ~ In "--resume" before /\ a = head after.
Proof.
  unfold preflight.
  destruct (hasFlag args "--status") eqn:Hs.
  { apply hasFlag_spec in Hs. split; [done | by intros [? _]]. }
  destruct (hasFlag args "--abort") eqn:Ha.
  { apply hasFlag_spec in Ha. split; [done | by intros (_ & ? & _)]. }
  assert (~ In "--status" args) as Hs'.
  { intros H%hasFlag_spec. congruence. }
  assert (~ In "--abort" args) as Ha'.
  { intros H%hasFlag_spec. congruence. }
  destruct (hasFlag args "--resume") eqn:Hr.
  - apply hasFlag_spec in Hr.
    destruct (resumeArgument_spec args Hr) as (before & after & Hargs & Hb & Harg).
    split.
    + intros [= <-]. repeat split; try done. by exists before, after.
    + intros (_ & _ & before' & after' & Hargs' & Hb' & ->).
      f_equal. rewrite Harg.
      assert (before = before' /\ after = after') as [_ ->]; [|done].
      clear Harg Hr Hs Ha Hs' Ha'. subst args. revert before' Hargs' Hb'.
      induction before as [|x before IH]; intros [|y before'] Heq Hb'.
      * by injection Heq as <-.
      * injection Heq as <- _. destruct Hb'. by left.
      * injection Heq as -> _. destruct Hb. by left.
      * injection Heq as <- Heq.
        destruct (IH (fun H => Hb (or_intror H)) before' Heq
                    (fun H => Hb' (or_intror H))) as [<- <-].
        done.
  - split; [done|]. intros (_ & _ & before & after & -> & _).
    assert (hasFlag (before ++ "--resume" :: after) "--resume" = true) as H.
    { apply hasFlag_spec, in_or_app. right. by left. }
    congruence.
Qed.

Lemma preflight_resumes_witness :
  preflight ["--implement"; "--resume"; "--base=dev"] = ResumeFrom (Some "--base=dev").
Proof.
  apply (proj2 (preflight_resumes ["--implement"; "--resume"; "--base=dev"]
                  (Some "--base=dev"))).
  split; [by intros [?|[?|[?|[]]]]|]. split; [by intros [?|[?|[?|[]]]]|].
  exists ["--implement"], ["--base=dev"]. split; [done|].
  split; [by intros [?|[]] | done].
Defined.

Section Journal.

Context {R : Type} (clock : nat -> string).

Lemma recordStep_step (dir stepName status : string) (result : option R)
    (w w' : world R) :
  recordStep clock dir stepName status result w = Returned w' ->
  (clockReads w < clockReads w')%nat /\
  exists state log entry wf,
    statusFiles w dir = Document state /\ steps state = Some log /\
    step entry = stepName /\ Command.status entry = status /\
    (forall p,
       statusFiles w' p =
         if String.eqb p dir
         then Document
                (StatusDocument (Some (log ++ [entry])%list) (task state)
                   (git state) (Some wf)
                   (Some (ResumeState (Some stepName))))
         else statusFiles w p).
Proof.
  unfold recordStep. destruct (statusFiles w dir) as [| |state]; try done.
  destruct (steps state) as [log|] eqn:Hlog; [|done].
  destruct (workflow state); [|done]. destruct (resume state); [|done].
  intros [= <-]. simpl. split; [destruct (String.eqb status "completed"); lia|].
  eexists state, log, (StepEntry _ _ _ _ _), _.
  split; [done|]. split; [done|]. split; [reflexivity|].
  split; [reflexivity|]. intros p. reflexivity.
Qed.

(** X21.  After [recordStep] has recorded a step in a worktree whose
    status file has its task and git objects, a resume that resolves to
    that worktree continues from the phase that [mapStepToPhase] gives for
    the step just recorded, whatever status was recorded with it, and
    changes to that directory.  [recordStep] does not look at the task and
    git objects: where one of them is missing it succeeds all the same, and
    the resume then throws a [TypeError]. *)
Theorem recordStep_then_resume (dir stepName status : string)
    (result : option R) (w w' : world R) (state : statusDocument R)
    (registry : file (list Resume.claim)) (pathExists : string -> bool)
    (arg : option string) (wt : Resume.worktree) :
  statusFiles w dir = Document state ->
  recordStep clock dir stepName status result w = Returned w' ->
  Resume.findWorktreeToResume (diskOf registry pathExists w') arg
    = Returned (Some wt) ->
  Resume.path wt = dir ->
  (is_Some (task state) -> is_Some (git state) ->
   (Resume.resume (diskOf registry pathExists w') arg).1
     = Returned (Some (Resume.mapStepToPhase stepName)) /\
   In (Resume.Chdir dir)
      (Resume.resume (diskOf registry pathExists w') arg).2) /\
  (task state = None \/ git state = None ->
   Resume.resume (diskOf registry pathExists w') arg = (Thrown TypeError, [])).
Proof.
  intros Hstate
    (_ & state' & log & entry & wf & Hdoc & _ & Hstep & _ & Hfiles)%recordStep_step
    Hfind Hdir.
  rewrite Hstate in Hdoc. injection Hdoc as <-.
  unfold Resume.resume. rewrite Hfind.
  cbn [diskOf Resume.statusFile]. rewrite Hdir, Hfiles, String.eqb_refl.
  cbn [statusOf steps task git workflow Resume.steps Resume.statusTask
       Resume.git Resume.workflow].
  unfold Resume.lastOf. rewrite List.map_app.
  change (map checkpointOf [entry]) with [checkpointOf entry].
  rewrite last_snoc. cbn [checkpointOf Resume.step]. rewrite Hstep. split.
  - intros [? ->] [? ->]. split; [done|]. right. by left.
  - intros [->| ->]; [done|]. by destruct (task state).
Qed.

(** X22.  Over any number of calls, in whatever directories, [recordStep]
    only ever adds to a log: a status file that could be read keeps its
    task, its branch and all its earlier steps in their order, and a file
    that was missing or unreadable stays so.  The clock is never read
    backwards. *)
Theorem recordStep_keeps_history (w w' : world R) :
  rtc (recorded clock) w w' ->
  (clockReads w <= clockReads w')%nat /\
  forall dir,
    match statusFiles w dir with
    | Document s =>
        exists s',
          statusFiles w' dir = Document s' /\
          task s' = task s /\ git s' = git s /\
          match steps s with
          | Some log => exists added, steps s' = Some (log ++ added)%list
          | None => s' = s
          end
    | Absent => statusFiles w' dir = Absent
    | Malformed => statusFiles w' dir = Malformed
    end.
Proof.
  induction 1 as [w|w w1 w' Hcall _ [IHt IH]].
  - split; [lia|]. intros dir. destruct (statusFiles w dir) as [| |s]; try done.
    exists s. split; [done|]. split; [done|]. split; [done|].
    destruct (steps s) as [log|]; [|done]. exists []. by rewrite app_nil_r.
  - destruct Hcall as [d stepName status result Hcall].
    apply recordStep_step
      in Hcall as (Hlt & state & log & entry & wf & Hdoc & Hlog & _ & _ & Hfiles).
    split; [lia|]. intros dir. specialize (IH dir). rewrite (Hfiles dir) in IH.
    destruct (String.eqb_spec dir d) as [Heq|Hne]; [|done].
    rewrite Heq, Hdoc, Hlog. destruct IH as (s' & Hs' & Htask & Hgit & added & Hsteps).
    exists s'. subst dir. split; [done|]. split; [done|]. split; [done|].
    exists (entry :: added). cbn [steps] in Hsteps.
    by rewrite Hsteps, <- (List.app_assoc log [entry] added).
Qed.

End Journal.

Lemma recordStep_keeps_history_witness :
  (Command.clockReads CommandExamples.started
   <= Command.clockReads CommandExamples.afterFailedPlan)%nat /\
  forall dir,
    match Command.statusFiles CommandExamples.started dir with
    | Document s =>
        exists s',
          Command.statusFiles CommandExamples.afterFailedPlan dir = Document s' /\
          Command.task s' = Command.task s /\
          Command.git s' = Command.git s /\
          match Command.steps s with
          | Some log =>
              exists added, Command.steps s' = Some (log ++ added)%list
          | None => s' = s
          end
    | Absent => Command.statusFiles CommandExamples.afterFailedPlan dir = Absent
    | Malformed =>
        Command.statusFiles CommandExamples.afterFailedPlan dir = Malformed
    end.
Proof.
  apply (recordStep_keeps_history CommandExamples.clock).
  apply rtc_once.
  apply (@recorded_call unit CommandExamples.clock _ _
           "../worktrees/login-101" "plan-approved" "failed" None).
  reflexivity.
Defined.

Lemma recordStep_then_resume_witness :
  (Resume.resume
     (diskOf (Document [Examples.claimA]) (fun _ => false)
        CommandExamples.afterFailedPlan)
     None).1
  = Returned (Some (Value "implementation")).
Proof.
  refine (proj1
            (proj1
               (recordStep_then_resume CommandExamples.clock
                  "../worktrees/login-101" "plan-approved" "failed" None
                  CommandExamples.started CommandExamples.afterFailedPlan
                  CommandExamples.emptyLog
                  (Document [Examples.claimA]) (fun _ => false) None
                  (Resume.ofClaim Examples.claimA)
                  eq_refl eq_refl eq_refl eq_refl)
               _ _));
    by eexists.
Defined.

End CommandFacts.

(** ** The deslop agent: languages, issues and fixes *)

Section DeslopFacts.

Import JsString.
Import Deslop.

Lemma split_last (sep : ascii) (a b : string) :
  last (Command.split sep (a ++ String sep b)) = last (Command.split sep b).
Proof.
  rewrite split_app, last_app.
  destruct (split_first sep b) as (first & rest & ->).
  by destruct (last_is_Some (first :: rest)) as [_ [x ->]].
Qed.

(** X23.  The extension of a path is what follows its last dot; a path
    without any dot is its own extension, so a file called [go] or [c] is
    analysed as that language. *)
Theorem extension_is_last_part :
  (forall base ext,
     all (fun c => negb (Ascii.eqb c ".")) ext = true ->
     extension (base ++ "." ++ ext) = ext) /\
  (forall path,
     all (fun c => negb (Ascii.eqb c ".")) path = true ->
     extension path = path).
Proof.
  assert (forall path,
            all (fun c => negb (Ascii.eqb c ".")) path = true ->
            extension path = path) as Hwhole.
  { intros path H. unfold extension. by rewrite (split_whole _ _ H). }
  split; [|done]. intros base ext H. unfold extension.
  change ("." ++ ext) with (String "." ext). rewrite split_last.
  by apply Hwhole.
Qed.

Lemma extension_is_last_part_witness :
  extension ("src/lib/state.test" ++ "." ++ "ts") = "ts".
Proof.
  apply (proj1 extension_is_last_part "src/lib/state.test" "ts"). reflexivity.
Defined.

(** X24.  [getLanguageFromExtension] answers one of eleven languages, and
    only for an extension of its table, in exactly that spelling; [null]
    for every other extension, except that an extension named like a
    property inherited from [Object.prototype] gives that built-in. *)
Theorem getLanguageFromExtension_range (ext : string) :
  match getLanguageFromExtension ext with
  | Some (Value language) =>
      languageMap !! ext = Some language /\
      In language
        [ "javascript"; "python"; "rust"; "go"; "ruby"; "java"; "kotlin";
          "swift"; "cpp"; "c"; "csharp" ]
  | Some (Builtin key) =>
      key = ext /\ ext ∈ objectPrototypeKeys /\ languageMap !! ext = None
  | None => languageMap !! ext = None /\ ext ∉ objectPrototypeKeys
  end.
Proof.
  unfold getLanguageFromExtension, getProperty.
  destruct (languageMap !! ext) as [v|] eqn:E.
  - pose proof E as Hin. apply elem_of_list_to_map_2 in Hin.
    repeat (apply elem_of_cons in Hin as [Hin|Hin];
            [injection Hin as _ ->; simpl; split; [done | tauto]|]).
    by apply elem_of_nil in Hin.
  - destruct (bool_decide (ext ∈ objectPrototypeKeys)) eqn:B.
    + apply bool_decide_eq_true in B. done.
    + apply bool_decide_eq_false in B. done.
Qed.

Section AnalysisFacts.

Context {regex exclusions : Type}.
Context (getPatternsForLanguage :
           option (looked string) -> list (string * slopPattern regex exclusions)).
Context (isFileExcluded : string -> exclusions -> bool).
Context (test : regex -> string -> bool).
Context (readFile : string -> string).

Local Abbreviation analyze' :=
  (analyze getPatternsForLanguage isFileExcluded test readFile).

Lemma scan_spec (name : string) (p : slopPattern regex exclusions)
    (path : string) (lines : list string) (i : issue) :
  forall k,
    In i (scan test name p path k lines) <->
    exists idx text,
      lines !! idx = Some text /\ matches test p text = true /\
      i = issueAt path name p (k + idx) text.
Proof.
  induction lines as [|text lines IH]; intros k; simpl.
  - split; [done|]. by intros (idx & t & ? & _).
  - rewrite in_app_iff, IH. split.
    + intros [H|(idx & t & Hidx & Hm & ->)].
      * destruct (matches test p text) eqn:Hm; [|done].
        destruct H as [<-|[]]. exists 0%nat, text.
        rewrite Nat.add_0_r. done.
      * exists (S idx), t. split; [done|]. split; [done|].
        unfold issueAt. do 2 f_equal. lia.
    + intros ([|idx] & t & Hidx & Hm & ->).
      * injection Hidx as ->. left. rewrite Hm, Nat.add_0_r. by left.
      * right. exists idx, t. split; [done|]. split; [done|].
        unfold issueAt. do 2 f_equal. lia.
Qed.

Lemma analyze_spec (changedFiles : list string) (i : issue) :
  In i (analyze' changedFiles) <->
  exists path name p idx text,
    In path changedFiles /\
    In (name, p)
       (getPatternsForLanguage (getLanguageFromExtension (extension path))) /\
    isFileExcluded path (exclude p) = false /\
    Command.split "010" (readFile path) !! idx = Some text /\
    matches test p text = true /\
    i = issueAt path name p idx text.
Proof.
  unfold analyze, analyzeFile. rewrite in_flat_map. split.
  - intros (path & Hpath & Hin). apply in_flat_map in Hin as ([name p] & Hp & Hin).
    simpl in Hin.
    destruct (isFileExcluded path (exclude p)) eqn:Hex; [done|].
    apply scan_spec in Hin as (idx & text & Hidx & Hm & ->).
    by exists path, name, p, idx, text.
  - intros (path & name & p & idx & text & Hpath & Hp & Hex & Hidx & Hm & ->).
    exists path. split; [done|]. apply in_flat_map. exists (name, p).
    split; [done|]. simpl. rewrite Hex. apply scan_spec. by exists idx, text.
Qed.

(** X25.  The analysis records exactly the matches: an issue is recorded
    if and only if it is for a changed file, a pattern of that file's
    language that does not exclude the file, and a line of the file that
    the pattern matches; it carries the line's number counted from 1 and
    the trimmed line cut to 100 characters. *)
Theorem analyze_records_the_matches (changedFiles : list string) (i : issue) :
  In i (analyze' changedFiles) <->
  exists path name p idx text,
    In path changedFiles /\
    In (name, p)
       (getPatternsForLanguage (getLanguageFromExtension (extension path))) /\
    isFileExcluded path (exclude p) = false /\
    Command.split "010" (readFile path) !! idx = Some text /\
    matches test p text = true /\
    i = issueAt path name p idx text.
Proof. apply analyze_spec. Qed.

(** X26.  The fixes made from the issues of the analysis: each is for a
    changed file and a line of it, and is either the removal of the line or
    a replacement, which then always replaces by the empty text, the issues
    of the analysis carrying no replacement, and names as the old text at
    most 100 characters of the line. *)
Theorem fixes_of_the_analysis (changedFiles : list string) (f : fixEntry) :
  In f (fixes (createFixList (analyze' changedFiles))) ->
  In (fixFile f) changedFiles /\
  (1 <= fixLine f
     <= List.length (Command.split "010" (readFile (fixFile f))))%nat /\
  ((action f = "remove-line" /\ old f = None /\ new f = None) \/
   (action f = "replace" /\ new f = Some "" /\
    exists text, old f = Some text /\ (String.length text <= 100)%nat)).
Proof.
  unfold createFixList. simpl. intros Hf.
  apply list_elem_of_In, list_elem_of_omap in Hf as (i & Hi & Hfix).
  apply list_elem_of_In, analyze_spec
    in Hi as (path & name & p & idx & text & Hpath & _ & _ & Hidx & _ & ->).
  apply lookup_lt_Some in Hidx.
  unfold fixOf, issueAt in Hfix.
  cbn [autoFix issueFile line content replacement description] in Hfix.
  destruct (negb (Discover.truthy (patternAutoFix p))); [done|].
  destruct (patternAutoFix p) as [| |kind]; try done.
  destruct (String.eqb kind "remove").
  { injection Hfix as <-. cbn [fixFile fixLine action old new].
    split; [done|]. split; [lia|]. by left. }
  destruct (String.eqb kind "replace"); [|done].
  injection Hfix as <-. cbn [fixFile fixLine action old new].
  split; [done|]. split; [lia|]. right.
  split; [done|]. split; [done|]. exists (take 100 (trim text)).
  split; [done|]. rewrite length_take_string. lia.
Qed.

End AnalysisFacts.

Lemma analyze_records_the_matches_witness :
  In (Issue "src/app.ts" 2 "console_debugging" "medium"
        "Console.log statements left in production code"
        (Discover.JText "remove") "console.log(a);" None)
     (analyze DeslopExamples.library (fun _ _ => false) (fun re text => includes text re)
        DeslopExamples.sources ["src/app.ts"]).
Proof.
  apply (proj2 (analyze_records_the_matches DeslopExamples.library
                  (fun _ _ => false) (fun re text => includes text re)
                  DeslopExamples.sources ["src/app.ts"] _)).
  exists "src/app.ts", "console_debugging", DeslopExamples.consoleLog, 1%nat,
    "  console.log(a);".
  split; [by left|]. split; [by left|]. done.
Defined.

Lemma fixes_of_the_analysis_witness :
  In "src/app.ts" ["src/app.ts"] /\
  (1 <= 2 <= List.length (Command.split "010" (DeslopExamples.sources "src/app.ts")))%nat /\
  (("remove-line" = "remove-line" /\ @None string = None /\ @None string = None) \/
   ("remove-line" = "replace" /\ @None string = Some "" /\
    exists text, @None string = Some text /\ (String.length text <= 100)%nat)).
Proof.
  apply (fixes_of_the_analysis DeslopExamples.library (fun _ _ => false)
           (fun re text => includes text re) DeslopExamples.sources
           ["src/app.ts"]
           (Fix "src/app.ts" 2 "remove-line" None None
              "Console.log statements left in production code")).
  by left.
Defined.

End DeslopFacts.

(** ** The questions and the answers they offer *)

Section QuestionsFacts.

Import Policy Questions.

Lemma length_units (s : string) : List.length (units s) = String.length s.
Proof.
  unfold units. rewrite length_map.
  induction s as [|c s IH]; [done|]. simpl. by rewrite IH.
Qed.

Ltac table_keys :=
  let H := fresh "H" in
  let v := fresh "v" in
  intros l; split;
  [ simpl; intros H;
    repeat (destruct H as [<-|H]; [eexists; reflexivity|]); destruct H
  | intros [v H]; apply elem_of_list_to_map_2 in H;
    repeat (apply elem_of_cons in H as [H|H];
            [injection H as -> _; simpl; tauto|]);
    by apply elem_of_nil in H ].

(** X27.  The label of the "(last used)" option that [getPolicyQuestions]
    puts first: a cached label of at most 18 code units is shown whole and
    the option has at most 30; a longer one is cut to 17 units and the
    three units of the ellipsis literal, and the option then has exactly
    32 code units.  For a source named in [SOURCE_LABELS], other than
    custom, the option has at most 27. *)
Theorem cached_option_label_length (builtinText : string -> text)
    (c : sourceConfig) (t : text) (q : question) (o : choice) :
  cachedLabel c = LabelString t ->
  head (getPolicyQuestions builtinText (Some c)).1 = Some q ->
  head (options q) = Some o ->
  ((List.length t <= 18)%nat ->
     label o = (t ++ units " (last used)")%list /\
     (List.length (label o) <= 30)%nat) /\
  ((18 < List.length t)%nat ->
     label o = (take 17 t ++ ellipsis ++ units " (last used)")%list /\
     List.length (label o) = 32%nat) /\
  (source c <> "custom" -> is_Some (SOURCE_LABELS !! source c) ->
     (List.length (label o) <= 27)%nat).
Proof.
  intros Hc [= <-] [= <-]. unfold cachedOption. cbn [label].
  assert (List.length (units " (last used)") = 12%nat) as H12 by reflexivity.
  assert (List.length ellipsis = 3%nat) as H3 by reflexivity.
  split; [|split].
  - intros Hfit. rewrite Hc. unfold truncatedLabel.
    change maxBaseLen with 18%nat.
    destruct (Nat.ltb_spec 18 (List.length t)); [lia|].
    split; [done|]. rewrite length_app, H12. lia.
  - intros Hlong. rewrite Hc. unfold truncatedLabel.
    change maxBaseLen with 18%nat.
    destruct (Nat.ltb_spec 18 (List.length t)); [|lia].
    change (18 - 1)%nat with 17%nat.
    split; [by rewrite <- List.app_assoc|].
    rewrite !length_app, length_take, H12, H3. lia.
  - intros Hcustom [v Hv]. unfold cachedLabel.
    destruct (String.eqb_spec (source c) "custom"); [done|].
    unfold getProperty. rewrite Hv.
    apply elem_of_list_to_map_2 in Hv.
    repeat (apply elem_of_cons in Hv as [Hv|Hv];
            [injection Hv as _ ->; apply Nat.leb_le; reflexivity|]).
    by apply elem_of_nil in Hv.
Qed.

Lemma cached_option_label_length_witness :
  List.length
    (label
       (cachedOption (fun _ => [])
          (SourceConfig "custom" None None None (Some "my-issue-tracker")
             (Some "cli"))))
  = 32%nat.
Proof.
  apply (proj1 (proj2
    (cached_option_label_length (fun _ => [])
       (SourceConfig "custom" None None None (Some "my-issue-tracker")
          (Some "cli"))
       (units "my-issue-tracker (cli)") _ _ eq_refl eq_refl eq_refl))).
  apply Nat.ltb_lt. reflexivity.
Defined.

(** X28.  The questions and the mappings agree: the answers offered for
    the source, the priority and the stop point are exactly the keys of the
    three tables, so an offered answer is never mapped by default.  An
    offered priority is mapped to a filter that [filterByPriority] knows,
    [all] or a category of [LABEL_MAPS].  No standard source answer is
    taken for the cached one: the cache plays no part in mapping it. *)
Theorem offered_answers_are_understood :
  (forall l, In l (map fst standardSources) <-> is_Some (sourceMap !! l)) /\
  (forall l, In l (map fst priorities) <-> is_Some (priorityMap !! l)) /\
  (forall l, In l (map fst stopPoints) <-> is_Some (stopPointMap !! l)) /\
  (forall l, In l (map fst priorities) ->
     exists f, mapPriority l = Value f /\ priorityMap !! l = Some f /\
               (f = "all" \/ is_Some (Discover.LABEL_MAPS !! f))) /\
  (forall l, In l (map fst stopPoints) ->
     exists p, mapStopPoint l = Value p /\ stopPointMap !! l = Some p) /\
  (forall l mapType build cached custom,
     In l (map fst standardSources) ->
     isUsingCached l = false /\
     mapSource mapType build cached l custom
     = mapSource mapType build None l custom).
Proof.
  split; [table_keys|]. split; [table_keys|]. split; [table_keys|].
  split; [|split].
  - intros l H. simpl in H.
    destruct H as [<-|[<-|[<-|[<-|[]]]]]; eexists;
      (split; [reflexivity|]); (split; [reflexivity|]);
      first [by left | right; eexists; reflexivity].
  - intros l H. simpl in H.
    destruct H as [<-|[<-|[<-|[<-|[<-|[]]]]]]; eexists;
      split; reflexivity.
  - intros l mapType build cached custom H. simpl in H.
    assert (JsString.includes l "(last used)" = false) as Hl.
    { by destruct H as [<-|[<-|[<-|[<-|[<-|[<-|[]]]]]]]. }
    split; [done|]. unfold mapSource. by rewrite Hl.
Qed.

Lemma offered_answers_are_understood_witness :
  exists f, mapPriority "Security" = Value f /\
            priorityMap !! "Security" = Some f /\
            (f = "all" \/ is_Some (Discover.LABEL_MAPS !! f)).
Proof.
  apply (proj1 (proj2 (proj2 (proj2 offered_answers_are_understood)))).
  simpl. tauto.
Defined.

End QuestionsFacts.

(** ** Follow-up questions and the labels of the offered tasks *)

Section FollowUpFacts.

Import JsString Policy.

(** X29.  The follow-up predicates say when [parseAndCachePolicy] needs
    more than the three answers.  For the answer that
    [needsProjectFollowUp] accepts, parsing without the project answers
    throws.  For an answer that is not the cached option, that
    [needsProjectFollowUp] rejects, and that [needsCustomFollowUp] rejects
    or that comes without custom details, parsing returns a policy. *)
Theorem follow_up_predicates mapType build cached (r : responses) :
  (needsProjectFollowUp (responseSource r) = true ->
   responseProject r = None ->
   parseAndCachePolicy mapType build cached r
   = (Thrown (Error
        "GitHub Projects source requires project number and owner. Call getProjectQuestions() first."),
      [])) /\
  (needsProjectFollowUp (responseSource r) = false ->
   isUsingCached (responseSource r) = false ->
   needsCustomFollowUp (responseSource r) = false \/ responseCustom r = None ->
   exists p, (parseAndCachePolicy mapType build cached r).1 = Returned p).
Proof.
  unfold needsProjectFollowUp, isUsingCached, needsCustomFollowUp. split.
  - intros Hsel%String.eqb_eq Hproject.
    unfold parseAndCachePolicy, mapSource. by rewrite Hsel, Hproject.
  - intros Hproject Hlast Hcustom.
    assert (exists c,
              mapSource mapType build cached (responseSource r) (responseCustom r)
              = SourceObject c /\ source c <> "gh-projects"
            \/ exists k,
              mapSource mapType build cached (responseSource r) (responseCustom r)
              = SourceBuiltin k) as Hsource.
    { unfold mapSource. rewrite Hlast.
      assert (forall selection custom,
                selection = responseSource r ->
                exists c,
                  (if String.eqb selection "Other"
                   then SourceObject
                          (SourceConfig "other" None None (Some custom) None None)
                   else
                     match getProperty sourceMap selection with
                     | Own (Some c) => SourceObject c
                     | Own None | Undefined => SourceObject (plainSource "github")
                     | Inherited k => SourceBuiltin k
                     end) = SourceObject c /\ source c <> "gh-projects"
                \/ exists k,
                  (if String.eqb selection "Other"
                   then SourceObject
                          (SourceConfig "other" None None (Some custom) None None)
                   else
                     match getProperty sourceMap selection with
                     | Own (Some c) => SourceObject c
                     | Own None | Undefined => SourceObject (plainSource "github")
                     | Inherited k => SourceBuiltin k
                     end) = SourceBuiltin k) as Hrest.
      { intros selection custom ->.
        destruct (String.eqb (responseSource r) "Other").
        { eexists. left. by split. }
        unfold getProperty.
        destruct (sourceMap !! responseSource r) as [[c|]|] eqn:E.
        - exists c. left. split; [done|].
          apply elem_of_list_to_map_2 in E.
          repeat (apply elem_of_cons in E as [E|E];
                  [first
                     [ discriminate E
                     | injection E as Hkey ->;
                       first
                         [ by rewrite Hkey in Hproject
                         | intros Habs; vm_compute in Habs;
                           discriminate Habs ] ]|]).
          by apply elem_of_nil in E.
        - eexists. left. by split.
        - destruct (bool_decide (responseSource r ∈ objectPrototypeKeys)).
          + exists (plainSource "github"). right. by eexists.
          + eexists. left. by split. }
      destruct Hcustom as [Hc|Hc]; rewrite Hc.
      - by destruct (responseCustom r); apply Hrest.
      - by destruct (String.eqb (responseSource r) "Custom"); apply Hrest. }
    unfold parseAndCachePolicy.
    destruct Hsource as (c & [[-> Hgh]|[k ->]]); [|by eexists].
    destruct (String.eqb_spec (source c) "gh-projects"); [done|].
    destruct (String.eqb (source c) "other"); by eexists.
Qed.

Lemma follow_up_predicates_witness :
  parseAndCachePolicy (fun t => t) (fun _ _ => plainSource "custom") None
    (Responses "GitHub Projects" "All" "Merged" None None)
  = (Thrown (Error
       "GitHub Projects source requires project number and owner. Call getProjectQuestions() first."),
     []).
Proof.
  apply (proj1 (follow_up_predicates (fun t => t)
                  (fun _ _ => plainSource "custom") None
                  (Responses "GitHub Projects" "All" "Merged" None None)));
    reflexivity.
Defined.

End FollowUpFacts.

Section LabelFacts.

Import JsString Discover Present.

Lemma cut_at (sep : ascii) (a b x y : string) :
  all (fun c => negb (Ascii.eqb c sep)) a = true ->
  all (fun c => negb (Ascii.eqb c sep)) b = true ->
  a ++ String sep x = b ++ String sep y -> a = b.
Proof.
  revert b. induction a as [|c a IH]; intros [|d b] Ha Hb H.
  - done.
  - rewrite append_nil_l, append_cons in H. injection H as <- _.
    simpl in Hb. by rewrite Ascii.eqb_refl in Hb.
  - rewrite append_nil_l, append_cons in H. injection H as -> _.
    simpl in Ha. by rewrite Ascii.eqb_refl in Ha.
  - rewrite !append_cons in H. injection H as <- H.
    simpl in Ha, Hb. apply andb_prop in Ha as [_ Ha], Hb as [_ Hb].
    by rewrite (IH b Ha Hb H).
Qed.

Lemma ofZ_has_no_colon (n : Z) :
  all (fun c => negb (Ascii.eqb c ":")) (ofZ n) = true.
Proof.
  assert (forall s, all isDigit s = true ->
            all (fun c => negb (Ascii.eqb c ":")) s = true) as Hdigits.
  { intros s. apply all_impl. intros c Hc%digit_code.
    destruct (Ascii.eqb_spec c ":") as [->|]; [|done].
    vm_compute in Hc. destruct Hc as [_ Hc]. by destruct Hc. }
  unfold ofZ. destruct (n <? 0).
  - change (negb (Ascii.eqb "-" ":") &&
            all (fun c => negb (Ascii.eqb c ":"))
              (digitsOf (N.to_nat (N.log2 (Z.to_N (Z.abs n))))
                 (Z.to_N (Z.abs n)) "") = true).
    by rewrite Hdigits by by apply all_digitsOf.
  - by apply Hdigits, all_digitsOf.
Qed.

Lemma truncateLabel_starts (num : jsval) (title : string) :
  exists rest, truncateLabel num title = labelPrefix num ++ rest.
Proof.
  unfold truncateLabel.
  destruct (30 - Z.of_nat (String.length (labelPrefix num))
            <? Z.of_nat (String.length title)); by eexists.
Qed.

(** X30.  The labels of tasks with different issue numbers, safe integers,
    are different, whatever the titles and however they are cut: the label
    that the user picks names one issue. *)
Theorem labels_identify_issues (n m : Z) (title1 title2 : string) :
  Z.abs n <= 9007199254740991 -> Z.abs m <= 9007199254740991 ->
  n <> m ->
  truncateLabel (JNumber n) title1 <> truncateLabel (JNumber m) title2.
Proof.
  intros _ _ Hnm H. apply Hnm, ofZ_injective.
  destruct (truncateLabel_starts (JNumber n) title1) as [r1 H1].
  destruct (truncateLabel_starts (JNumber m) title2) as [r2 H2].
  rewrite H1, H2 in H. unfold labelPrefix in H. simpl toText in H.
  rewrite !append_cons, !append_nil_l, !append_assoc in H.
  injection H as H.
  change (": " ++ r1) with (String ":" (" " ++ r1)) in H.
  change (": " ++ r2) with (String ":" (" " ++ r2)) in H.
  apply (cut_at _ _ _ _ _ (ofZ_has_no_colon n) (ofZ_has_no_colon m) H).
Qed.

Lemma labels_identify_issues_witness :
  truncateLabel (JNumber 12) "Fix the login page"
  <> truncateLabel (JNumber 123) "Fix the login page".
Proof.
  apply (labels_identify_issues 12 123); lia.
Defined.

End LabelFacts.
